(** * AI Wargame: rules engine and minimax search (ai_wargame.py)

    A shallow embedding of the game model of [ai_wargame.py] and the
    properties of its rules, its move parser and its search.

    Conventions of the embedding.
    - Python [int] is [Z]; a search depth, which the program only uses
      as a non-negative counter, is [nat].
    - The board is the list of rows the program builds, read and written
      by index with stdpp's list lookup and [alter]/insert.
    - A [Unit] stored in the board is a mutable object in the program.
      Every cell holds its own object, so in-place mutation of the unit
      at a cell is the replacement of that cell's contents.
    - [Game.clone] deep-copies the board and shares [options] and
      [stats].  Options are never written, so they stay a field; the
      shared, mutated [Stats] object is threaded through the search as
      explicit state. *)

From Stdlib Require Import ZArith List Bool Lia String Ascii.
From stdpp Require Import base decidable option list sorting gmap pretty.
Import ListNotations.
Local Open Scope Z_scope.

(** ** Constants *)

Definition MAX_HEURISTIC_SCORE : Z := 2000000000.
Definition MIN_HEURISTIC_SCORE : Z := -2000000000.

(** ** Enumerations *)

Inductive UnitType := AI | Tech | Virus | Program | Firewall.

Inductive Player := Attacker | Defender.

Inductive GameType :=
  AttackerVsDefender | AttackerVsComp | CompVsDefender | CompVsComp.

#[global] Instance UnitType_eq_dec : EqDecision UnitType.
Proof. solve_decision. Defined.
#[global] Instance Player_eq_dec : EqDecision Player.
Proof. solve_decision. Defined.
#[global] Instance GameType_eq_dec : EqDecision GameType.
Proof. solve_decision. Defined.

(** [UnitType.value]: the enum's integer, used to index the tables. *)
Definition UnitType_value (t : UnitType) : nat :=
  match t with
  | AI => 0 | Tech => 1 | Virus => 2 | Program => 3 | Firewall => 4
  end%nat.

(** [Player.next] *)
Definition Player_next (p : Player) : Player :=
  match p with
  | Attacker => Defender
  | Defender => Attacker
  end.

(** The [name] of an enum member. *)
Definition Player_name (p : Player) : string :=
  match p with
  | Attacker => "Attacker"
  | Defender => "Defender"
  end.

Definition UnitType_name (t : UnitType) : string :=
  match t with
  | AI => "AI" | Tech => "Tech" | Virus => "Virus"
  | Program => "Program" | Firewall => "Firewall"
  end.

(** [range(lo, hi)] *)
Definition range (lo hi : Z) : list Z :=
  map (fun i => lo + Z.of_nat i) (seq 0 (Z.to_nat (hi - lo))).

(** ** Python strings on Latin-1 text

    A [str] of characters with code points below 256 is modelled as a
    [string].  [upper] and [lower] act on the ASCII letters; the other
    characters of that range have no image among the ASCII letters and
    digits, which is all the parser's [find] calls can observe.  The
    text a user types can hold any Unicode character: [Unicode] below
    models [str] on such text, and [from_string_latin1] shows the
    parser of this module to be that one on Latin-1 text. *)

Module PyStr.

Local Open Scope nat_scope.

(** [str.isspace] on one character. *)
Definition is_space (c : ascii) : bool :=
  let n := nat_of_ascii c in
  ((9 <=? n) && (n <=? 13)) || ((28 <=? n) && (n <=? 32))
  || (n =? 133) || (n =? 160).

Fixpoint lstrip (s : string) : string :=
  match s with
  | String c rest => if is_space c then lstrip rest else s
  | EmptyString => EmptyString
  end.

Fixpoint rev_string (s acc : string) : string :=
  match s with
  | String c rest => rev_string rest (String c acc)
  | EmptyString => acc
  end.

Definition rstrip (s : string) : string :=
  rev_string (lstrip (rev_string s EmptyString)) EmptyString.

(** [s.strip()] *)
Definition strip (s : string) : string := rstrip (lstrip s).

(** [s.replace(sep, '')] for a one-character [sep]. *)
Fixpoint remove_char (sep : ascii) (s : string) : string :=
  match s with
  | String c rest =>
      if Ascii.eqb c sep then remove_char sep rest
      else String c (remove_char sep rest)
  | EmptyString => EmptyString
  end.

(** [upper] and [lower] of one Latin-1 character, as far as the ASCII
    alphabets can tell: only an ASCII letter has an ASCII image. *)
Definition upper_char (c : ascii) : ascii :=
  let n := nat_of_ascii c in
  if (97 <=? n) && (n <=? 122) then ascii_of_nat (n - 32) else c.

Definition lower_char (c : ascii) : ascii :=
  let n := nat_of_ascii c in
  if (65 <=? n) && (n <=? 90) then ascii_of_nat (n + 32) else c.

Fixpoint upper (s : string) : string :=
  match s with
  | String c rest => String (upper_char c) (upper rest)
  | EmptyString => EmptyString
  end.

Fixpoint lower (s : string) : string :=
  match s with
  | String c rest => String (lower_char c) (lower rest)
  | EmptyString => EmptyString
  end.

(** [s.find(sub)]: the lowest index of [sub] in [s], or -1. *)
Definition find (s sub : string) : Z :=
  match String.index 0 sub s with
  | Some i => Z.of_nat i
  | None => (-1)%Z
  end.

(** [s[i:j]] for [0 <= i <= j]. *)
Definition slice (s : string) (i j : nat) : string :=
  String.substring i (j - i) s.

(** The loop over the separators of [from_string], each removed by
    [replace]. *)
Definition remove_separators (s : string) : string :=
  fold_left (fun s sep => remove_char sep s)
            (list_ascii_of_string " ,.:;-_") s.

Definition ROWS : string := "ABCDEFGHIJKLMNOPQRSTUVWXYZ".
Definition COLS : string := "0123456789abcdef".

(** [s[i]] for an integer [i]: a negative index counts from the end,
    and an index outside [-len(s), len(s))] raises [IndexError], which
    is [None] here. *)
Definition getitem (s : string) (i : Z) : option string :=
  let n := Z.of_nat (String.length s) in
  if ((0 <=? i) && (i <? n))%Z then Some (String.substring (Z.to_nat i) 1 s)
  else if ((- n <=? i) && (i <? 0))%Z
  then Some (String.substring (Z.to_nat (n + i)) 1 s)
  else None.

(** [s[0]] of a string that is not empty. *)
Definition first (s : string) : string := String.substring 0 1 s.

End PyStr.

(** ** Units *)

Module Unit.

Record t := mk { player : Player; type : UnitType; health : Z }.

#[global] Instance eq_dec : EqDecision t.
Proof. solve_decision. Defined.

Definition damage_table : list (list Z) :=
  [ [3;3;3;3;1]     (* AI *)
  ; [1;1;6;1;1]     (* Tech *)
  ; [9;6;1;6;1]     (* Virus *)
  ; [3;3;3;3;1]     (* Program *)
  ; [1;1;1;1;1] ].  (* Firewall *)

Definition repair_table : list (list Z) :=
  [ [0;1;1;0;0]     (* AI *)
  ; [3;0;0;3;3]     (* Tech *)
  ; [0;0;0;0;0]     (* Virus *)
  ; [0;0;0;0;0]     (* Program *)
  ; [0;0;0;0;0] ].  (* Firewall *)

(** [table[a.value][b.value]]; both indexes are below 5. *)
Definition table_entry (tbl : list (list Z)) (a b : UnitType) : Z :=
  nth (UnitType_value b) (nth (UnitType_value a) tbl []) 0.

Definition is_alive (self : t) : bool := health self >? 0.

Definition set_health (self : t) (h : Z) : t :=
  mk (player self) (type self) h.

Definition mod_health (self : t) (health_delta : Z) : t :=
  let h := health self + health_delta in
  if h <? 0 then set_health self 0
  else if h >? 9 then set_health self 9
  else set_health self h.

Definition damage_amount (self target : t) : Z :=
  let amount := table_entry damage_table (type self) (type target) in
  if health target - amount <? 0 then health target else amount.

Definition repair_amount (self target : t) : Z :=
  let amount := table_entry repair_table (type self) (type target) in
  if health target + amount >? 9 then 9 - health target else amount.

(** [f"{p}{t}{self.health}"]: the initial of the side in lower case,
    the initial of the kind in upper case, the health in decimal. *)
Definition to_string (self : t) : string :=
  let p := PyStr.first (PyStr.lower (Player_name (player self))) in
  let t := PyStr.first (PyStr.upper (UnitType_name (type self))) in
  String.append p (String.append t (pretty (health self))).

End Unit.

(** ** Coordinates *)

Module Coord.

Record t := mk { row : Z; col : Z }.

#[global] Instance eq_dec : EqDecision t.
Proof. solve_decision. Defined.

(** Rectangle of half-width [dist] centred on [self], row by row. *)
Definition iter_range (self : t) (dist : Z) : list t :=
  flat_map
    (fun r => map (fun c => mk r c)
                  (range (col self - dist) (col self + 1 + dist)))
    (range (row self - dist) (row self + 1 + dist)).

(** Up, left, down, right. *)
Definition iter_adjacent (self : t) : list t :=
  [ mk (row self - 1) (col self)
  ; mk (row self) (col self - 1)
  ; mk (row self + 1) (col self)
  ; mk (row self) (col self + 1) ].

(** The column and row letters; [None] is the [IndexError] of an
    index below minus the length of the alphabet. *)
Definition col_string (self : t) : option string :=
  if col self <? 16 then PyStr.getitem PyStr.COLS (col self) else Some "?"%string.

Definition row_string (self : t) : option string :=
  if row self <? 26 then PyStr.getitem PyStr.ROWS (row self) else Some "?"%string.

Definition to_string (self : t) : option string :=
  match row_string self with
  | Some r =>
      match col_string self with
      | Some c => Some (String.append r c)
      | None => None
      end
  | None => None
  end.

Definition from_string (s : string) : option t :=
  let s := PyStr.remove_separators (PyStr.strip s) in
  if (String.length s =? 2)%nat then
    Some (mk (PyStr.find PyStr.ROWS (PyStr.upper (PyStr.slice s 0 1)))
             (PyStr.find PyStr.COLS (PyStr.lower (PyStr.slice s 1 2))))
  else None.

End Coord.

Module CoordPair.

Record t := mk { src : Coord.t; dst : Coord.t }.

#[global] Instance eq_dec : EqDecision t.
Proof. solve_decision. Defined.

Definition iter_rectangle (self : t) : list Coord.t :=
  flat_map
    (fun r => map (fun c => Coord.mk r c)
                  (range (Coord.col (src self)) (Coord.col (dst self) + 1)))
    (range (Coord.row (src self)) (Coord.row (dst self) + 1)).

Definition from_dim (dim : Z) : t :=
  mk (Coord.mk 0 0) (Coord.mk (dim - 1) (dim - 1)).

Definition to_string (self : t) : option string :=
  match Coord.to_string (src self) with
  | Some a =>
      match Coord.to_string (dst self) with
      | Some b => Some (String.append a (String.append " " b))
      | None => None
      end
  | None => None
  end.

Definition from_string (s : string) : option t :=
  let s := PyStr.remove_separators (PyStr.strip s) in
  if (String.length s =? 4)%nat then
    Some (mk (Coord.mk
                (PyStr.find PyStr.ROWS (PyStr.upper (PyStr.slice s 0 1)))
                (PyStr.find PyStr.COLS (PyStr.lower (PyStr.slice s 1 2))))
             (Coord.mk
                (PyStr.find PyStr.ROWS (PyStr.upper (PyStr.slice s 2 3)))
                (PyStr.find PyStr.COLS (PyStr.lower (PyStr.slice s 3 4)))))
  else None.

End CoordPair.

(** ** Typed text: Python [str] over Unicode *)

(** A move is typed at the keyboard, and a Python [str] holds any
    Unicode text.  This module models [str] as the list of its code
    points and the string methods of [from_string] on it: [strip],
    [replace], [upper], [lower] and [find] follow the Unicode character
    database (version 14.0, that of CPython 3.11), of which the tables
    below are the part these methods read.  The Unicode stability policy
    keeps the case mapping of a character once it is assigned, so that
    later versions only add characters to the tables.  [PyStr] above is
    this model on Latin-1 text, see [from_string_latin1]. *)
Module Unicode.

Local Open Scope N_scope.

(** The text of a literal. *)
Definition of_string (s : string) : list N :=
  map N_of_ascii (list_ascii_of_string s).

(** [str.isspace] on one character, which is the test of [strip]: the
    characters of bidirectional type WS, B or S and of category Zs. *)
Definition is_space (c : N) : bool :=
  ((0x9 <=? c) && (c <=? 0xd)) || ((0x1c <=? c) && (c <=? 0x20))
  || (c =? 0x85) || (c =? 0xa0) || (c =? 0x1680)
  || ((0x2000 <=? c) && (c <=? 0x200a))
  || (c =? 0x2028) || (c =? 0x2029) || (c =? 0x202f) || (c =? 0x205f)
  || (c =? 0x3000).

Fixpoint lstrip (s : list N) : list N :=
  match s with
  | c :: rest => if is_space c then lstrip rest else s
  | [] => []
  end.

Definition rstrip (s : list N) : list N := reverse (lstrip (reverse s)).

(** [s.strip()] *)
Definition strip (s : list N) : list N := rstrip (lstrip s).

(** [s.replace(sep, '')] for a one-character [sep]. *)
Fixpoint remove_char (sep : N) (s : list N) : list N :=
  match s with
  | c :: rest =>
      if c =? sep then remove_char sep rest else c :: remove_char sep rest
  | [] => []
  end.

(** The loop over the separators of [from_string], each removed by
    [replace]. *)
Definition remove_separators (s : list N) : list N :=
  fold_left (fun s sep => remove_char sep s) (of_string " ,.:;-_") s.

(** [chr(c).upper()] for every character [c] that it changes: the full
    upper-case mapping, of up to three characters. *)
Definition upper_table : list (N * list N) :=
  [ (0x61, [0x41]); (0x62, [0x42]); (0x63, [0x43]); (0x64, [0x44])
  ; (0x65, [0x45]); (0x66, [0x46]); (0x67, [0x47]); (0x68, [0x48])
  ; (0x69, [0x49]); (0x6a, [0x4a]); (0x6b, [0x4b]); (0x6c, [0x4c])
  ; (0x6d, [0x4d]); (0x6e, [0x4e]); (0x6f, [0x4f]); (0x70, [0x50])
  ; (0x71, [0x51]); (0x72, [0x52]); (0x73, [0x53]); (0x74, [0x54])
  ; (0x75, [0x55]); (0x76, [0x56]); (0x77, [0x57]); (0x78, [0x58])
  ; (0x79, [0x59]); (0x7a, [0x5a]); (0xb5, [0x39c]); (0xdf, [0x53; 0x53])
  ; (0xe0, [0xc0]); (0xe1, [0xc1]); (0xe2, [0xc2]); (0xe3, [0xc3])
  ; (0xe4, [0xc4]); (0xe5, [0xc5]); (0xe6, [0xc6]); (0xe7, [0xc7])
  ; (0xe8, [0xc8]); (0xe9, [0xc9]); (0xea, [0xca]); (0xeb, [0xcb])
  ; (0xec, [0xcc]); (0xed, [0xcd]); (0xee, [0xce]); (0xef, [0xcf])
  ; (0xf0, [0xd0]); (0xf1, [0xd1]); (0xf2, [0xd2]); (0xf3, [0xd3])
  ; (0xf4, [0xd4]); (0xf5, [0xd5]); (0xf6, [0xd6]); (0xf8, [0xd8])
  ; (0xf9, [0xd9]); (0xfa, [0xda]); (0xfb, [0xdb]); (0xfc, [0xdc])
  ; (0xfd, [0xdd]); (0xfe, [0xde]); (0xff, [0x178]); (0x101, [0x100])
  ; (0x103, [0x102]); (0x105, [0x104]); (0x107, [0x106]); (0x109, [0x108])
  ; (0x10b, [0x10a]); (0x10d, [0x10c]); (0x10f, [0x10e]); (0x111, [0x110])
  ; (0x113, [0x112]); (0x115, [0x114]); (0x117, [0x116]); (0x119, [0x118])
  ; (0x11b, [0x11a]); (0x11d, [0x11c]); (0x11f, [0x11e]); (0x121, [0x120])
  ; (0x123, [0x122]); (0x125, [0x124]); (0x127, [0x126]); (0x129, [0x128])
  ; (0x12b, [0x12a]); (0x12d, [0x12c]); (0x12f, [0x12e]); (0x131, [0x49])
  ; (0x133, [0x132]); (0x135, [0x134]); (0x137, [0x136]); (0x13a, [0x139])
  ; (0x13c, [0x13b]); (0x13e, [0x13d]); (0x140, [0x13f]); (0x142, [0x141])
  ; (0x144, [0x143]); (0x146, [0x145]); (0x148, [0x147])
  ; (0x149, [0x2bc; 0x4e]); (0x14b, [0x14a]); (0x14d, [0x14c])
  ; (0x14f, [0x14e]); (0x151, [0x150]); (0x153, [0x152]); (0x155, [0x154])
  ; (0x157, [0x156]); (0x159, [0x158]); (0x15b, [0x15a]); (0x15d, [0x15c])
  ; (0x15f, [0x15e]); (0x161, [0x160]); (0x163, [0x162]); (0x165, [0x164])
  ; (0x167, [0x166]); (0x169, [0x168]); (0x16b, [0x16a]); (0x16d, [0x16c])
  ; (0x16f, [0x16e]); (0x171, [0x170]); (0x173, [0x172]); (0x175, [0x174])
  ; (0x177, [0x176]); (0x17a, [0x179]); (0x17c, [0x17b]); (0x17e, [0x17d])
  ; (0x17f, [0x53]); (0x180, [0x243]); (0x183, [0x182]); (0x185, [0x184])
  ; (0x188, [0x187]); (0x18c, [0x18b]); (0x192, [0x191]); (0x195, [0x1f6])
  ; (0x199, [0x198]); (0x19a, [0x23d]); (0x19e, [0x220]); (0x1a1, [0x1a0])
  ; (0x1a3, [0x1a2]); (0x1a5, [0x1a4]); (0x1a8, [0x1a7]); (0x1ad, [0x1ac])
  ; (0x1b0, [0x1af]); (0x1b4, [0x1b3]); (0x1b6, [0x1b5]); (0x1b9, [0x1b8])
  ; (0x1bd, [0x1bc]); (0x1bf, [0x1f7]); (0x1c5, [0x1c4]); (0x1c6, [0x1c4])
  ; (0x1c8, [0x1c7]); (0x1c9, [0x1c7]); (0x1cb, [0x1ca]); (0x1cc, [0x1ca])
  ; (0x1ce, [0x1cd]); (0x1d0, [0x1cf]); (0x1d2, [0x1d1]); (0x1d4, [0x1d3])
  ; (0x1d6, [0x1d5]); (0x1d8, [0x1d7]); (0x1da, [0x1d9]); (0x1dc, [0x1db])
  ; (0x1dd, [0x18e]); (0x1df, [0x1de]); (0x1e1, [0x1e0]); (0x1e3, [0x1e2])
  ; (0x1e5, [0x1e4]); (0x1e7, [0x1e6]); (0x1e9, [0x1e8]); (0x1eb, [0x1ea])
  ; (0x1ed, [0x1ec]); (0x1ef, [0x1ee]); (0x1f0, [0x4a; 0x30c])
  ; (0x1f2, [0x1f1]); (0x1f3, [0x1f1]); (0x1f5, [0x1f4]); (0x1f9, [0x1f8])
  ; (0x1fb, [0x1fa]); (0x1fd, [0x1fc]); (0x1ff, [0x1fe]); (0x201, [0x200])
  ; (0x203, [0x202]); (0x205, [0x204]); (0x207, [0x206]); (0x209, [0x208])
  ; (0x20b, [0x20a]); (0x20d, [0x20c]); (0x20f, [0x20e]); (0x211, [0x210])
  ; (0x213, [0x212]); (0x215, [0x214]); (0x217, [0x216]); (0x219, [0x218])
  ; (0x21b, [0x21a]); (0x21d, [0x21c]); (0x21f, [0x21e]); (0x223, [0x222])
  ; (0x225, [0x224]); (0x227, [0x226]); (0x229, [0x228]); (0x22b, [0x22a])
  ; (0x22d, [0x22c]); (0x22f, [0x22e]); (0x231, [0x230]); (0x233, [0x232])
  ; (0x23c, [0x23b]); (0x23f, [0x2c7e]); (0x240, [0x2c7f]); (0x242, [0x241])
  ; (0x247, [0x246]); (0x249, [0x248]); (0x24b, [0x24a]); (0x24d, [0x24c])
  ; (0x24f, [0x24e]); (0x250, [0x2c6f]); (0x251, [0x2c6d]); (0x252, [0x2c70])
  ; (0x253, [0x181]); (0x254, [0x186]); (0x256, [0x189]); (0x257, [0x18a])
  ; (0x259, [0x18f]); (0x25b, [0x190]); (0x25c, [0xa7ab]); (0x260, [0x193])
  ; (0x261, [0xa7ac]); (0x263, [0x194]); (0x265, [0xa78d]); (0x266, [0xa7aa])
  ; (0x268, [0x197]); (0x269, [0x196]); (0x26a, [0xa7ae]); (0x26b, [0x2c62])
  ; (0x26c, [0xa7ad]); (0x26f, [0x19c]); (0x271, [0x2c6e]); (0x272, [0x19d])
  ; (0x275, [0x19f]); (0x27d, [0x2c64]); (0x280, [0x1a6]); (0x282, [0xa7c5])
  ; (0x283, [0x1a9]); (0x287, [0xa7b1]); (0x288, [0x1ae]); (0x289, [0x244])
  ; (0x28a, [0x1b1]); (0x28b, [0x1b2]); (0x28c, [0x245]); (0x292, [0x1b7])
  ; (0x29d, [0xa7b2]); (0x29e, [0xa7b0]); (0x345, [0x399]); (0x371, [0x370])
  ; (0x373, [0x372]); (0x377, [0x376]); (0x37b, [0x3fd]); (0x37c, [0x3fe])
  ; (0x37d, [0x3ff]); (0x390, [0x399; 0x308; 0x301]); (0x3ac, [0x386])
  ; (0x3ad, [0x388]); (0x3ae, [0x389]); (0x3af, [0x38a])
  ; (0x3b0, [0x3a5; 0x308; 0x301]); (0x3b1, [0x391]); (0x3b2, [0x392])
  ; (0x3b3, [0x393]); (0x3b4, [0x394]); (0x3b5, [0x395]); (0x3b6, [0x396])
  ; (0x3b7, [0x397]); (0x3b8, [0x398]); (0x3b9, [0x399]); (0x3ba, [0x39a])
  ; (0x3bb, [0x39b]); (0x3bc, [0x39c]); (0x3bd, [0x39d]); (0x3be, [0x39e])
  ; (0x3bf, [0x39f]); (0x3c0, [0x3a0]); (0x3c1, [0x3a1]); (0x3c2, [0x3a3])
  ; (0x3c3, [0x3a3]); (0x3c4, [0x3a4]); (0x3c5, [0x3a5]); (0x3c6, [0x3a6])
  ; (0x3c7, [0x3a7]); (0x3c8, [0x3a8]); (0x3c9, [0x3a9]); (0x3ca, [0x3aa])
  ; (0x3cb, [0x3ab]); (0x3cc, [0x38c]); (0x3cd, [0x38e]); (0x3ce, [0x38f])
  ; (0x3d0, [0x392]); (0x3d1, [0x398]); (0x3d5, [0x3a6]); (0x3d6, [0x3a0])
  ; (0x3d7, [0x3cf]); (0x3d9, [0x3d8]); (0x3db, [0x3da]); (0x3dd, [0x3dc])
  ; (0x3df, [0x3de]); (0x3e1, [0x3e0]); (0x3e3, [0x3e2]); (0x3e5, [0x3e4])
  ; (0x3e7, [0x3e6]); (0x3e9, [0x3e8]); (0x3eb, [0x3ea]); (0x3ed, [0x3ec])
  ; (0x3ef, [0x3ee]); (0x3f0, [0x39a]); (0x3f1, [0x3a1]); (0x3f2, [0x3f9])
  ; (0x3f3, [0x37f]); (0x3f5, [0x395]); (0x3f8, [0x3f7]); (0x3fb, [0x3fa])
  ; (0x430, [0x410]); (0x431, [0x411]); (0x432, [0x412]); (0x433, [0x413])
  ; (0x434, [0x414]); (0x435, [0x415]); (0x436, [0x416]); (0x437, [0x417])
  ; (0x438, [0x418]); (0x439, [0x419]); (0x43a, [0x41a]); (0x43b, [0x41b])
  ; (0x43c, [0x41c]); (0x43d, [0x41d]); (0x43e, [0x41e]); (0x43f, [0x41f])
  ; (0x440, [0x420]); (0x441, [0x421]); (0x442, [0x422]); (0x443, [0x423])
  ; (0x444, [0x424]); (0x445, [0x425]); (0x446, [0x426]); (0x447, [0x427])
  ; (0x448, [0x428]); (0x449, [0x429]); (0x44a, [0x42a]); (0x44b, [0x42b])
  ; (0x44c, [0x42c]); (0x44d, [0x42d]); (0x44e, [0x42e]); (0x44f, [0x42f])
  ; (0x450, [0x400]); (0x451, [0x401]); (0x452, [0x402]); (0x453, [0x403])
  ; (0x454, [0x404]); (0x455, [0x405]); (0x456, [0x406]); (0x457, [0x407])
  ; (0x458, [0x408]); (0x459, [0x409]); (0x45a, [0x40a]); (0x45b, [0x40b])
  ; (0x45c, [0x40c]); (0x45d, [0x40d]); (0x45e, [0x40e]); (0x45f, [0x40f])
  ; (0x461, [0x460]); (0x463, [0x462]); (0x465, [0x464]); (0x467, [0x466])
  ; (0x469, [0x468]); (0x46b, [0x46a]); (0x46d, [0x46c]); (0x46f, [0x46e])
  ; (0x471, [0x470]); (0x473, [0x472]); (0x475, [0x474]); (0x477, [0x476])
  ; (0x479, [0x478]); (0x47b, [0x47a]); (0x47d, [0x47c]); (0x47f, [0x47e])
  ; (0x481, [0x480]); (0x48b, [0x48a]); (0x48d, [0x48c]); (0x48f, [0x48e])
  ; (0x491, [0x490]); (0x493, [0x492]); (0x495, [0x494]); (0x497, [0x496])
  ; (0x499, [0x498]); (0x49b, [0x49a]); (0x49d, [0x49c]); (0x49f, [0x49e])
  ; (0x4a1, [0x4a0]); (0x4a3, [0x4a2]); (0x4a5, [0x4a4]); (0x4a7, [0x4a6])
  ; (0x4a9, [0x4a8]); (0x4ab, [0x4aa]); (0x4ad, [0x4ac]); (0x4af, [0x4ae])
  ; (0x4b1, [0x4b0]); (0x4b3, [0x4b2]); (0x4b5, [0x4b4]); (0x4b7, [0x4b6])
  ; (0x4b9, [0x4b8]); (0x4bb, [0x4ba]); (0x4bd, [0x4bc]); (0x4bf, [0x4be])
  ; (0x4c2, [0x4c1]); (0x4c4, [0x4c3]); (0x4c6, [0x4c5]); (0x4c8, [0x4c7])
  ; (0x4ca, [0x4c9]); (0x4cc, [0x4cb]); (0x4ce, [0x4cd]); (0x4cf, [0x4c0])
  ; (0x4d1, [0x4d0]); (0x4d3, [0x4d2]); (0x4d5, [0x4d4]); (0x4d7, [0x4d6])
  ; (0x4d9, [0x4d8]); (0x4db, [0x4da]); (0x4dd, [0x4dc]); (0x4df, [0x4de])
  ; (0x4e1, [0x4e0]); (0x4e3, [0x4e2]); (0x4e5, [0x4e4]); (0x4e7, [0x4e6])
  ; (0x4e9, [0x4e8]); (0x4eb, [0x4ea]); (0x4ed, [0x4ec]); (0x4ef, [0x4ee])
  ; (0x4f1, [0x4f0]); (0x4f3, [0x4f2]); (0x4f5, [0x4f4]); (0x4f7, [0x4f6])
  ; (0x4f9, [0x4f8]); (0x4fb, [0x4fa]); (0x4fd, [0x4fc]); (0x4ff, [0x4fe])
  ; (0x501, [0x500]); (0x503, [0x502]); (0x505, [0x504]); (0x507, [0x506])
  ; (0x509, [0x508]); (0x50b, [0x50a]); (0x50d, [0x50c]); (0x50f, [0x50e])
  ; (0x511, [0x510]); (0x513, [0x512]); (0x515, [0x514]); (0x517, [0x516])
  ; (0x519, [0x518]); (0x51b, [0x51a]); (0x51d, [0x51c]); (0x51f, [0x51e])
  ; (0x521, [0x520]); (0x523, [0x522]); (0x525, [0x524]); (0x527, [0x526])
  ; (0x529, [0x528]); (0x52b, [0x52a]); (0x52d, [0x52c]); (0x52f, [0x52e])
  ; (0x561, [0x531]); (0x562, [0x532]); (0x563, [0x533]); (0x564, [0x534])
  ; (0x565, [0x535]); (0x566, [0x536]); (0x567, [0x537]); (0x568, [0x538])
  ; (0x569, [0x539]); (0x56a, [0x53a]); (0x56b, [0x53b]); (0x56c, [0x53c])
  ; (0x56d, [0x53d]); (0x56e, [0x53e]); (0x56f, [0x53f]); (0x570, [0x540])
  ; (0x571, [0x541]); (0x572, [0x542]); (0x573, [0x543]); (0x574, [0x544])
  ; (0x575, [0x545]); (0x576, [0x546]); (0x577, [0x547]); (0x578, [0x548])
  ; (0x579, [0x549]); (0x57a, [0x54a]); (0x57b, [0x54b]); (0x57c, [0x54c])
  ; (0x57d, [0x54d]); (0x57e, [0x54e]); (0x57f, [0x54f]); (0x580, [0x550])
  ; (0x581, [0x551]); (0x582, [0x552]); (0x583, [0x553]); (0x584, [0x554])
  ; (0x585, [0x555]); (0x586, [0x556]); (0x587, [0x535; 0x552])
  ; (0x10d0, [0x1c90]); (0x10d1, [0x1c91]); (0x10d2, [0x1c92])
  ; (0x10d3, [0x1c93]); (0x10d4, [0x1c94]); (0x10d5, [0x1c95])
  ; (0x10d6, [0x1c96]); (0x10d7, [0x1c97]); (0x10d8, [0x1c98])
  ; (0x10d9, [0x1c99]); (0x10da, [0x1c9a]); (0x10db, [0x1c9b])
  ; (0x10dc, [0x1c9c]); (0x10dd, [0x1c9d]); (0x10de, [0x1c9e])
  ; (0x10df, [0x1c9f]); (0x10e0, [0x1ca0]); (0x10e1, [0x1ca1])
  ; (0x10e2, [0x1ca2]); (0x10e3, [0x1ca3]); (0x10e4, [0x1ca4])
  ; (0x10e5, [0x1ca5]); (0x10e6, [0x1ca6]); (0x10e7, [0x1ca7])
  ; (0x10e8, [0x1ca8]); (0x10e9, [0x1ca9]); (0x10ea, [0x1caa])
  ; (0x10eb, [0x1cab]); (0x10ec, [0x1cac]); (0x10ed, [0x1cad])
  ; (0x10ee, [0x1cae]); (0x10ef, [0x1caf]); (0x10f0, [0x1cb0])
  ; (0x10f1, [0x1cb1]); (0x10f2, [0x1cb2]); (0x10f3, [0x1cb3])
  ; (0x10f4, [0x1cb4]); (0x10f5, [0x1cb5]); (0x10f6, [0x1cb6])
  ; (0x10f7, [0x1cb7]); (0x10f8, [0x1cb8]); (0x10f9, [0x1cb9])
  ; (0x10fa, [0x1cba]); (0x10fd, [0x1cbd]); (0x10fe, [0x1cbe])
  ; (0x10ff, [0x1cbf]); (0x13f8, [0x13f0]); (0x13f9, [0x13f1])
  ; (0x13fa, [0x13f2]); (0x13fb, [0x13f3]); (0x13fc, [0x13f4])
  ; (0x13fd, [0x13f5]); (0x1c80, [0x412]); (0x1c81, [0x414])
  ; (0x1c82, [0x41e]); (0x1c83, [0x421]); (0x1c84, [0x422]); (0x1c85, [0x422])
  ; (0x1c86, [0x42a]); (0x1c87, [0x462]); (0x1c88, [0xa64a])
  ; (0x1d79, [0xa77d]); (0x1d7d, [0x2c63]); (0x1d8e, [0xa7c6])
  ; (0x1e01, [0x1e00]); (0x1e03, [0x1e02]); (0x1e05, [0x1e04])
  ; (0x1e07, [0x1e06]); (0x1e09, [0x1e08]); (0x1e0b, [0x1e0a])
  ; (0x1e0d, [0x1e0c]); (0x1e0f, [0x1e0e]); (0x1e11, [0x1e10])
  ; (0x1e13, [0x1e12]); (0x1e15, [0x1e14]); (0x1e17, [0x1e16])
  ; (0x1e19, [0x1e18]); (0x1e1b, [0x1e1a]); (0x1e1d, [0x1e1c])
  ; (0x1e1f, [0x1e1e]); (0x1e21, [0x1e20]); (0x1e23, [0x1e22])
  ; (0x1e25, [0x1e24]); (0x1e27, [0x1e26]); (0x1e29, [0x1e28])
  ; (0x1e2b, [0x1e2a]); (0x1e2d, [0x1e2c]); (0x1e2f, [0x1e2e])
  ; (0x1e31, [0x1e30]); (0x1e33, [0x1e32]); (0x1e35, [0x1e34])
  ; (0x1e37, [0x1e36]); (0x1e39, [0x1e38]); (0x1e3b, [0x1e3a])
  ; (0x1e3d, [0x1e3c]); (0x1e3f, [0x1e3e]); (0x1e41, [0x1e40])
  ; (0x1e43, [0x1e42]); (0x1e45, [0x1e44]); (0x1e47, [0x1e46])
  ; (0x1e49, [0x1e48]); (0x1e4b, [0x1e4a]); (0x1e4d, [0x1e4c])
  ; (0x1e4f, [0x1e4e]); (0x1e51, [0x1e50]); (0x1e53, [0x1e52])
  ; (0x1e55, [0x1e54]); (0x1e57, [0x1e56]); (0x1e59, [0x1e58])
  ; (0x1e5b, [0x1e5a]); (0x1e5d, [0x1e5c]); (0x1e5f, [0x1e5e])
  ; (0x1e61, [0x1e60]); (0x1e63, [0x1e62]); (0x1e65, [0x1e64])
  ; (0x1e67, [0x1e66]); (0x1e69, [0x1e68]); (0x1e6b, [0x1e6a])
  ; (0x1e6d, [0x1e6c]); (0x1e6f, [0x1e6e]); (0x1e71, [0x1e70])
  ; (0x1e73, [0x1e72]); (0x1e75, [0x1e74]); (0x1e77, [0x1e76])
  ; (0x1e79, [0x1e78]); (0x1e7b, [0x1e7a]); (0x1e7d, [0x1e7c])
  ; (0x1e7f, [0x1e7e]); (0x1e81, [0x1e80]); (0x1e83, [0x1e82])
  ; (0x1e85, [0x1e84]); (0x1e87, [0x1e86]); (0x1e89, [0x1e88])
  ; (0x1e8b, [0x1e8a]); (0x1e8d, [0x1e8c]); (0x1e8f, [0x1e8e])
  ; (0x1e91, [0x1e90]); (0x1e93, [0x1e92]); (0x1e95, [0x1e94])
  ; (0x1e96, [0x48; 0x331]); (0x1e97, [0x54; 0x308]); (0x1e98, [0x57; 0x30a])
  ; (0x1e99, [0x59; 0x30a]); (0x1e9a, [0x41; 0x2be]); (0x1e9b, [0x1e60])
  ; (0x1ea1, [0x1ea0]); (0x1ea3, [0x1ea2]); (0x1ea5, [0x1ea4])
  ; (0x1ea7, [0x1ea6]); (0x1ea9, [0x1ea8]); (0x1eab, [0x1eaa])
  ; (0x1ead, [0x1eac]); (0x1eaf, [0x1eae]); (0x1eb1, [0x1eb0])
  ; (0x1eb3, [0x1eb2]); (0x1eb5, [0x1eb4]); (0x1eb7, [0x1eb6])
  ; (0x1eb9, [0x1eb8]); (0x1ebb, [0x1eba]); (0x1ebd, [0x1ebc])
  ; (0x1ebf, [0x1ebe]); (0x1ec1, [0x1ec0]); (0x1ec3, [0x1ec2])
  ; (0x1ec5, [0x1ec4]); (0x1ec7, [0x1ec6]); (0x1ec9, [0x1ec8])
  ; (0x1ecb, [0x1eca]); (0x1ecd, [0x1ecc]); (0x1ecf, [0x1ece])
  ; (0x1ed1, [0x1ed0]); (0x1ed3, [0x1ed2]); (0x1ed5, [0x1ed4])
  ; (0x1ed7, [0x1ed6]); (0x1ed9, [0x1ed8]); (0x1edb, [0x1eda])
  ; (0x1edd, [0x1edc]); (0x1edf, [0x1ede]); (0x1ee1, [0x1ee0])
  ; (0x1ee3, [0x1ee2]); (0x1ee5, [0x1ee4]); (0x1ee7, [0x1ee6])
  ; (0x1ee9, [0x1ee8]); (0x1eeb, [0x1eea]); (0x1eed, [0x1eec])
  ; (0x1eef, [0x1eee]); (0x1ef1, [0x1ef0]); (0x1ef3, [0x1ef2])
  ; (0x1ef5, [0x1ef4]); (0x1ef7, [0x1ef6]); (0x1ef9, [0x1ef8])
  ; (0x1efb, [0x1efa]); (0x1efd, [0x1efc]); (0x1eff, [0x1efe])
  ; (0x1f00, [0x1f08]); (0x1f01, [0x1f09]); (0x1f02, [0x1f0a])
  ; (0x1f03, [0x1f0b]); (0x1f04, [0x1f0c]); (0x1f05, [0x1f0d])
  ; (0x1f06, [0x1f0e]); (0x1f07, [0x1f0f]); (0x1f10, [0x1f18])
  ; (0x1f11, [0x1f19]); (0x1f12, [0x1f1a]); (0x1f13, [0x1f1b])
  ; (0x1f14, [0x1f1c]); (0x1f15, [0x1f1d]); (0x1f20, [0x1f28])
  ; (0x1f21, [0x1f29]); (0x1f22, [0x1f2a]); (0x1f23, [0x1f2b])
  ; (0x1f24, [0x1f2c]); (0x1f25, [0x1f2d]); (0x1f26, [0x1f2e])
  ; (0x1f27, [0x1f2f]); (0x1f30, [0x1f38]); (0x1f31, [0x1f39])
  ; (0x1f32, [0x1f3a]); (0x1f33, [0x1f3b]); (0x1f34, [0x1f3c])
  ; (0x1f35, [0x1f3d]); (0x1f36, [0x1f3e]); (0x1f37, [0x1f3f])
  ; (0x1f40, [0x1f48]); (0x1f41, [0x1f49]); (0x1f42, [0x1f4a])
  ; (0x1f43, [0x1f4b]); (0x1f44, [0x1f4c]); (0x1f45, [0x1f4d])
  ; (0x1f50, [0x3a5; 0x313]); (0x1f51, [0x1f59])
  ; (0x1f52, [0x3a5; 0x313; 0x300]); (0x1f53, [0x1f5b])
  ; (0x1f54, [0x3a5; 0x313; 0x301]); (0x1f55, [0x1f5d])
  ; (0x1f56, [0x3a5; 0x313; 0x342]); (0x1f57, [0x1f5f]); (0x1f60, [0x1f68])
  ; (0x1f61, [0x1f69]); (0x1f62, [0x1f6a]); (0x1f63, [0x1f6b])
  ; (0x1f64, [0x1f6c]); (0x1f65, [0x1f6d]); (0x1f66, [0x1f6e])
  ; (0x1f67, [0x1f6f]); (0x1f70, [0x1fba]); (0x1f71, [0x1fbb])
  ; (0x1f72, [0x1fc8]); (0x1f73, [0x1fc9]); (0x1f74, [0x1fca])
  ; (0x1f75, [0x1fcb]); (0x1f76, [0x1fda]); (0x1f77, [0x1fdb])
  ; (0x1f78, [0x1ff8]); (0x1f79, [0x1ff9]); (0x1f7a, [0x1fea])
  ; (0x1f7b, [0x1feb]); (0x1f7c, [0x1ffa]); (0x1f7d, [0x1ffb])
  ; (0x1f80, [0x1f08; 0x399]); (0x1f81, [0x1f09; 0x399])
  ; (0x1f82, [0x1f0a; 0x399]); (0x1f83, [0x1f0b; 0x399])
  ; (0x1f84, [0x1f0c; 0x399]); (0x1f85, [0x1f0d; 0x399])
  ; (0x1f86, [0x1f0e; 0x399]); (0x1f87, [0x1f0f; 0x399])
  ; (0x1f88, [0x1f08; 0x399]); (0x1f89, [0x1f09; 0x399])
  ; (0x1f8a, [0x1f0a; 0x399]); (0x1f8b, [0x1f0b; 0x399])
  ; (0x1f8c, [0x1f0c; 0x399]); (0x1f8d, [0x1f0d; 0x399])
  ; (0x1f8e, [0x1f0e; 0x399]); (0x1f8f, [0x1f0f; 0x399])
  ; (0x1f90, [0x1f28; 0x399]); (0x1f91, [0x1f29; 0x399])
  ; (0x1f92, [0x1f2a; 0x399]); (0x1f93, [0x1f2b; 0x399])
  ; (0x1f94, [0x1f2c; 0x399]); (0x1f95, [0x1f2d; 0x399])
  ; (0x1f96, [0x1f2e; 0x399]); (0x1f97, [0x1f2f; 0x399])
  ; (0x1f98, [0x1f28; 0x399]); (0x1f99, [0x1f29; 0x399])
  ; (0x1f9a, [0x1f2a; 0x399]); (0x1f9b, [0x1f2b; 0x399])
  ; (0x1f9c, [0x1f2c; 0x399]); (0x1f9d, [0x1f2d; 0x399])
  ; (0x1f9e, [0x1f2e; 0x399]); (0x1f9f, [0x1f2f; 0x399])
  ; (0x1fa0, [0x1f68; 0x399]); (0x1fa1, [0x1f69; 0x399])
  ; (0x1fa2, [0x1f6a; 0x399]); (0x1fa3, [0x1f6b; 0x399])
  ; (0x1fa4, [0x1f6c; 0x399]); (0x1fa5, [0x1f6d; 0x399])
  ; (0x1fa6, [0x1f6e; 0x399]); (0x1fa7, [0x1f6f; 0x399])
  ; (0x1fa8, [0x1f68; 0x399]); (0x1fa9, [0x1f69; 0x399])
  ; (0x1faa, [0x1f6a; 0x399]); (0x1fab, [0x1f6b; 0x399])
  ; (0x1fac, [0x1f6c; 0x399]); (0x1fad, [0x1f6d; 0x399])
  ; (0x1fae, [0x1f6e; 0x399]); (0x1faf, [0x1f6f; 0x399]); (0x1fb0, [0x1fb8])
  ; (0x1fb1, [0x1fb9]); (0x1fb2, [0x1fba; 0x399]); (0x1fb3, [0x391; 0x399])
  ; (0x1fb4, [0x386; 0x399]); (0x1fb6, [0x391; 0x342])
  ; (0x1fb7, [0x391; 0x342; 0x399]); (0x1fbc, [0x391; 0x399])
  ; (0x1fbe, [0x399]); (0x1fc2, [0x1fca; 0x399]); (0x1fc3, [0x397; 0x399])
  ; (0x1fc4, [0x389; 0x399]); (0x1fc6, [0x397; 0x342])
  ; (0x1fc7, [0x397; 0x342; 0x399]); (0x1fcc, [0x397; 0x399])
  ; (0x1fd0, [0x1fd8]); (0x1fd1, [0x1fd9]); (0x1fd2, [0x399; 0x308; 0x300])
  ; (0x1fd3, [0x399; 0x308; 0x301]); (0x1fd6, [0x399; 0x342])
  ; (0x1fd7, [0x399; 0x308; 0x342]); (0x1fe0, [0x1fe8]); (0x1fe1, [0x1fe9])
  ; (0x1fe2, [0x3a5; 0x308; 0x300]); (0x1fe3, [0x3a5; 0x308; 0x301])
  ; (0x1fe4, [0x3a1; 0x313]); (0x1fe5, [0x1fec]); (0x1fe6, [0x3a5; 0x342])
  ; (0x1fe7, [0x3a5; 0x308; 0x342]); (0x1ff2, [0x1ffa; 0x399])
  ; (0x1ff3, [0x3a9; 0x399]); (0x1ff4, [0x38f; 0x399])
  ; (0x1ff6, [0x3a9; 0x342]); (0x1ff7, [0x3a9; 0x342; 0x399])
  ; (0x1ffc, [0x3a9; 0x399]); (0x214e, [0x2132]); (0x2170, [0x2160])
  ; (0x2171, [0x2161]); (0x2172, [0x2162]); (0x2173, [0x2163])
  ; (0x2174, [0x2164]); (0x2175, [0x2165]); (0x2176, [0x2166])
  ; (0x2177, [0x2167]); (0x2178, [0x2168]); (0x2179, [0x2169])
  ; (0x217a, [0x216a]); (0x217b, [0x216b]); (0x217c, [0x216c])
  ; (0x217d, [0x216d]); (0x217e, [0x216e]); (0x217f, [0x216f])
  ; (0x2184, [0x2183]); (0x24d0, [0x24b6]); (0x24d1, [0x24b7])
  ; (0x24d2, [0x24b8]); (0x24d3, [0x24b9]); (0x24d4, [0x24ba])
  ; (0x24d5, [0x24bb]); (0x24d6, [0x24bc]); (0x24d7, [0x24bd])
  ; (0x24d8, [0x24be]); (0x24d9, [0x24bf]); (0x24da, [0x24c0])
  ; (0x24db, [0x24c1]); (0x24dc, [0x24c2]); (0x24dd, [0x24c3])
  ; (0x24de, [0x24c4]); (0x24df, [0x24c5]); (0x24e0, [0x24c6])
  ; (0x24e1, [0x24c7]); (0x24e2, [0x24c8]); (0x24e3, [0x24c9])
  ; (0x24e4, [0x24ca]); (0x24e5, [0x24cb]); (0x24e6, [0x24cc])
  ; (0x24e7, [0x24cd]); (0x24e8, [0x24ce]); (0x24e9, [0x24cf])
  ; (0x2c30, [0x2c00]); (0x2c31, [0x2c01]); (0x2c32, [0x2c02])
  ; (0x2c33, [0x2c03]); (0x2c34, [0x2c04]); (0x2c35, [0x2c05])
  ; (0x2c36, [0x2c06]); (0x2c37, [0x2c07]); (0x2c38, [0x2c08])
  ; (0x2c39, [0x2c09]); (0x2c3a, [0x2c0a]); (0x2c3b, [0x2c0b])
  ; (0x2c3c, [0x2c0c]); (0x2c3d, [0x2c0d]); (0x2c3e, [0x2c0e])
  ; (0x2c3f, [0x2c0f]); (0x2c40, [0x2c10]); (0x2c41, [0x2c11])
  ; (0x2c42, [0x2c12]); (0x2c43, [0x2c13]); (0x2c44, [0x2c14])
  ; (0x2c45, [0x2c15]); (0x2c46, [0x2c16]); (0x2c47, [0x2c17])
  ; (0x2c48, [0x2c18]); (0x2c49, [0x2c19]); (0x2c4a, [0x2c1a])
  ; (0x2c4b, [0x2c1b]); (0x2c4c, [0x2c1c]); (0x2c4d, [0x2c1d])
  ; (0x2c4e, [0x2c1e]); (0x2c4f, [0x2c1f]); (0x2c50, [0x2c20])
  ; (0x2c51, [0x2c21]); (0x2c52, [0x2c22]); (0x2c53, [0x2c23])
  ; (0x2c54, [0x2c24]); (0x2c55, [0x2c25]); (0x2c56, [0x2c26])
  ; (0x2c57, [0x2c27]); (0x2c58, [0x2c28]); (0x2c59, [0x2c29])
  ; (0x2c5a, [0x2c2a]); (0x2c5b, [0x2c2b]); (0x2c5c, [0x2c2c])
  ; (0x2c5d, [0x2c2d]); (0x2c5e, [0x2c2e]); (0x2c5f, [0x2c2f])
  ; (0x2c61, [0x2c60]); (0x2c65, [0x23a]); (0x2c66, [0x23e])
  ; (0x2c68, [0x2c67]); (0x2c6a, [0x2c69]); (0x2c6c, [0x2c6b])
  ; (0x2c73, [0x2c72]); (0x2c76, [0x2c75]); (0x2c81, [0x2c80])
  ; (0x2c83, [0x2c82]); (0x2c85, [0x2c84]); (0x2c87, [0x2c86])
  ; (0x2c89, [0x2c88]); (0x2c8b, [0x2c8a]); (0x2c8d, [0x2c8c])
  ; (0x2c8f, [0x2c8e]); (0x2c91, [0x2c90]); (0x2c93, [0x2c92])
  ; (0x2c95, [0x2c94]); (0x2c97, [0x2c96]); (0x2c99, [0x2c98])
  ; (0x2c9b, [0x2c9a]); (0x2c9d, [0x2c9c]); (0x2c9f, [0x2c9e])
  ; (0x2ca1, [0x2ca0]); (0x2ca3, [0x2ca2]); (0x2ca5, [0x2ca4])
  ; (0x2ca7, [0x2ca6]); (0x2ca9, [0x2ca8]); (0x2cab, [0x2caa])
  ; (0x2cad, [0x2cac]); (0x2caf, [0x2cae]); (0x2cb1, [0x2cb0])
  ; (0x2cb3, [0x2cb2]); (0x2cb5, [0x2cb4]); (0x2cb7, [0x2cb6])
  ; (0x2cb9, [0x2cb8]); (0x2cbb, [0x2cba]); (0x2cbd, [0x2cbc])
  ; (0x2cbf, [0x2cbe]); (0x2cc1, [0x2cc0]); (0x2cc3, [0x2cc2])
  ; (0x2cc5, [0x2cc4]); (0x2cc7, [0x2cc6]); (0x2cc9, [0x2cc8])
  ; (0x2ccb, [0x2cca]); (0x2ccd, [0x2ccc]); (0x2ccf, [0x2cce])
  ; (0x2cd1, [0x2cd0]); (0x2cd3, [0x2cd2]); (0x2cd5, [0x2cd4])
  ; (0x2cd7, [0x2cd6]); (0x2cd9, [0x2cd8]); (0x2cdb, [0x2cda])
  ; (0x2cdd, [0x2cdc]); (0x2cdf, [0x2cde]); (0x2ce1, [0x2ce0])
  ; (0x2ce3, [0x2ce2]); (0x2cec, [0x2ceb]); (0x2cee, [0x2ced])
  ; (0x2cf3, [0x2cf2]); (0x2d00, [0x10a0]); (0x2d01, [0x10a1])
  ; (0x2d02, [0x10a2]); (0x2d03, [0x10a3]); (0x2d04, [0x10a4])
  ; (0x2d05, [0x10a5]); (0x2d06, [0x10a6]); (0x2d07, [0x10a7])
  ; (0x2d08, [0x10a8]); (0x2d09, [0x10a9]); (0x2d0a, [0x10aa])
  ; (0x2d0b, [0x10ab]); (0x2d0c, [0x10ac]); (0x2d0d, [0x10ad])
  ; (0x2d0e, [0x10ae]); (0x2d0f, [0x10af]); (0x2d10, [0x10b0])
  ; (0x2d11, [0x10b1]); (0x2d12, [0x10b2]); (0x2d13, [0x10b3])
  ; (0x2d14, [0x10b4]); (0x2d15, [0x10b5]); (0x2d16, [0x10b6])
  ; (0x2d17, [0x10b7]); (0x2d18, [0x10b8]); (0x2d19, [0x10b9])
  ; (0x2d1a, [0x10ba]); (0x2d1b, [0x10bb]); (0x2d1c, [0x10bc])
  ; (0x2d1d, [0x10bd]); (0x2d1e, [0x10be]); (0x2d1f, [0x10bf])
  ; (0x2d20, [0x10c0]); (0x2d21, [0x10c1]); (0x2d22, [0x10c2])
  ; (0x2d23, [0x10c3]); (0x2d24, [0x10c4]); (0x2d25, [0x10c5])
  ; (0x2d27, [0x10c7]); (0x2d2d, [0x10cd]); (0xa641, [0xa640])
  ; (0xa643, [0xa642]); (0xa645, [0xa644]); (0xa647, [0xa646])
  ; (0xa649, [0xa648]); (0xa64b, [0xa64a]); (0xa64d, [0xa64c])
  ; (0xa64f, [0xa64e]); (0xa651, [0xa650]); (0xa653, [0xa652])
  ; (0xa655, [0xa654]); (0xa657, [0xa656]); (0xa659, [0xa658])
  ; (0xa65b, [0xa65a]); (0xa65d, [0xa65c]); (0xa65f, [0xa65e])
  ; (0xa661, [0xa660]); (0xa663, [0xa662]); (0xa665, [0xa664])
  ; (0xa667, [0xa666]); (0xa669, [0xa668]); (0xa66b, [0xa66a])
  ; (0xa66d, [0xa66c]); (0xa681, [0xa680]); (0xa683, [0xa682])
  ; (0xa685, [0xa684]); (0xa687, [0xa686]); (0xa689, [0xa688])
  ; (0xa68b, [0xa68a]); (0xa68d, [0xa68c]); (0xa68f, [0xa68e])
  ; (0xa691, [0xa690]); (0xa693, [0xa692]); (0xa695, [0xa694])
  ; (0xa697, [0xa696]); (0xa699, [0xa698]); (0xa69b, [0xa69a])
  ; (0xa723, [0xa722]); (0xa725, [0xa724]); (0xa727, [0xa726])
  ; (0xa729, [0xa728]); (0xa72b, [0xa72a]); (0xa72d, [0xa72c])
  ; (0xa72f, [0xa72e]); (0xa733, [0xa732]); (0xa735, [0xa734])
  ; (0xa737, [0xa736]); (0xa739, [0xa738]); (0xa73b, [0xa73a])
  ; (0xa73d, [0xa73c]); (0xa73f, [0xa73e]); (0xa741, [0xa740])
  ; (0xa743, [0xa742]); (0xa745, [0xa744]); (0xa747, [0xa746])
  ; (0xa749, [0xa748]); (0xa74b, [0xa74a]); (0xa74d, [0xa74c])
  ; (0xa74f, [0xa74e]); (0xa751, [0xa750]); (0xa753, [0xa752])
  ; (0xa755, [0xa754]); (0xa757, [0xa756]); (0xa759, [0xa758])
  ; (0xa75b, [0xa75a]); (0xa75d, [0xa75c]); (0xa75f, [0xa75e])
  ; (0xa761, [0xa760]); (0xa763, [0xa762]); (0xa765, [0xa764])
  ; (0xa767, [0xa766]); (0xa769, [0xa768]); (0xa76b, [0xa76a])
  ; (0xa76d, [0xa76c]); (0xa76f, [0xa76e]); (0xa77a, [0xa779])
  ; (0xa77c, [0xa77b]); (0xa77f, [0xa77e]); (0xa781, [0xa780])
  ; (0xa783, [0xa782]); (0xa785, [0xa784]); (0xa787, [0xa786])
  ; (0xa78c, [0xa78b]); (0xa791, [0xa790]); (0xa793, [0xa792])
  ; (0xa794, [0xa7c4]); (0xa797, [0xa796]); (0xa799, [0xa798])
  ; (0xa79b, [0xa79a]); (0xa79d, [0xa79c]); (0xa79f, [0xa79e])
  ; (0xa7a1, [0xa7a0]); (0xa7a3, [0xa7a2]); (0xa7a5, [0xa7a4])
  ; (0xa7a7, [0xa7a6]); (0xa7a9, [0xa7a8]); (0xa7b5, [0xa7b4])
  ; (0xa7b7, [0xa7b6]); (0xa7b9, [0xa7b8]); (0xa7bb, [0xa7ba])
  ; (0xa7bd, [0xa7bc]); (0xa7bf, [0xa7be]); (0xa7c1, [0xa7c0])
  ; (0xa7c3, [0xa7c2]); (0xa7c8, [0xa7c7]); (0xa7ca, [0xa7c9])
  ; (0xa7d1, [0xa7d0]); (0xa7d7, [0xa7d6]); (0xa7d9, [0xa7d8])
  ; (0xa7f6, [0xa7f5]); (0xab53, [0xa7b3]); (0xab70, [0x13a0])
  ; (0xab71, [0x13a1]); (0xab72, [0x13a2]); (0xab73, [0x13a3])
  ; (0xab74, [0x13a4]); (0xab75, [0x13a5]); (0xab76, [0x13a6])
  ; (0xab77, [0x13a7]); (0xab78, [0x13a8]); (0xab79, [0x13a9])
  ; (0xab7a, [0x13aa]); (0xab7b, [0x13ab]); (0xab7c, [0x13ac])
  ; (0xab7d, [0x13ad]); (0xab7e, [0x13ae]); (0xab7f, [0x13af])
  ; (0xab80, [0x13b0]); (0xab81, [0x13b1]); (0xab82, [0x13b2])
  ; (0xab83, [0x13b3]); (0xab84, [0x13b4]); (0xab85, [0x13b5])
  ; (0xab86, [0x13b6]); (0xab87, [0x13b7]); (0xab88, [0x13b8])
  ; (0xab89, [0x13b9]); (0xab8a, [0x13ba]); (0xab8b, [0x13bb])
  ; (0xab8c, [0x13bc]); (0xab8d, [0x13bd]); (0xab8e, [0x13be])
  ; (0xab8f, [0x13bf]); (0xab90, [0x13c0]); (0xab91, [0x13c1])
  ; (0xab92, [0x13c2]); (0xab93, [0x13c3]); (0xab94, [0x13c4])
  ; (0xab95, [0x13c5]); (0xab96, [0x13c6]); (0xab97, [0x13c7])
  ; (0xab98, [0x13c8]); (0xab99, [0x13c9]); (0xab9a, [0x13ca])
  ; (0xab9b, [0x13cb]); (0xab9c, [0x13cc]); (0xab9d, [0x13cd])
  ; (0xab9e, [0x13ce]); (0xab9f, [0x13cf]); (0xaba0, [0x13d0])
  ; (0xaba1, [0x13d1]); (0xaba2, [0x13d2]); (0xaba3, [0x13d3])
  ; (0xaba4, [0x13d4]); (0xaba5, [0x13d5]); (0xaba6, [0x13d6])
  ; (0xaba7, [0x13d7]); (0xaba8, [0x13d8]); (0xaba9, [0x13d9])
  ; (0xabaa, [0x13da]); (0xabab, [0x13db]); (0xabac, [0x13dc])
  ; (0xabad, [0x13dd]); (0xabae, [0x13de]); (0xabaf, [0x13df])
  ; (0xabb0, [0x13e0]); (0xabb1, [0x13e1]); (0xabb2, [0x13e2])
  ; (0xabb3, [0x13e3]); (0xabb4, [0x13e4]); (0xabb5, [0x13e5])
  ; (0xabb6, [0x13e6]); (0xabb7, [0x13e7]); (0xabb8, [0x13e8])
  ; (0xabb9, [0x13e9]); (0xabba, [0x13ea]); (0xabbb, [0x13eb])
  ; (0xabbc, [0x13ec]); (0xabbd, [0x13ed]); (0xabbe, [0x13ee])
  ; (0xabbf, [0x13ef]); (0xfb00, [0x46; 0x46]); (0xfb01, [0x46; 0x49])
  ; (0xfb02, [0x46; 0x4c]); (0xfb03, [0x46; 0x46; 0x49])
  ; (0xfb04, [0x46; 0x46; 0x4c]); (0xfb05, [0x53; 0x54])
  ; (0xfb06, [0x53; 0x54]); (0xfb13, [0x544; 0x546]); (0xfb14, [0x544; 0x535])
  ; (0xfb15, [0x544; 0x53b]); (0xfb16, [0x54e; 0x546])
  ; (0xfb17, [0x544; 0x53d]); (0xff41, [0xff21]); (0xff42, [0xff22])
  ; (0xff43, [0xff23]); (0xff44, [0xff24]); (0xff45, [0xff25])
  ; (0xff46, [0xff26]); (0xff47, [0xff27]); (0xff48, [0xff28])
  ; (0xff49, [0xff29]); (0xff4a, [0xff2a]); (0xff4b, [0xff2b])
  ; (0xff4c, [0xff2c]); (0xff4d, [0xff2d]); (0xff4e, [0xff2e])
  ; (0xff4f, [0xff2f]); (0xff50, [0xff30]); (0xff51, [0xff31])
  ; (0xff52, [0xff32]); (0xff53, [0xff33]); (0xff54, [0xff34])
  ; (0xff55, [0xff35]); (0xff56, [0xff36]); (0xff57, [0xff37])
  ; (0xff58, [0xff38]); (0xff59, [0xff39]); (0xff5a, [0xff3a])
  ; (0x10428, [0x10400]); (0x10429, [0x10401]); (0x1042a, [0x10402])
  ; (0x1042b, [0x10403]); (0x1042c, [0x10404]); (0x1042d, [0x10405])
  ; (0x1042e, [0x10406]); (0x1042f, [0x10407]); (0x10430, [0x10408])
  ; (0x10431, [0x10409]); (0x10432, [0x1040a]); (0x10433, [0x1040b])
  ; (0x10434, [0x1040c]); (0x10435, [0x1040d]); (0x10436, [0x1040e])
  ; (0x10437, [0x1040f]); (0x10438, [0x10410]); (0x10439, [0x10411])
  ; (0x1043a, [0x10412]); (0x1043b, [0x10413]); (0x1043c, [0x10414])
  ; (0x1043d, [0x10415]); (0x1043e, [0x10416]); (0x1043f, [0x10417])
  ; (0x10440, [0x10418]); (0x10441, [0x10419]); (0x10442, [0x1041a])
  ; (0x10443, [0x1041b]); (0x10444, [0x1041c]); (0x10445, [0x1041d])
  ; (0x10446, [0x1041e]); (0x10447, [0x1041f]); (0x10448, [0x10420])
  ; (0x10449, [0x10421]); (0x1044a, [0x10422]); (0x1044b, [0x10423])
  ; (0x1044c, [0x10424]); (0x1044d, [0x10425]); (0x1044e, [0x10426])
  ; (0x1044f, [0x10427]); (0x104d8, [0x104b0]); (0x104d9, [0x104b1])
  ; (0x104da, [0x104b2]); (0x104db, [0x104b3]); (0x104dc, [0x104b4])
  ; (0x104dd, [0x104b5]); (0x104de, [0x104b6]); (0x104df, [0x104b7])
  ; (0x104e0, [0x104b8]); (0x104e1, [0x104b9]); (0x104e2, [0x104ba])
  ; (0x104e3, [0x104bb]); (0x104e4, [0x104bc]); (0x104e5, [0x104bd])
  ; (0x104e6, [0x104be]); (0x104e7, [0x104bf]); (0x104e8, [0x104c0])
  ; (0x104e9, [0x104c1]); (0x104ea, [0x104c2]); (0x104eb, [0x104c3])
  ; (0x104ec, [0x104c4]); (0x104ed, [0x104c5]); (0x104ee, [0x104c6])
  ; (0x104ef, [0x104c7]); (0x104f0, [0x104c8]); (0x104f1, [0x104c9])
  ; (0x104f2, [0x104ca]); (0x104f3, [0x104cb]); (0x104f4, [0x104cc])
  ; (0x104f5, [0x104cd]); (0x104f6, [0x104ce]); (0x104f7, [0x104cf])
  ; (0x104f8, [0x104d0]); (0x104f9, [0x104d1]); (0x104fa, [0x104d2])
  ; (0x104fb, [0x104d3]); (0x10597, [0x10570]); (0x10598, [0x10571])
  ; (0x10599, [0x10572]); (0x1059a, [0x10573]); (0x1059b, [0x10574])
  ; (0x1059c, [0x10575]); (0x1059d, [0x10576]); (0x1059e, [0x10577])
  ; (0x1059f, [0x10578]); (0x105a0, [0x10579]); (0x105a1, [0x1057a])
  ; (0x105a3, [0x1057c]); (0x105a4, [0x1057d]); (0x105a5, [0x1057e])
  ; (0x105a6, [0x1057f]); (0x105a7, [0x10580]); (0x105a8, [0x10581])
  ; (0x105a9, [0x10582]); (0x105aa, [0x10583]); (0x105ab, [0x10584])
  ; (0x105ac, [0x10585]); (0x105ad, [0x10586]); (0x105ae, [0x10587])
  ; (0x105af, [0x10588]); (0x105b0, [0x10589]); (0x105b1, [0x1058a])
  ; (0x105b3, [0x1058c]); (0x105b4, [0x1058d]); (0x105b5, [0x1058e])
  ; (0x105b6, [0x1058f]); (0x105b7, [0x10590]); (0x105b8, [0x10591])
  ; (0x105b9, [0x10592]); (0x105bb, [0x10594]); (0x105bc, [0x10595])
  ; (0x10cc0, [0x10c80]); (0x10cc1, [0x10c81]); (0x10cc2, [0x10c82])
  ; (0x10cc3, [0x10c83]); (0x10cc4, [0x10c84]); (0x10cc5, [0x10c85])
  ; (0x10cc6, [0x10c86]); (0x10cc7, [0x10c87]); (0x10cc8, [0x10c88])
  ; (0x10cc9, [0x10c89]); (0x10cca, [0x10c8a]); (0x10ccb, [0x10c8b])
  ; (0x10ccc, [0x10c8c]); (0x10ccd, [0x10c8d]); (0x10cce, [0x10c8e])
  ; (0x10ccf, [0x10c8f]); (0x10cd0, [0x10c90]); (0x10cd1, [0x10c91])
  ; (0x10cd2, [0x10c92]); (0x10cd3, [0x10c93]); (0x10cd4, [0x10c94])
  ; (0x10cd5, [0x10c95]); (0x10cd6, [0x10c96]); (0x10cd7, [0x10c97])
  ; (0x10cd8, [0x10c98]); (0x10cd9, [0x10c99]); (0x10cda, [0x10c9a])
  ; (0x10cdb, [0x10c9b]); (0x10cdc, [0x10c9c]); (0x10cdd, [0x10c9d])
  ; (0x10cde, [0x10c9e]); (0x10cdf, [0x10c9f]); (0x10ce0, [0x10ca0])
  ; (0x10ce1, [0x10ca1]); (0x10ce2, [0x10ca2]); (0x10ce3, [0x10ca3])
  ; (0x10ce4, [0x10ca4]); (0x10ce5, [0x10ca5]); (0x10ce6, [0x10ca6])
  ; (0x10ce7, [0x10ca7]); (0x10ce8, [0x10ca8]); (0x10ce9, [0x10ca9])
  ; (0x10cea, [0x10caa]); (0x10ceb, [0x10cab]); (0x10cec, [0x10cac])
  ; (0x10ced, [0x10cad]); (0x10cee, [0x10cae]); (0x10cef, [0x10caf])
  ; (0x10cf0, [0x10cb0]); (0x10cf1, [0x10cb1]); (0x10cf2, [0x10cb2])
  ; (0x118c0, [0x118a0]); (0x118c1, [0x118a1]); (0x118c2, [0x118a2])
  ; (0x118c3, [0x118a3]); (0x118c4, [0x118a4]); (0x118c5, [0x118a5])
  ; (0x118c6, [0x118a6]); (0x118c7, [0x118a7]); (0x118c8, [0x118a8])
  ; (0x118c9, [0x118a9]); (0x118ca, [0x118aa]); (0x118cb, [0x118ab])
  ; (0x118cc, [0x118ac]); (0x118cd, [0x118ad]); (0x118ce, [0x118ae])
  ; (0x118cf, [0x118af]); (0x118d0, [0x118b0]); (0x118d1, [0x118b1])
  ; (0x118d2, [0x118b2]); (0x118d3, [0x118b3]); (0x118d4, [0x118b4])
  ; (0x118d5, [0x118b5]); (0x118d6, [0x118b6]); (0x118d7, [0x118b7])
  ; (0x118d8, [0x118b8]); (0x118d9, [0x118b9]); (0x118da, [0x118ba])
  ; (0x118db, [0x118bb]); (0x118dc, [0x118bc]); (0x118dd, [0x118bd])
  ; (0x118de, [0x118be]); (0x118df, [0x118bf]); (0x16e60, [0x16e40])
  ; (0x16e61, [0x16e41]); (0x16e62, [0x16e42]); (0x16e63, [0x16e43])
  ; (0x16e64, [0x16e44]); (0x16e65, [0x16e45]); (0x16e66, [0x16e46])
  ; (0x16e67, [0x16e47]); (0x16e68, [0x16e48]); (0x16e69, [0x16e49])
  ; (0x16e6a, [0x16e4a]); (0x16e6b, [0x16e4b]); (0x16e6c, [0x16e4c])
  ; (0x16e6d, [0x16e4d]); (0x16e6e, [0x16e4e]); (0x16e6f, [0x16e4f])
  ; (0x16e70, [0x16e50]); (0x16e71, [0x16e51]); (0x16e72, [0x16e52])
  ; (0x16e73, [0x16e53]); (0x16e74, [0x16e54]); (0x16e75, [0x16e55])
  ; (0x16e76, [0x16e56]); (0x16e77, [0x16e57]); (0x16e78, [0x16e58])
  ; (0x16e79, [0x16e59]); (0x16e7a, [0x16e5a]); (0x16e7b, [0x16e5b])
  ; (0x16e7c, [0x16e5c]); (0x16e7d, [0x16e5d]); (0x16e7e, [0x16e5e])
  ; (0x16e7f, [0x16e5f]); (0x1e922, [0x1e900]); (0x1e923, [0x1e901])
  ; (0x1e924, [0x1e902]); (0x1e925, [0x1e903]); (0x1e926, [0x1e904])
  ; (0x1e927, [0x1e905]); (0x1e928, [0x1e906]); (0x1e929, [0x1e907])
  ; (0x1e92a, [0x1e908]); (0x1e92b, [0x1e909]); (0x1e92c, [0x1e90a])
  ; (0x1e92d, [0x1e90b]); (0x1e92e, [0x1e90c]); (0x1e92f, [0x1e90d])
  ; (0x1e930, [0x1e90e]); (0x1e931, [0x1e90f]); (0x1e932, [0x1e910])
  ; (0x1e933, [0x1e911]); (0x1e934, [0x1e912]); (0x1e935, [0x1e913])
  ; (0x1e936, [0x1e914]); (0x1e937, [0x1e915]); (0x1e938, [0x1e916])
  ; (0x1e939, [0x1e917]); (0x1e93a, [0x1e918]); (0x1e93b, [0x1e919])
  ; (0x1e93c, [0x1e91a]); (0x1e93d, [0x1e91b]); (0x1e93e, [0x1e91c])
  ; (0x1e93f, [0x1e91d]); (0x1e940, [0x1e91e]); (0x1e941, [0x1e91f])
  ; (0x1e942, [0x1e920]); (0x1e943, [0x1e921]) ].

(** [chr(c).lower()] for every character [c] that it changes. *)
Definition lower_table : list (N * list N) :=
  [ (0x41, [0x61]); (0x42, [0x62]); (0x43, [0x63]); (0x44, [0x64])
  ; (0x45, [0x65]); (0x46, [0x66]); (0x47, [0x67]); (0x48, [0x68])
  ; (0x49, [0x69]); (0x4a, [0x6a]); (0x4b, [0x6b]); (0x4c, [0x6c])
  ; (0x4d, [0x6d]); (0x4e, [0x6e]); (0x4f, [0x6f]); (0x50, [0x70])
  ; (0x51, [0x71]); (0x52, [0x72]); (0x53, [0x73]); (0x54, [0x74])
  ; (0x55, [0x75]); (0x56, [0x76]); (0x57, [0x77]); (0x58, [0x78])
  ; (0x59, [0x79]); (0x5a, [0x7a]); (0xc0, [0xe0]); (0xc1, [0xe1])
  ; (0xc2, [0xe2]); (0xc3, [0xe3]); (0xc4, [0xe4]); (0xc5, [0xe5])
  ; (0xc6, [0xe6]); (0xc7, [0xe7]); (0xc8, [0xe8]); (0xc9, [0xe9])
  ; (0xca, [0xea]); (0xcb, [0xeb]); (0xcc, [0xec]); (0xcd, [0xed])
  ; (0xce, [0xee]); (0xcf, [0xef]); (0xd0, [0xf0]); (0xd1, [0xf1])
  ; (0xd2, [0xf2]); (0xd3, [0xf3]); (0xd4, [0xf4]); (0xd5, [0xf5])
  ; (0xd6, [0xf6]); (0xd8, [0xf8]); (0xd9, [0xf9]); (0xda, [0xfa])
  ; (0xdb, [0xfb]); (0xdc, [0xfc]); (0xdd, [0xfd]); (0xde, [0xfe])
  ; (0x100, [0x101]); (0x102, [0x103]); (0x104, [0x105]); (0x106, [0x107])
  ; (0x108, [0x109]); (0x10a, [0x10b]); (0x10c, [0x10d]); (0x10e, [0x10f])
  ; (0x110, [0x111]); (0x112, [0x113]); (0x114, [0x115]); (0x116, [0x117])
  ; (0x118, [0x119]); (0x11a, [0x11b]); (0x11c, [0x11d]); (0x11e, [0x11f])
  ; (0x120, [0x121]); (0x122, [0x123]); (0x124, [0x125]); (0x126, [0x127])
  ; (0x128, [0x129]); (0x12a, [0x12b]); (0x12c, [0x12d]); (0x12e, [0x12f])
  ; (0x130, [0x69; 0x307]); (0x132, [0x133]); (0x134, [0x135])
  ; (0x136, [0x137]); (0x139, [0x13a]); (0x13b, [0x13c]); (0x13d, [0x13e])
  ; (0x13f, [0x140]); (0x141, [0x142]); (0x143, [0x144]); (0x145, [0x146])
  ; (0x147, [0x148]); (0x14a, [0x14b]); (0x14c, [0x14d]); (0x14e, [0x14f])
  ; (0x150, [0x151]); (0x152, [0x153]); (0x154, [0x155]); (0x156, [0x157])
  ; (0x158, [0x159]); (0x15a, [0x15b]); (0x15c, [0x15d]); (0x15e, [0x15f])
  ; (0x160, [0x161]); (0x162, [0x163]); (0x164, [0x165]); (0x166, [0x167])
  ; (0x168, [0x169]); (0x16a, [0x16b]); (0x16c, [0x16d]); (0x16e, [0x16f])
  ; (0x170, [0x171]); (0x172, [0x173]); (0x174, [0x175]); (0x176, [0x177])
  ; (0x178, [0xff]); (0x179, [0x17a]); (0x17b, [0x17c]); (0x17d, [0x17e])
  ; (0x181, [0x253]); (0x182, [0x183]); (0x184, [0x185]); (0x186, [0x254])
  ; (0x187, [0x188]); (0x189, [0x256]); (0x18a, [0x257]); (0x18b, [0x18c])
  ; (0x18e, [0x1dd]); (0x18f, [0x259]); (0x190, [0x25b]); (0x191, [0x192])
  ; (0x193, [0x260]); (0x194, [0x263]); (0x196, [0x269]); (0x197, [0x268])
  ; (0x198, [0x199]); (0x19c, [0x26f]); (0x19d, [0x272]); (0x19f, [0x275])
  ; (0x1a0, [0x1a1]); (0x1a2, [0x1a3]); (0x1a4, [0x1a5]); (0x1a6, [0x280])
  ; (0x1a7, [0x1a8]); (0x1a9, [0x283]); (0x1ac, [0x1ad]); (0x1ae, [0x288])
  ; (0x1af, [0x1b0]); (0x1b1, [0x28a]); (0x1b2, [0x28b]); (0x1b3, [0x1b4])
  ; (0x1b5, [0x1b6]); (0x1b7, [0x292]); (0x1b8, [0x1b9]); (0x1bc, [0x1bd])
  ; (0x1c4, [0x1c6]); (0x1c5, [0x1c6]); (0x1c7, [0x1c9]); (0x1c8, [0x1c9])
  ; (0x1ca, [0x1cc]); (0x1cb, [0x1cc]); (0x1cd, [0x1ce]); (0x1cf, [0x1d0])
  ; (0x1d1, [0x1d2]); (0x1d3, [0x1d4]); (0x1d5, [0x1d6]); (0x1d7, [0x1d8])
  ; (0x1d9, [0x1da]); (0x1db, [0x1dc]); (0x1de, [0x1df]); (0x1e0, [0x1e1])
  ; (0x1e2, [0x1e3]); (0x1e4, [0x1e5]); (0x1e6, [0x1e7]); (0x1e8, [0x1e9])
  ; (0x1ea, [0x1eb]); (0x1ec, [0x1ed]); (0x1ee, [0x1ef]); (0x1f1, [0x1f3])
  ; (0x1f2, [0x1f3]); (0x1f4, [0x1f5]); (0x1f6, [0x195]); (0x1f7, [0x1bf])
  ; (0x1f8, [0x1f9]); (0x1fa, [0x1fb]); (0x1fc, [0x1fd]); (0x1fe, [0x1ff])
  ; (0x200, [0x201]); (0x202, [0x203]); (0x204, [0x205]); (0x206, [0x207])
  ; (0x208, [0x209]); (0x20a, [0x20b]); (0x20c, [0x20d]); (0x20e, [0x20f])
  ; (0x210, [0x211]); (0x212, [0x213]); (0x214, [0x215]); (0x216, [0x217])
  ; (0x218, [0x219]); (0x21a, [0x21b]); (0x21c, [0x21d]); (0x21e, [0x21f])
  ; (0x220, [0x19e]); (0x222, [0x223]); (0x224, [0x225]); (0x226, [0x227])
  ; (0x228, [0x229]); (0x22a, [0x22b]); (0x22c, [0x22d]); (0x22e, [0x22f])
  ; (0x230, [0x231]); (0x232, [0x233]); (0x23a, [0x2c65]); (0x23b, [0x23c])
  ; (0x23d, [0x19a]); (0x23e, [0x2c66]); (0x241, [0x242]); (0x243, [0x180])
  ; (0x244, [0x289]); (0x245, [0x28c]); (0x246, [0x247]); (0x248, [0x249])
  ; (0x24a, [0x24b]); (0x24c, [0x24d]); (0x24e, [0x24f]); (0x370, [0x371])
  ; (0x372, [0x373]); (0x376, [0x377]); (0x37f, [0x3f3]); (0x386, [0x3ac])
  ; (0x388, [0x3ad]); (0x389, [0x3ae]); (0x38a, [0x3af]); (0x38c, [0x3cc])
  ; (0x38e, [0x3cd]); (0x38f, [0x3ce]); (0x391, [0x3b1]); (0x392, [0x3b2])
  ; (0x393, [0x3b3]); (0x394, [0x3b4]); (0x395, [0x3b5]); (0x396, [0x3b6])
  ; (0x397, [0x3b7]); (0x398, [0x3b8]); (0x399, [0x3b9]); (0x39a, [0x3ba])
  ; (0x39b, [0x3bb]); (0x39c, [0x3bc]); (0x39d, [0x3bd]); (0x39e, [0x3be])
  ; (0x39f, [0x3bf]); (0x3a0, [0x3c0]); (0x3a1, [0x3c1]); (0x3a3, [0x3c3])
  ; (0x3a4, [0x3c4]); (0x3a5, [0x3c5]); (0x3a6, [0x3c6]); (0x3a7, [0x3c7])
  ; (0x3a8, [0x3c8]); (0x3a9, [0x3c9]); (0x3aa, [0x3ca]); (0x3ab, [0x3cb])
  ; (0x3cf, [0x3d7]); (0x3d8, [0x3d9]); (0x3da, [0x3db]); (0x3dc, [0x3dd])
  ; (0x3de, [0x3df]); (0x3e0, [0x3e1]); (0x3e2, [0x3e3]); (0x3e4, [0x3e5])
  ; (0x3e6, [0x3e7]); (0x3e8, [0x3e9]); (0x3ea, [0x3eb]); (0x3ec, [0x3ed])
  ; (0x3ee, [0x3ef]); (0x3f4, [0x3b8]); (0x3f7, [0x3f8]); (0x3f9, [0x3f2])
  ; (0x3fa, [0x3fb]); (0x3fd, [0x37b]); (0x3fe, [0x37c]); (0x3ff, [0x37d])
  ; (0x400, [0x450]); (0x401, [0x451]); (0x402, [0x452]); (0x403, [0x453])
  ; (0x404, [0x454]); (0x405, [0x455]); (0x406, [0x456]); (0x407, [0x457])
  ; (0x408, [0x458]); (0x409, [0x459]); (0x40a, [0x45a]); (0x40b, [0x45b])
  ; (0x40c, [0x45c]); (0x40d, [0x45d]); (0x40e, [0x45e]); (0x40f, [0x45f])
  ; (0x410, [0x430]); (0x411, [0x431]); (0x412, [0x432]); (0x413, [0x433])
  ; (0x414, [0x434]); (0x415, [0x435]); (0x416, [0x436]); (0x417, [0x437])
  ; (0x418, [0x438]); (0x419, [0x439]); (0x41a, [0x43a]); (0x41b, [0x43b])
  ; (0x41c, [0x43c]); (0x41d, [0x43d]); (0x41e, [0x43e]); (0x41f, [0x43f])
  ; (0x420, [0x440]); (0x421, [0x441]); (0x422, [0x442]); (0x423, [0x443])
  ; (0x424, [0x444]); (0x425, [0x445]); (0x426, [0x446]); (0x427, [0x447])
  ; (0x428, [0x448]); (0x429, [0x449]); (0x42a, [0x44a]); (0x42b, [0x44b])
  ; (0x42c, [0x44c]); (0x42d, [0x44d]); (0x42e, [0x44e]); (0x42f, [0x44f])
  ; (0x460, [0x461]); (0x462, [0x463]); (0x464, [0x465]); (0x466, [0x467])
  ; (0x468, [0x469]); (0x46a, [0x46b]); (0x46c, [0x46d]); (0x46e, [0x46f])
  ; (0x470, [0x471]); (0x472, [0x473]); (0x474, [0x475]); (0x476, [0x477])
  ; (0x478, [0x479]); (0x47a, [0x47b]); (0x47c, [0x47d]); (0x47e, [0x47f])
  ; (0x480, [0x481]); (0x48a, [0x48b]); (0x48c, [0x48d]); (0x48e, [0x48f])
  ; (0x490, [0x491]); (0x492, [0x493]); (0x494, [0x495]); (0x496, [0x497])
  ; (0x498, [0x499]); (0x49a, [0x49b]); (0x49c, [0x49d]); (0x49e, [0x49f])
  ; (0x4a0, [0x4a1]); (0x4a2, [0x4a3]); (0x4a4, [0x4a5]); (0x4a6, [0x4a7])
  ; (0x4a8, [0x4a9]); (0x4aa, [0x4ab]); (0x4ac, [0x4ad]); (0x4ae, [0x4af])
  ; (0x4b0, [0x4b1]); (0x4b2, [0x4b3]); (0x4b4, [0x4b5]); (0x4b6, [0x4b7])
  ; (0x4b8, [0x4b9]); (0x4ba, [0x4bb]); (0x4bc, [0x4bd]); (0x4be, [0x4bf])
  ; (0x4c0, [0x4cf]); (0x4c1, [0x4c2]); (0x4c3, [0x4c4]); (0x4c5, [0x4c6])
  ; (0x4c7, [0x4c8]); (0x4c9, [0x4ca]); (0x4cb, [0x4cc]); (0x4cd, [0x4ce])
  ; (0x4d0, [0x4d1]); (0x4d2, [0x4d3]); (0x4d4, [0x4d5]); (0x4d6, [0x4d7])
  ; (0x4d8, [0x4d9]); (0x4da, [0x4db]); (0x4dc, [0x4dd]); (0x4de, [0x4df])
  ; (0x4e0, [0x4e1]); (0x4e2, [0x4e3]); (0x4e4, [0x4e5]); (0x4e6, [0x4e7])
  ; (0x4e8, [0x4e9]); (0x4ea, [0x4eb]); (0x4ec, [0x4ed]); (0x4ee, [0x4ef])
  ; (0x4f0, [0x4f1]); (0x4f2, [0x4f3]); (0x4f4, [0x4f5]); (0x4f6, [0x4f7])
  ; (0x4f8, [0x4f9]); (0x4fa, [0x4fb]); (0x4fc, [0x4fd]); (0x4fe, [0x4ff])
  ; (0x500, [0x501]); (0x502, [0x503]); (0x504, [0x505]); (0x506, [0x507])
  ; (0x508, [0x509]); (0x50a, [0x50b]); (0x50c, [0x50d]); (0x50e, [0x50f])
  ; (0x510, [0x511]); (0x512, [0x513]); (0x514, [0x515]); (0x516, [0x517])
  ; (0x518, [0x519]); (0x51a, [0x51b]); (0x51c, [0x51d]); (0x51e, [0x51f])
  ; (0x520, [0x521]); (0x522, [0x523]); (0x524, [0x525]); (0x526, [0x527])
  ; (0x528, [0x529]); (0x52a, [0x52b]); (0x52c, [0x52d]); (0x52e, [0x52f])
  ; (0x531, [0x561]); (0x532, [0x562]); (0x533, [0x563]); (0x534, [0x564])
  ; (0x535, [0x565]); (0x536, [0x566]); (0x537, [0x567]); (0x538, [0x568])
  ; (0x539, [0x569]); (0x53a, [0x56a]); (0x53b, [0x56b]); (0x53c, [0x56c])
  ; (0x53d, [0x56d]); (0x53e, [0x56e]); (0x53f, [0x56f]); (0x540, [0x570])
  ; (0x541, [0x571]); (0x542, [0x572]); (0x543, [0x573]); (0x544, [0x574])
  ; (0x545, [0x575]); (0x546, [0x576]); (0x547, [0x577]); (0x548, [0x578])
  ; (0x549, [0x579]); (0x54a, [0x57a]); (0x54b, [0x57b]); (0x54c, [0x57c])
  ; (0x54d, [0x57d]); (0x54e, [0x57e]); (0x54f, [0x57f]); (0x550, [0x580])
  ; (0x551, [0x581]); (0x552, [0x582]); (0x553, [0x583]); (0x554, [0x584])
  ; (0x555, [0x585]); (0x556, [0x586]); (0x10a0, [0x2d00]); (0x10a1, [0x2d01])
  ; (0x10a2, [0x2d02]); (0x10a3, [0x2d03]); (0x10a4, [0x2d04])
  ; (0x10a5, [0x2d05]); (0x10a6, [0x2d06]); (0x10a7, [0x2d07])
  ; (0x10a8, [0x2d08]); (0x10a9, [0x2d09]); (0x10aa, [0x2d0a])
  ; (0x10ab, [0x2d0b]); (0x10ac, [0x2d0c]); (0x10ad, [0x2d0d])
  ; (0x10ae, [0x2d0e]); (0x10af, [0x2d0f]); (0x10b0, [0x2d10])
  ; (0x10b1, [0x2d11]); (0x10b2, [0x2d12]); (0x10b3, [0x2d13])
  ; (0x10b4, [0x2d14]); (0x10b5, [0x2d15]); (0x10b6, [0x2d16])
  ; (0x10b7, [0x2d17]); (0x10b8, [0x2d18]); (0x10b9, [0x2d19])
  ; (0x10ba, [0x2d1a]); (0x10bb, [0x2d1b]); (0x10bc, [0x2d1c])
  ; (0x10bd, [0x2d1d]); (0x10be, [0x2d1e]); (0x10bf, [0x2d1f])
  ; (0x10c0, [0x2d20]); (0x10c1, [0x2d21]); (0x10c2, [0x2d22])
  ; (0x10c3, [0x2d23]); (0x10c4, [0x2d24]); (0x10c5, [0x2d25])
  ; (0x10c7, [0x2d27]); (0x10cd, [0x2d2d]); (0x13a0, [0xab70])
  ; (0x13a1, [0xab71]); (0x13a2, [0xab72]); (0x13a3, [0xab73])
  ; (0x13a4, [0xab74]); (0x13a5, [0xab75]); (0x13a6, [0xab76])
  ; (0x13a7, [0xab77]); (0x13a8, [0xab78]); (0x13a9, [0xab79])
  ; (0x13aa, [0xab7a]); (0x13ab, [0xab7b]); (0x13ac, [0xab7c])
  ; (0x13ad, [0xab7d]); (0x13ae, [0xab7e]); (0x13af, [0xab7f])
  ; (0x13b0, [0xab80]); (0x13b1, [0xab81]); (0x13b2, [0xab82])
  ; (0x13b3, [0xab83]); (0x13b4, [0xab84]); (0x13b5, [0xab85])
  ; (0x13b6, [0xab86]); (0x13b7, [0xab87]); (0x13b8, [0xab88])
  ; (0x13b9, [0xab89]); (0x13ba, [0xab8a]); (0x13bb, [0xab8b])
  ; (0x13bc, [0xab8c]); (0x13bd, [0xab8d]); (0x13be, [0xab8e])
  ; (0x13bf, [0xab8f]); (0x13c0, [0xab90]); (0x13c1, [0xab91])
  ; (0x13c2, [0xab92]); (0x13c3, [0xab93]); (0x13c4, [0xab94])
  ; (0x13c5, [0xab95]); (0x13c6, [0xab96]); (0x13c7, [0xab97])
  ; (0x13c8, [0xab98]); (0x13c9, [0xab99]); (0x13ca, [0xab9a])
  ; (0x13cb, [0xab9b]); (0x13cc, [0xab9c]); (0x13cd, [0xab9d])
  ; (0x13ce, [0xab9e]); (0x13cf, [0xab9f]); (0x13d0, [0xaba0])
  ; (0x13d1, [0xaba1]); (0x13d2, [0xaba2]); (0x13d3, [0xaba3])
  ; (0x13d4, [0xaba4]); (0x13d5, [0xaba5]); (0x13d6, [0xaba6])
  ; (0x13d7, [0xaba7]); (0x13d8, [0xaba8]); (0x13d9, [0xaba9])
  ; (0x13da, [0xabaa]); (0x13db, [0xabab]); (0x13dc, [0xabac])
  ; (0x13dd, [0xabad]); (0x13de, [0xabae]); (0x13df, [0xabaf])
  ; (0x13e0, [0xabb0]); (0x13e1, [0xabb1]); (0x13e2, [0xabb2])
  ; (0x13e3, [0xabb3]); (0x13e4, [0xabb4]); (0x13e5, [0xabb5])
  ; (0x13e6, [0xabb6]); (0x13e7, [0xabb7]); (0x13e8, [0xabb8])
  ; (0x13e9, [0xabb9]); (0x13ea, [0xabba]); (0x13eb, [0xabbb])
  ; (0x13ec, [0xabbc]); (0x13ed, [0xabbd]); (0x13ee, [0xabbe])
  ; (0x13ef, [0xabbf]); (0x13f0, [0x13f8]); (0x13f1, [0x13f9])
  ; (0x13f2, [0x13fa]); (0x13f3, [0x13fb]); (0x13f4, [0x13fc])
  ; (0x13f5, [0x13fd]); (0x1c90, [0x10d0]); (0x1c91, [0x10d1])
  ; (0x1c92, [0x10d2]); (0x1c93, [0x10d3]); (0x1c94, [0x10d4])
  ; (0x1c95, [0x10d5]); (0x1c96, [0x10d6]); (0x1c97, [0x10d7])
  ; (0x1c98, [0x10d8]); (0x1c99, [0x10d9]); (0x1c9a, [0x10da])
  ; (0x1c9b, [0x10db]); (0x1c9c, [0x10dc]); (0x1c9d, [0x10dd])
  ; (0x1c9e, [0x10de]); (0x1c9f, [0x10df]); (0x1ca0, [0x10e0])
  ; (0x1ca1, [0x10e1]); (0x1ca2, [0x10e2]); (0x1ca3, [0x10e3])
  ; (0x1ca4, [0x10e4]); (0x1ca5, [0x10e5]); (0x1ca6, [0x10e6])
  ; (0x1ca7, [0x10e7]); (0x1ca8, [0x10e8]); (0x1ca9, [0x10e9])
  ; (0x1caa, [0x10ea]); (0x1cab, [0x10eb]); (0x1cac, [0x10ec])
  ; (0x1cad, [0x10ed]); (0x1cae, [0x10ee]); (0x1caf, [0x10ef])
  ; (0x1cb0, [0x10f0]); (0x1cb1, [0x10f1]); (0x1cb2, [0x10f2])
  ; (0x1cb3, [0x10f3]); (0x1cb4, [0x10f4]); (0x1cb5, [0x10f5])
  ; (0x1cb6, [0x10f6]); (0x1cb7, [0x10f7]); (0x1cb8, [0x10f8])
  ; (0x1cb9, [0x10f9]); (0x1cba, [0x10fa]); (0x1cbd, [0x10fd])
  ; (0x1cbe, [0x10fe]); (0x1cbf, [0x10ff]); (0x1e00, [0x1e01])
  ; (0x1e02, [0x1e03]); (0x1e04, [0x1e05]); (0x1e06, [0x1e07])
  ; (0x1e08, [0x1e09]); (0x1e0a, [0x1e0b]); (0x1e0c, [0x1e0d])
  ; (0x1e0e, [0x1e0f]); (0x1e10, [0x1e11]); (0x1e12, [0x1e13])
  ; (0x1e14, [0x1e15]); (0x1e16, [0x1e17]); (0x1e18, [0x1e19])
  ; (0x1e1a, [0x1e1b]); (0x1e1c, [0x1e1d]); (0x1e1e, [0x1e1f])
  ; (0x1e20, [0x1e21]); (0x1e22, [0x1e23]); (0x1e24, [0x1e25])
  ; (0x1e26, [0x1e27]); (0x1e28, [0x1e29]); (0x1e2a, [0x1e2b])
  ; (0x1e2c, [0x1e2d]); (0x1e2e, [0x1e2f]); (0x1e30, [0x1e31])
  ; (0x1e32, [0x1e33]); (0x1e34, [0x1e35]); (0x1e36, [0x1e37])
  ; (0x1e38, [0x1e39]); (0x1e3a, [0x1e3b]); (0x1e3c, [0x1e3d])
  ; (0x1e3e, [0x1e3f]); (0x1e40, [0x1e41]); (0x1e42, [0x1e43])
  ; (0x1e44, [0x1e45]); (0x1e46, [0x1e47]); (0x1e48, [0x1e49])
  ; (0x1e4a, [0x1e4b]); (0x1e4c, [0x1e4d]); (0x1e4e, [0x1e4f])
  ; (0x1e50, [0x1e51]); (0x1e52, [0x1e53]); (0x1e54, [0x1e55])
  ; (0x1e56, [0x1e57]); (0x1e58, [0x1e59]); (0x1e5a, [0x1e5b])
  ; (0x1e5c, [0x1e5d]); (0x1e5e, [0x1e5f]); (0x1e60, [0x1e61])
  ; (0x1e62, [0x1e63]); (0x1e64, [0x1e65]); (0x1e66, [0x1e67])
  ; (0x1e68, [0x1e69]); (0x1e6a, [0x1e6b]); (0x1e6c, [0x1e6d])
  ; (0x1e6e, [0x1e6f]); (0x1e70, [0x1e71]); (0x1e72, [0x1e73])
  ; (0x1e74, [0x1e75]); (0x1e76, [0x1e77]); (0x1e78, [0x1e79])
  ; (0x1e7a, [0x1e7b]); (0x1e7c, [0x1e7d]); (0x1e7e, [0x1e7f])
  ; (0x1e80, [0x1e81]); (0x1e82, [0x1e83]); (0x1e84, [0x1e85])
  ; (0x1e86, [0x1e87]); (0x1e88, [0x1e89]); (0x1e8a, [0x1e8b])
  ; (0x1e8c, [0x1e8d]); (0x1e8e, [0x1e8f]); (0x1e90, [0x1e91])
  ; (0x1e92, [0x1e93]); (0x1e94, [0x1e95]); (0x1e9e, [0xdf])
  ; (0x1ea0, [0x1ea1]); (0x1ea2, [0x1ea3]); (0x1ea4, [0x1ea5])
  ; (0x1ea6, [0x1ea7]); (0x1ea8, [0x1ea9]); (0x1eaa, [0x1eab])
  ; (0x1eac, [0x1ead]); (0x1eae, [0x1eaf]); (0x1eb0, [0x1eb1])
  ; (0x1eb2, [0x1eb3]); (0x1eb4, [0x1eb5]); (0x1eb6, [0x1eb7])
  ; (0x1eb8, [0x1eb9]); (0x1eba, [0x1ebb]); (0x1ebc, [0x1ebd])
  ; (0x1ebe, [0x1ebf]); (0x1ec0, [0x1ec1]); (0x1ec2, [0x1ec3])
  ; (0x1ec4, [0x1ec5]); (0x1ec6, [0x1ec7]); (0x1ec8, [0x1ec9])
  ; (0x1eca, [0x1ecb]); (0x1ecc, [0x1ecd]); (0x1ece, [0x1ecf])
  ; (0x1ed0, [0x1ed1]); (0x1ed2, [0x1ed3]); (0x1ed4, [0x1ed5])
  ; (0x1ed6, [0x1ed7]); (0x1ed8, [0x1ed9]); (0x1eda, [0x1edb])
  ; (0x1edc, [0x1edd]); (0x1ede, [0x1edf]); (0x1ee0, [0x1ee1])
  ; (0x1ee2, [0x1ee3]); (0x1ee4, [0x1ee5]); (0x1ee6, [0x1ee7])
  ; (0x1ee8, [0x1ee9]); (0x1eea, [0x1eeb]); (0x1eec, [0x1eed])
  ; (0x1eee, [0x1eef]); (0x1ef0, [0x1ef1]); (0x1ef2, [0x1ef3])
  ; (0x1ef4, [0x1ef5]); (0x1ef6, [0x1ef7]); (0x1ef8, [0x1ef9])
  ; (0x1efa, [0x1efb]); (0x1efc, [0x1efd]); (0x1efe, [0x1eff])
  ; (0x1f08, [0x1f00]); (0x1f09, [0x1f01]); (0x1f0a, [0x1f02])
  ; (0x1f0b, [0x1f03]); (0x1f0c, [0x1f04]); (0x1f0d, [0x1f05])
  ; (0x1f0e, [0x1f06]); (0x1f0f, [0x1f07]); (0x1f18, [0x1f10])
  ; (0x1f19, [0x1f11]); (0x1f1a, [0x1f12]); (0x1f1b, [0x1f13])
  ; (0x1f1c, [0x1f14]); (0x1f1d, [0x1f15]); (0x1f28, [0x1f20])
  ; (0x1f29, [0x1f21]); (0x1f2a, [0x1f22]); (0x1f2b, [0x1f23])
  ; (0x1f2c, [0x1f24]); (0x1f2d, [0x1f25]); (0x1f2e, [0x1f26])
  ; (0x1f2f, [0x1f27]); (0x1f38, [0x1f30]); (0x1f39, [0x1f31])
  ; (0x1f3a, [0x1f32]); (0x1f3b, [0x1f33]); (0x1f3c, [0x1f34])
  ; (0x1f3d, [0x1f35]); (0x1f3e, [0x1f36]); (0x1f3f, [0x1f37])
  ; (0x1f48, [0x1f40]); (0x1f49, [0x1f41]); (0x1f4a, [0x1f42])
  ; (0x1f4b, [0x1f43]); (0x1f4c, [0x1f44]); (0x1f4d, [0x1f45])
  ; (0x1f59, [0x1f51]); (0x1f5b, [0x1f53]); (0x1f5d, [0x1f55])
  ; (0x1f5f, [0x1f57]); (0x1f68, [0x1f60]); (0x1f69, [0x1f61])
  ; (0x1f6a, [0x1f62]); (0x1f6b, [0x1f63]); (0x1f6c, [0x1f64])
  ; (0x1f6d, [0x1f65]); (0x1f6e, [0x1f66]); (0x1f6f, [0x1f67])
  ; (0x1f88, [0x1f80]); (0x1f89, [0x1f81]); (0x1f8a, [0x1f82])
  ; (0x1f8b, [0x1f83]); (0x1f8c, [0x1f84]); (0x1f8d, [0x1f85])
  ; (0x1f8e, [0x1f86]); (0x1f8f, [0x1f87]); (0x1f98, [0x1f90])
  ; (0x1f99, [0x1f91]); (0x1f9a, [0x1f92]); (0x1f9b, [0x1f93])
  ; (0x1f9c, [0x1f94]); (0x1f9d, [0x1f95]); (0x1f9e, [0x1f96])
  ; (0x1f9f, [0x1f97]); (0x1fa8, [0x1fa0]); (0x1fa9, [0x1fa1])
  ; (0x1faa, [0x1fa2]); (0x1fab, [0x1fa3]); (0x1fac, [0x1fa4])
  ; (0x1fad, [0x1fa5]); (0x1fae, [0x1fa6]); (0x1faf, [0x1fa7])
  ; (0x1fb8, [0x1fb0]); (0x1fb9, [0x1fb1]); (0x1fba, [0x1f70])
  ; (0x1fbb, [0x1f71]); (0x1fbc, [0x1fb3]); (0x1fc8, [0x1f72])
  ; (0x1fc9, [0x1f73]); (0x1fca, [0x1f74]); (0x1fcb, [0x1f75])
  ; (0x1fcc, [0x1fc3]); (0x1fd8, [0x1fd0]); (0x1fd9, [0x1fd1])
  ; (0x1fda, [0x1f76]); (0x1fdb, [0x1f77]); (0x1fe8, [0x1fe0])
  ; (0x1fe9, [0x1fe1]); (0x1fea, [0x1f7a]); (0x1feb, [0x1f7b])
  ; (0x1fec, [0x1fe5]); (0x1ff8, [0x1f78]); (0x1ff9, [0x1f79])
  ; (0x1ffa, [0x1f7c]); (0x1ffb, [0x1f7d]); (0x1ffc, [0x1ff3])
  ; (0x2126, [0x3c9]); (0x212a, [0x6b]); (0x212b, [0xe5]); (0x2132, [0x214e])
  ; (0x2160, [0x2170]); (0x2161, [0x2171]); (0x2162, [0x2172])
  ; (0x2163, [0x2173]); (0x2164, [0x2174]); (0x2165, [0x2175])
  ; (0x2166, [0x2176]); (0x2167, [0x2177]); (0x2168, [0x2178])
  ; (0x2169, [0x2179]); (0x216a, [0x217a]); (0x216b, [0x217b])
  ; (0x216c, [0x217c]); (0x216d, [0x217d]); (0x216e, [0x217e])
  ; (0x216f, [0x217f]); (0x2183, [0x2184]); (0x24b6, [0x24d0])
  ; (0x24b7, [0x24d1]); (0x24b8, [0x24d2]); (0x24b9, [0x24d3])
  ; (0x24ba, [0x24d4]); (0x24bb, [0x24d5]); (0x24bc, [0x24d6])
  ; (0x24bd, [0x24d7]); (0x24be, [0x24d8]); (0x24bf, [0x24d9])
  ; (0x24c0, [0x24da]); (0x24c1, [0x24db]); (0x24c2, [0x24dc])
  ; (0x24c3, [0x24dd]); (0x24c4, [0x24de]); (0x24c5, [0x24df])
  ; (0x24c6, [0x24e0]); (0x24c7, [0x24e1]); (0x24c8, [0x24e2])
  ; (0x24c9, [0x24e3]); (0x24ca, [0x24e4]); (0x24cb, [0x24e5])
  ; (0x24cc, [0x24e6]); (0x24cd, [0x24e7]); (0x24ce, [0x24e8])
  ; (0x24cf, [0x24e9]); (0x2c00, [0x2c30]); (0x2c01, [0x2c31])
  ; (0x2c02, [0x2c32]); (0x2c03, [0x2c33]); (0x2c04, [0x2c34])
  ; (0x2c05, [0x2c35]); (0x2c06, [0x2c36]); (0x2c07, [0x2c37])
  ; (0x2c08, [0x2c38]); (0x2c09, [0x2c39]); (0x2c0a, [0x2c3a])
  ; (0x2c0b, [0x2c3b]); (0x2c0c, [0x2c3c]); (0x2c0d, [0x2c3d])
  ; (0x2c0e, [0x2c3e]); (0x2c0f, [0x2c3f]); (0x2c10, [0x2c40])
  ; (0x2c11, [0x2c41]); (0x2c12, [0x2c42]); (0x2c13, [0x2c43])
  ; (0x2c14, [0x2c44]); (0x2c15, [0x2c45]); (0x2c16, [0x2c46])
  ; (0x2c17, [0x2c47]); (0x2c18, [0x2c48]); (0x2c19, [0x2c49])
  ; (0x2c1a, [0x2c4a]); (0x2c1b, [0x2c4b]); (0x2c1c, [0x2c4c])
  ; (0x2c1d, [0x2c4d]); (0x2c1e, [0x2c4e]); (0x2c1f, [0x2c4f])
  ; (0x2c20, [0x2c50]); (0x2c21, [0x2c51]); (0x2c22, [0x2c52])
  ; (0x2c23, [0x2c53]); (0x2c24, [0x2c54]); (0x2c25, [0x2c55])
  ; (0x2c26, [0x2c56]); (0x2c27, [0x2c57]); (0x2c28, [0x2c58])
  ; (0x2c29, [0x2c59]); (0x2c2a, [0x2c5a]); (0x2c2b, [0x2c5b])
  ; (0x2c2c, [0x2c5c]); (0x2c2d, [0x2c5d]); (0x2c2e, [0x2c5e])
  ; (0x2c2f, [0x2c5f]); (0x2c60, [0x2c61]); (0x2c62, [0x26b])
  ; (0x2c63, [0x1d7d]); (0x2c64, [0x27d]); (0x2c67, [0x2c68])
  ; (0x2c69, [0x2c6a]); (0x2c6b, [0x2c6c]); (0x2c6d, [0x251])
  ; (0x2c6e, [0x271]); (0x2c6f, [0x250]); (0x2c70, [0x252])
  ; (0x2c72, [0x2c73]); (0x2c75, [0x2c76]); (0x2c7e, [0x23f])
  ; (0x2c7f, [0x240]); (0x2c80, [0x2c81]); (0x2c82, [0x2c83])
  ; (0x2c84, [0x2c85]); (0x2c86, [0x2c87]); (0x2c88, [0x2c89])
  ; (0x2c8a, [0x2c8b]); (0x2c8c, [0x2c8d]); (0x2c8e, [0x2c8f])
  ; (0x2c90, [0x2c91]); (0x2c92, [0x2c93]); (0x2c94, [0x2c95])
  ; (0x2c96, [0x2c97]); (0x2c98, [0x2c99]); (0x2c9a, [0x2c9b])
  ; (0x2c9c, [0x2c9d]); (0x2c9e, [0x2c9f]); (0x2ca0, [0x2ca1])
  ; (0x2ca2, [0x2ca3]); (0x2ca4, [0x2ca5]); (0x2ca6, [0x2ca7])
  ; (0x2ca8, [0x2ca9]); (0x2caa, [0x2cab]); (0x2cac, [0x2cad])
  ; (0x2cae, [0x2caf]); (0x2cb0, [0x2cb1]); (0x2cb2, [0x2cb3])
  ; (0x2cb4, [0x2cb5]); (0x2cb6, [0x2cb7]); (0x2cb8, [0x2cb9])
  ; (0x2cba, [0x2cbb]); (0x2cbc, [0x2cbd]); (0x2cbe, [0x2cbf])
  ; (0x2cc0, [0x2cc1]); (0x2cc2, [0x2cc3]); (0x2cc4, [0x2cc5])
  ; (0x2cc6, [0x2cc7]); (0x2cc8, [0x2cc9]); (0x2cca, [0x2ccb])
  ; (0x2ccc, [0x2ccd]); (0x2cce, [0x2ccf]); (0x2cd0, [0x2cd1])
  ; (0x2cd2, [0x2cd3]); (0x2cd4, [0x2cd5]); (0x2cd6, [0x2cd7])
  ; (0x2cd8, [0x2cd9]); (0x2cda, [0x2cdb]); (0x2cdc, [0x2cdd])
  ; (0x2cde, [0x2cdf]); (0x2ce0, [0x2ce1]); (0x2ce2, [0x2ce3])
  ; (0x2ceb, [0x2cec]); (0x2ced, [0x2cee]); (0x2cf2, [0x2cf3])
  ; (0xa640, [0xa641]); (0xa642, [0xa643]); (0xa644, [0xa645])
  ; (0xa646, [0xa647]); (0xa648, [0xa649]); (0xa64a, [0xa64b])
  ; (0xa64c, [0xa64d]); (0xa64e, [0xa64f]); (0xa650, [0xa651])
  ; (0xa652, [0xa653]); (0xa654, [0xa655]); (0xa656, [0xa657])
  ; (0xa658, [0xa659]); (0xa65a, [0xa65b]); (0xa65c, [0xa65d])
  ; (0xa65e, [0xa65f]); (0xa660, [0xa661]); (0xa662, [0xa663])
  ; (0xa664, [0xa665]); (0xa666, [0xa667]); (0xa668, [0xa669])
  ; (0xa66a, [0xa66b]); (0xa66c, [0xa66d]); (0xa680, [0xa681])
  ; (0xa682, [0xa683]); (0xa684, [0xa685]); (0xa686, [0xa687])
  ; (0xa688, [0xa689]); (0xa68a, [0xa68b]); (0xa68c, [0xa68d])
  ; (0xa68e, [0xa68f]); (0xa690, [0xa691]); (0xa692, [0xa693])
  ; (0xa694, [0xa695]); (0xa696, [0xa697]); (0xa698, [0xa699])
  ; (0xa69a, [0xa69b]); (0xa722, [0xa723]); (0xa724, [0xa725])
  ; (0xa726, [0xa727]); (0xa728, [0xa729]); (0xa72a, [0xa72b])
  ; (0xa72c, [0xa72d]); (0xa72e, [0xa72f]); (0xa732, [0xa733])
  ; (0xa734, [0xa735]); (0xa736, [0xa737]); (0xa738, [0xa739])
  ; (0xa73a, [0xa73b]); (0xa73c, [0xa73d]); (0xa73e, [0xa73f])
  ; (0xa740, [0xa741]); (0xa742, [0xa743]); (0xa744, [0xa745])
  ; (0xa746, [0xa747]); (0xa748, [0xa749]); (0xa74a, [0xa74b])
  ; (0xa74c, [0xa74d]); (0xa74e, [0xa74f]); (0xa750, [0xa751])
  ; (0xa752, [0xa753]); (0xa754, [0xa755]); (0xa756, [0xa757])
  ; (0xa758, [0xa759]); (0xa75a, [0xa75b]); (0xa75c, [0xa75d])
  ; (0xa75e, [0xa75f]); (0xa760, [0xa761]); (0xa762, [0xa763])
  ; (0xa764, [0xa765]); (0xa766, [0xa767]); (0xa768, [0xa769])
  ; (0xa76a, [0xa76b]); (0xa76c, [0xa76d]); (0xa76e, [0xa76f])
  ; (0xa779, [0xa77a]); (0xa77b, [0xa77c]); (0xa77d, [0x1d79])
  ; (0xa77e, [0xa77f]); (0xa780, [0xa781]); (0xa782, [0xa783])
  ; (0xa784, [0xa785]); (0xa786, [0xa787]); (0xa78b, [0xa78c])
  ; (0xa78d, [0x265]); (0xa790, [0xa791]); (0xa792, [0xa793])
  ; (0xa796, [0xa797]); (0xa798, [0xa799]); (0xa79a, [0xa79b])
  ; (0xa79c, [0xa79d]); (0xa79e, [0xa79f]); (0xa7a0, [0xa7a1])
  ; (0xa7a2, [0xa7a3]); (0xa7a4, [0xa7a5]); (0xa7a6, [0xa7a7])
  ; (0xa7a8, [0xa7a9]); (0xa7aa, [0x266]); (0xa7ab, [0x25c])
  ; (0xa7ac, [0x261]); (0xa7ad, [0x26c]); (0xa7ae, [0x26a]); (0xa7b0, [0x29e])
  ; (0xa7b1, [0x287]); (0xa7b2, [0x29d]); (0xa7b3, [0xab53])
  ; (0xa7b4, [0xa7b5]); (0xa7b6, [0xa7b7]); (0xa7b8, [0xa7b9])
  ; (0xa7ba, [0xa7bb]); (0xa7bc, [0xa7bd]); (0xa7be, [0xa7bf])
  ; (0xa7c0, [0xa7c1]); (0xa7c2, [0xa7c3]); (0xa7c4, [0xa794])
  ; (0xa7c5, [0x282]); (0xa7c6, [0x1d8e]); (0xa7c7, [0xa7c8])
  ; (0xa7c9, [0xa7ca]); (0xa7d0, [0xa7d1]); (0xa7d6, [0xa7d7])
  ; (0xa7d8, [0xa7d9]); (0xa7f5, [0xa7f6]); (0xff21, [0xff41])
  ; (0xff22, [0xff42]); (0xff23, [0xff43]); (0xff24, [0xff44])
  ; (0xff25, [0xff45]); (0xff26, [0xff46]); (0xff27, [0xff47])
  ; (0xff28, [0xff48]); (0xff29, [0xff49]); (0xff2a, [0xff4a])
  ; (0xff2b, [0xff4b]); (0xff2c, [0xff4c]); (0xff2d, [0xff4d])
  ; (0xff2e, [0xff4e]); (0xff2f, [0xff4f]); (0xff30, [0xff50])
  ; (0xff31, [0xff51]); (0xff32, [0xff52]); (0xff33, [0xff53])
  ; (0xff34, [0xff54]); (0xff35, [0xff55]); (0xff36, [0xff56])
  ; (0xff37, [0xff57]); (0xff38, [0xff58]); (0xff39, [0xff59])
  ; (0xff3a, [0xff5a]); (0x10400, [0x10428]); (0x10401, [0x10429])
  ; (0x10402, [0x1042a]); (0x10403, [0x1042b]); (0x10404, [0x1042c])
  ; (0x10405, [0x1042d]); (0x10406, [0x1042e]); (0x10407, [0x1042f])
  ; (0x10408, [0x10430]); (0x10409, [0x10431]); (0x1040a, [0x10432])
  ; (0x1040b, [0x10433]); (0x1040c, [0x10434]); (0x1040d, [0x10435])
  ; (0x1040e, [0x10436]); (0x1040f, [0x10437]); (0x10410, [0x10438])
  ; (0x10411, [0x10439]); (0x10412, [0x1043a]); (0x10413, [0x1043b])
  ; (0x10414, [0x1043c]); (0x10415, [0x1043d]); (0x10416, [0x1043e])
  ; (0x10417, [0x1043f]); (0x10418, [0x10440]); (0x10419, [0x10441])
  ; (0x1041a, [0x10442]); (0x1041b, [0x10443]); (0x1041c, [0x10444])
  ; (0x1041d, [0x10445]); (0x1041e, [0x10446]); (0x1041f, [0x10447])
  ; (0x10420, [0x10448]); (0x10421, [0x10449]); (0x10422, [0x1044a])
  ; (0x10423, [0x1044b]); (0x10424, [0x1044c]); (0x10425, [0x1044d])
  ; (0x10426, [0x1044e]); (0x10427, [0x1044f]); (0x104b0, [0x104d8])
  ; (0x104b1, [0x104d9]); (0x104b2, [0x104da]); (0x104b3, [0x104db])
  ; (0x104b4, [0x104dc]); (0x104b5, [0x104dd]); (0x104b6, [0x104de])
  ; (0x104b7, [0x104df]); (0x104b8, [0x104e0]); (0x104b9, [0x104e1])
  ; (0x104ba, [0x104e2]); (0x104bb, [0x104e3]); (0x104bc, [0x104e4])
  ; (0x104bd, [0x104e5]); (0x104be, [0x104e6]); (0x104bf, [0x104e7])
  ; (0x104c0, [0x104e8]); (0x104c1, [0x104e9]); (0x104c2, [0x104ea])
  ; (0x104c3, [0x104eb]); (0x104c4, [0x104ec]); (0x104c5, [0x104ed])
  ; (0x104c6, [0x104ee]); (0x104c7, [0x104ef]); (0x104c8, [0x104f0])
  ; (0x104c9, [0x104f1]); (0x104ca, [0x104f2]); (0x104cb, [0x104f3])
  ; (0x104cc, [0x104f4]); (0x104cd, [0x104f5]); (0x104ce, [0x104f6])
  ; (0x104cf, [0x104f7]); (0x104d0, [0x104f8]); (0x104d1, [0x104f9])
  ; (0x104d2, [0x104fa]); (0x104d3, [0x104fb]); (0x10570, [0x10597])
  ; (0x10571, [0x10598]); (0x10572, [0x10599]); (0x10573, [0x1059a])
  ; (0x10574, [0x1059b]); (0x10575, [0x1059c]); (0x10576, [0x1059d])
  ; (0x10577, [0x1059e]); (0x10578, [0x1059f]); (0x10579, [0x105a0])
  ; (0x1057a, [0x105a1]); (0x1057c, [0x105a3]); (0x1057d, [0x105a4])
  ; (0x1057e, [0x105a5]); (0x1057f, [0x105a6]); (0x10580, [0x105a7])
  ; (0x10581, [0x105a8]); (0x10582, [0x105a9]); (0x10583, [0x105aa])
  ; (0x10584, [0x105ab]); (0x10585, [0x105ac]); (0x10586, [0x105ad])
  ; (0x10587, [0x105ae]); (0x10588, [0x105af]); (0x10589, [0x105b0])
  ; (0x1058a, [0x105b1]); (0x1058c, [0x105b3]); (0x1058d, [0x105b4])
  ; (0x1058e, [0x105b5]); (0x1058f, [0x105b6]); (0x10590, [0x105b7])
  ; (0x10591, [0x105b8]); (0x10592, [0x105b9]); (0x10594, [0x105bb])
  ; (0x10595, [0x105bc]); (0x10c80, [0x10cc0]); (0x10c81, [0x10cc1])
  ; (0x10c82, [0x10cc2]); (0x10c83, [0x10cc3]); (0x10c84, [0x10cc4])
  ; (0x10c85, [0x10cc5]); (0x10c86, [0x10cc6]); (0x10c87, [0x10cc7])
  ; (0x10c88, [0x10cc8]); (0x10c89, [0x10cc9]); (0x10c8a, [0x10cca])
  ; (0x10c8b, [0x10ccb]); (0x10c8c, [0x10ccc]); (0x10c8d, [0x10ccd])
  ; (0x10c8e, [0x10cce]); (0x10c8f, [0x10ccf]); (0x10c90, [0x10cd0])
  ; (0x10c91, [0x10cd1]); (0x10c92, [0x10cd2]); (0x10c93, [0x10cd3])
  ; (0x10c94, [0x10cd4]); (0x10c95, [0x10cd5]); (0x10c96, [0x10cd6])
  ; (0x10c97, [0x10cd7]); (0x10c98, [0x10cd8]); (0x10c99, [0x10cd9])
  ; (0x10c9a, [0x10cda]); (0x10c9b, [0x10cdb]); (0x10c9c, [0x10cdc])
  ; (0x10c9d, [0x10cdd]); (0x10c9e, [0x10cde]); (0x10c9f, [0x10cdf])
  ; (0x10ca0, [0x10ce0]); (0x10ca1, [0x10ce1]); (0x10ca2, [0x10ce2])
  ; (0x10ca3, [0x10ce3]); (0x10ca4, [0x10ce4]); (0x10ca5, [0x10ce5])
  ; (0x10ca6, [0x10ce6]); (0x10ca7, [0x10ce7]); (0x10ca8, [0x10ce8])
  ; (0x10ca9, [0x10ce9]); (0x10caa, [0x10cea]); (0x10cab, [0x10ceb])
  ; (0x10cac, [0x10cec]); (0x10cad, [0x10ced]); (0x10cae, [0x10cee])
  ; (0x10caf, [0x10cef]); (0x10cb0, [0x10cf0]); (0x10cb1, [0x10cf1])
  ; (0x10cb2, [0x10cf2]); (0x118a0, [0x118c0]); (0x118a1, [0x118c1])
  ; (0x118a2, [0x118c2]); (0x118a3, [0x118c3]); (0x118a4, [0x118c4])
  ; (0x118a5, [0x118c5]); (0x118a6, [0x118c6]); (0x118a7, [0x118c7])
  ; (0x118a8, [0x118c8]); (0x118a9, [0x118c9]); (0x118aa, [0x118ca])
  ; (0x118ab, [0x118cb]); (0x118ac, [0x118cc]); (0x118ad, [0x118cd])
  ; (0x118ae, [0x118ce]); (0x118af, [0x118cf]); (0x118b0, [0x118d0])
  ; (0x118b1, [0x118d1]); (0x118b2, [0x118d2]); (0x118b3, [0x118d3])
  ; (0x118b4, [0x118d4]); (0x118b5, [0x118d5]); (0x118b6, [0x118d6])
  ; (0x118b7, [0x118d7]); (0x118b8, [0x118d8]); (0x118b9, [0x118d9])
  ; (0x118ba, [0x118da]); (0x118bb, [0x118db]); (0x118bc, [0x118dc])
  ; (0x118bd, [0x118dd]); (0x118be, [0x118de]); (0x118bf, [0x118df])
  ; (0x16e40, [0x16e60]); (0x16e41, [0x16e61]); (0x16e42, [0x16e62])
  ; (0x16e43, [0x16e63]); (0x16e44, [0x16e64]); (0x16e45, [0x16e65])
  ; (0x16e46, [0x16e66]); (0x16e47, [0x16e67]); (0x16e48, [0x16e68])
  ; (0x16e49, [0x16e69]); (0x16e4a, [0x16e6a]); (0x16e4b, [0x16e6b])
  ; (0x16e4c, [0x16e6c]); (0x16e4d, [0x16e6d]); (0x16e4e, [0x16e6e])
  ; (0x16e4f, [0x16e6f]); (0x16e50, [0x16e70]); (0x16e51, [0x16e71])
  ; (0x16e52, [0x16e72]); (0x16e53, [0x16e73]); (0x16e54, [0x16e74])
  ; (0x16e55, [0x16e75]); (0x16e56, [0x16e76]); (0x16e57, [0x16e77])
  ; (0x16e58, [0x16e78]); (0x16e59, [0x16e79]); (0x16e5a, [0x16e7a])
  ; (0x16e5b, [0x16e7b]); (0x16e5c, [0x16e7c]); (0x16e5d, [0x16e7d])
  ; (0x16e5e, [0x16e7e]); (0x16e5f, [0x16e7f]); (0x1e900, [0x1e922])
  ; (0x1e901, [0x1e923]); (0x1e902, [0x1e924]); (0x1e903, [0x1e925])
  ; (0x1e904, [0x1e926]); (0x1e905, [0x1e927]); (0x1e906, [0x1e928])
  ; (0x1e907, [0x1e929]); (0x1e908, [0x1e92a]); (0x1e909, [0x1e92b])
  ; (0x1e90a, [0x1e92c]); (0x1e90b, [0x1e92d]); (0x1e90c, [0x1e92e])
  ; (0x1e90d, [0x1e92f]); (0x1e90e, [0x1e930]); (0x1e90f, [0x1e931])
  ; (0x1e910, [0x1e932]); (0x1e911, [0x1e933]); (0x1e912, [0x1e934])
  ; (0x1e913, [0x1e935]); (0x1e914, [0x1e936]); (0x1e915, [0x1e937])
  ; (0x1e916, [0x1e938]); (0x1e917, [0x1e939]); (0x1e918, [0x1e93a])
  ; (0x1e919, [0x1e93b]); (0x1e91a, [0x1e93c]); (0x1e91b, [0x1e93d])
  ; (0x1e91c, [0x1e93e]); (0x1e91d, [0x1e93f]); (0x1e91e, [0x1e940])
  ; (0x1e91f, [0x1e941]); (0x1e920, [0x1e942]); (0x1e921, [0x1e943]) ].

Fixpoint case_lookup (table : list (N * list N)) (c : N) : option (list N) :=
  match table with
  | [] => None
  | (k, v) :: rest => if k =? c then Some v else case_lookup rest c
  end.

Definition upper_char (c : N) : list N :=
  default [c] (case_lookup upper_table c).

Definition lower_char (c : N) : list N :=
  default [c] (case_lookup lower_table c).

(** [s[i:i+1]]: the string of the character at [i], empty past the end
    of [s].  It is kept as that character, if any. *)
Definition slice1 (s : list N) (i : nat) : option N := s !! i.

(** [.upper()] and [.lower()] of such a slice.  On a single character
    both are the full case mapping of that character: the one rule of
    Python that looks at the neighbours of a character, the final sigma
    of [lower], needs a cased character before it. *)
Definition upper (o : option N) : list N :=
  match o with Some c => upper_char c | None => [] end.

Definition lower (o : option N) : list N :=
  match o with Some c => lower_char c | None => [] end.

Fixpoint is_prefix (sub s : list N) : bool :=
  match sub, s with
  | [], _ => true
  | _ :: _, [] => false
  | a :: sub', b :: s' => (a =? b) && is_prefix sub' s'
  end.

Fixpoint find_from (s sub : list N) (i : Z) : Z :=
  if is_prefix sub s then i
  else match s with
       | [] => (-1)%Z
       | _ :: rest => find_from rest sub (i + 1)%Z
       end.

(** [s.find(sub)]: the lowest index of [sub] in [s], or -1. *)
Definition find (s sub : list N) : Z := find_from s sub 0.

Definition ROWS : list N := of_string "ABCDEFGHIJKLMNOPQRSTUVWXYZ".
Definition COLS : list N := of_string "0123456789abcdef".

Module Coord.

Definition from_string (s : list N) : option Coord.t :=
  let s := remove_separators (strip s) in
  if (length s =? 2)%nat then
    Some (Coord.mk (find ROWS (upper (slice1 s 0)))
                   (find COLS (lower (slice1 s 1))))
  else None.

End Coord.

Module CoordPair.

Definition from_string (s : list N) : option CoordPair.t :=
  let s := remove_separators (strip s) in
  if (length s =? 4)%nat then
    Some (CoordPair.mk
            (Coord.mk (find ROWS (upper (slice1 s 0)))
                      (find COLS (lower (slice1 s 1))))
            (Coord.mk (find ROWS (upper (slice1 s 2)))
                      (find COLS (lower (slice1 s 3)))))
  else None.

End CoordPair.

End Unicode.

(** ** Options *)

Module Options.

(** [max_time] (a float compared with the wall clock) and the fields
    no rule reads ([min_depth], [randomize_moves], [broker]) are left
    out; the outcome of each time-budget test is an input of the
    search model below. *)
Record t := mk {
  dim : Z;
  max_depth : nat;
  game_type : GameType;
  alpha_beta : bool;
  max_turns : option Z
}.

Definition default : t := mk 5 4 AttackerVsDefender true (Some 100).

End Options.

(** ** Game state and rules *)

Module Game.

Record t := mk {
  board : list (list (option Unit.t));
  next_player : Player;
  turns_played : Z;
  options : Options.t;
  _attacker_has_ai : bool;
  _defender_has_ai : bool
}.

Definition with_board (self : t) (b : list (list (option Unit.t))) : t :=
  mk b (next_player self) (turns_played self) (options self)
     (_attacker_has_ai self) (_defender_has_ai self).

Definition is_valid_coord (self : t) (coord : Coord.t) : bool :=
  let dim := Options.dim (options self) in
  if (Coord.row coord <? 0) || (Coord.row coord >=? dim)
     || (Coord.col coord <? 0) || (Coord.col coord >=? dim)
  then false else true.

(** [self.board[coord.row][coord.col]] for a non-negative index pair.
    The program's board is always dim x dim, where both lookups
    succeed; see [wf_board]. *)
Definition cell (self : t) (coord : Coord.t) : option Unit.t :=
  match board self !! Z.to_nat (Coord.row coord) with
  | Some r =>
      match r !! Z.to_nat (Coord.col coord) with
      | Some c => c
      | None => None
      end
  | None => None
  end.

Definition is_empty (self : t) (coord : Coord.t) : bool :=
  match cell self coord with None => true | Some _ => false end.

Definition get (self : t) (coord : Coord.t) : option Unit.t :=
  if is_valid_coord self coord then cell self coord else None.

Definition set (self : t) (coord : Coord.t) (unit : option Unit.t) : t :=
  if is_valid_coord self coord then
    with_board self
      (alter (fun r => <[Z.to_nat (Coord.col coord) := unit]> r)
             (Z.to_nat (Coord.row coord)) (board self))
  else self.

(** [unitSrc] is the unit at [coord]; every caller passes an occupied
    cell (on an empty one the program fails on [unitSrc.player]). *)
Definition in_combat (self : t) (coord : Coord.t) : bool :=
  match get self coord with
  | None => false
  | Some unitSrc =>
      existsb
        (fun adjacent_coord =>
           match get self adjacent_coord with
           | Some unitDst =>
               is_valid_coord self adjacent_coord
               && negb (is_empty self adjacent_coord)
               && bool_decide (Unit.player unitSrc ≠ Unit.player unitDst)
           | None => false
           end)
        (Coord.iter_adjacent coord)
  end.

Definition remove_dead (self : t) (coord : Coord.t) : t :=
  match get self coord with
  | Some unit =>
      if negb (Unit.is_alive unit) then
        let self := set self coord None in
        match Unit.type unit with
        | AI =>
            match Unit.player unit with
            | Attacker =>
                mk (board self) (next_player self) (turns_played self)
                   (options self) false (_defender_has_ai self)
            | Defender =>
                mk (board self) (next_player self) (turns_played self)
                   (options self) (_attacker_has_ai self) false
            end
        | _ => self
        end
      else self
  | None => self
  end.

Definition mod_health (self : t) (coord : Coord.t) (health_delta : Z) : t :=
  match get self coord with
  | Some target =>
      remove_dead (set self coord (Some (Unit.mod_health target health_delta)))
                  coord
  | None => self
  end.

(** The tail of [is_valid_move]: the direction and engagement test for
    AI, Firewall and Program. *)
Definition direction_check (self : t) (unitSrc : Unit.t)
    (coords : CoordPair.t) : bool :=
  let src := CoordPair.src coords in
  let dst := CoordPair.dst coords in
  if bool_decide (Unit.type unitSrc ≠ Tech)
     && bool_decide (Unit.type unitSrc ≠ Virus) then
    if bool_decide (Unit.player unitSrc = Attacker)
       && (bool_decide (Coord.col dst ≠ Coord.col src - 1)
           && bool_decide (Coord.row dst ≠ Coord.row src - 1))
    then false
    else if bool_decide (Unit.player unitSrc = Defender)
            && (bool_decide (Coord.col dst ≠ Coord.col src + 1)
                && bool_decide (Coord.row dst ≠ Coord.row src + 1))
    then false
    else if in_combat self src then false
    else true
  else true.

Definition is_valid_move (self : t) (coords : CoordPair.t) : bool :=
  let src := CoordPair.src coords in
  let dst := CoordPair.dst coords in
  if negb (is_valid_coord self src) || negb (is_valid_coord self dst)
  then false
  else
    match get self src with
    | None => false
    | Some unitSrc =>
        if bool_decide (Unit.player unitSrc ≠ next_player self) then false
        else if bool_decide (dst = src) then true
        else if Z.abs (Coord.col src - Coord.col dst) >? 1 then false
        else
          match get self dst with
          | Some unitDst =>
              let same :=
                bool_decide (Unit.player unitDst = Unit.player unitSrc) in
              if (Unit.health unitDst <? 9) && same
                 && (Unit.repair_amount unitSrc unitDst >? 0)
              then true
              else if negb same then true
              else if same && (Unit.health unitDst =? 9) then false
              else if same && ((Unit.repair_amount unitSrc unitDst =? 0)
                               || (Unit.health unitDst <? 9))
              then false
              else direction_check self unitSrc coords
          | None => direction_check self unitSrc coords
          end
    end.

(** [perform_move] returns the success flag (its message string is
    not modelled) and the state after the move.

    In the self-destruct branch [unitSrc] is the object stored at
    [src]: after the loop it is either still there, and
    [unitSrc.health] is the health read from the board, or it was
    removed by the loop, and [mod_health] finds no target at [src]. *)
Definition perform_move (self : t) (coords : CoordPair.t) : bool * t :=
  let src := CoordPair.src coords in
  let dst := CoordPair.dst coords in
  let unitSrc := get self src in
  let unitDst := get self dst in
  if is_valid_move self coords then
    if bool_decide (dst = src) then
      let self1 :=
        fold_left (fun g adjacent_coord => mod_health g adjacent_coord (-2))
                  (Coord.iter_range src 1) self in
      match get self1 src with
      | Some u => (true, mod_health self1 src (- Unit.health u))
      | None => (true, self1)
      end
    else
      match unitSrc, unitDst with
      | Some uS, Some uD =>
          if bool_decide (Unit.player uS ≠ Unit.player uD) then
            let dmg := Unit.damage_amount uS uD in
            let sdmg := Unit.damage_amount uD uS in
            (true, mod_health (mod_health self dst (- dmg)) src (- sdmg))
          else
            let rpr := Unit.repair_amount uS uD in
            (true, mod_health self dst rpr)
      | _, _ =>
          (true, set (set self dst (get self src)) src None)
      end
  else (false, self).

Definition next_turn (self : t) : t :=
  mk (board self) (Player_next (next_player self)) (turns_played self + 1)
     (options self) (_attacker_has_ai self) (_defender_has_ai self).

Definition player_units (self : t) (player : Player)
    : list (Coord.t * Unit.t) :=
  flat_map
    (fun coord =>
       match get self coord with
       | Some unit =>
           if bool_decide (Unit.player unit = player)
           then [(coord, unit)] else []
       | None => []
       end)
    (CoordPair.iter_rectangle
       (CoordPair.from_dim (Options.dim (options self)))).

Definition has_winner (self : t) : option Player :=
  if match Options.max_turns (options self) with
     | Some max_turns => turns_played self >=? max_turns
     | None => false
     end
  then Some Defender
  else if _attacker_has_ai self then
    if _defender_has_ai self then None else Some Attacker
  else Some Defender.

Definition is_finished (self : t) : bool :=
  match has_winner self with Some _ => true | None => false end.

(** For each unit: the valid moves to its four neighbours, then its
    self-destruct move, which is yielded without validation. *)
Definition move_candidates2 (self : t) (player : Player)
    : list CoordPair.t :=
  flat_map
    (fun '(src, _) =>
       filter (fun move => is_valid_move self move = true)
              (map (fun dst => CoordPair.mk src dst)
                   (Coord.iter_adjacent src))
       ++ [CoordPair.mk src src])
    (player_units self player).

Definition move_candidates (self : t) : list CoordPair.t :=
  move_candidates2 self (next_player self).

(** [__post_init__]: the opening position on a dim x dim board. *)
Definition post_init (options : Options.t) : t :=
  let dim := Options.dim options in
  let md := dim - 1 in
  let g0 :=
    mk (replicate (Z.to_nat dim) (replicate (Z.to_nat dim) None))
       Attacker 0 options true true in
  fold_left (fun g '(r, c, u) => set g (Coord.mk r c) (Some u))
    [ (0, 0, Unit.mk Defender AI 9)
    ; (1, 0, Unit.mk Defender Tech 9)
    ; (0, 1, Unit.mk Defender Tech 9)
    ; (2, 0, Unit.mk Defender Firewall 9)
    ; (0, 2, Unit.mk Defender Firewall 9)
    ; (1, 1, Unit.mk Defender Program 9)
    ; (md, md, Unit.mk Attacker AI 9)
    ; (md - 1, md, Unit.mk Attacker Virus 9)
    ; (md, md - 1, Unit.mk Attacker Virus 9)
    ; (md - 2, md, Unit.mk Attacker Program 9)
    ; (md, md - 2, Unit.mk Attacker Program 9)
    ; (md - 1, md - 1, Unit.mk Attacker Firewall 9) ]
    g0.

End Game.

(** ** Exceptions *)

Inductive Exn :=
  | KeyError (key : nat)
  | ZeroDivisionError
  | UnboundLocalError.

Inductive Outcome (A : Type) :=
  | Returned (a : A)
  | Raised (e : Exn).
Arguments Returned {A} a.
Arguments Raised {A} e.

(** ** Statistics *)

Module Stats.

(** [total_seconds] is a float and is left out. *)
Record t := mk {
  evaluations_per_depth : gmap nat Z;
  minimax_entry : Z
}.

Definition empty : t := mk ∅ 0.

Definition increment_evaluations (self : t) (depth : nat) : t :=
  match evaluations_per_depth self !! depth with
  | Some n => mk (<[depth := n + 1]> (evaluations_per_depth self))
                 (minimax_entry self)
  | None => mk (<[depth := 1]> (evaluations_per_depth self))
               (minimax_entry self)
  end.

Definition set_minimax_entry (self : t) (e : Z) : t :=
  mk (evaluations_per_depth self) e.

End Stats.

(** ** Heuristic, search and move suggestion *)

Module Search.

Import Game.

(** The counters of [heuristic_e2] that are ever written; [p], [np],
    [ai_move], [nai_move], [nmoves] and [nclosing] stay 0. *)
Record Acc := mkAcc {
  other : Z; nother : Z; ai : Z; nai : Z; v : Z; nv : Z;
  combat : Z; ncombat : Z; closing : Z
}.

Definition acc0 : Acc := mkAcc 0 0 0 0 0 0 0 0 0.

Definition add_other (a : Acc) (d : Z) : Acc :=
  mkAcc (other a + d) (nother a) (ai a) (nai a) (v a) (nv a)
        (combat a) (ncombat a) (closing a).
Definition add_nother (a : Acc) (d : Z) : Acc :=
  mkAcc (other a) (nother a + d) (ai a) (nai a) (v a) (nv a)
        (combat a) (ncombat a) (closing a).
Definition set_ai (a : Acc) (x : Z) : Acc :=
  mkAcc (other a) (nother a) x (nai a) (v a) (nv a)
        (combat a) (ncombat a) (closing a).
Definition set_nai (a : Acc) (x : Z) : Acc :=
  mkAcc (other a) (nother a) (ai a) x (v a) (nv a)
        (combat a) (ncombat a) (closing a).
Definition add_v (a : Acc) (d : Z) : Acc :=
  mkAcc (other a) (nother a) (ai a) (nai a) (v a + d) (nv a)
        (combat a) (ncombat a) (closing a).
Definition add_nv (a : Acc) (d : Z) : Acc :=
  mkAcc (other a) (nother a) (ai a) (nai a) (v a) (nv a + d)
        (combat a) (ncombat a) (closing a).
Definition add_combat (a : Acc) (d : Z) : Acc :=
  mkAcc (other a) (nother a) (ai a) (nai a) (v a) (nv a)
        (combat a + d) (ncombat a) (closing a).
Definition add_ncombat (a : Acc) (d : Z) : Acc :=
  mkAcc (other a) (nother a) (ai a) (nai a) (v a) (nv a)
        (combat a) (ncombat a + d) (closing a).
Definition add_closing (a : Acc) (d : Z) : Acc :=
  mkAcc (other a) (nother a) (ai a) (nai a) (v a) (nv a)
        (combat a) (ncombat a) (closing a + d).

(** [(player, nplayer)] as the first statement of each heuristic
    chooses them; [None] when no branch assigns them, and the first
    use raises [UnboundLocalError]. *)
Definition sides (self game : Game.t) : option (Player * Player) :=
  let gt := Options.game_type (options self) in
  if bool_decide (gt = CompVsDefender) then Some (Attacker, Defender)
  else if bool_decide (gt = AttackerVsComp) then Some (Defender, Attacker)
  else if bool_decide (gt = CompVsComp)
          && bool_decide (next_player game = Attacker)
  then Some (Attacker, Defender)
  else if bool_decide (gt = CompVsComp)
          && bool_decide (next_player game = Defender)
  then Some (Defender, Attacker)
  else None.

(** The two loops over the neighbourhood of an AI.  In the first
    loop of the own side the program compares [unitDst.player], an
    enum member, with [unit.player.name], a string: they are never
    equal, and every occupied cell counts. *)
Definition threat (self : Game.t) (coord : Coord.t) (unit : Unit.t)
    (enum_vs_name : bool) (a : Acc) : Acc :=
  let a :=
    fold_left
      (fun a coords =>
         match get self coords with
         | Some unitDst =>
             if enum_vs_name
                || bool_decide (Unit.player unitDst ≠ Unit.player unit)
             then add_closing a (-2) else a
         | None => a
         end)
      (Coord.iter_range coord 1) a in
  fold_left
    (fun a coords =>
       match get self coords with
       | Some unitDst =>
           if bool_decide (Unit.player unitDst ≠ Unit.player unit)
           then add_closing a (-1) else a
       | None => a
       end)
    (Coord.iter_range coord 2) a.

(** The loop that adds one to [other] for every occupied cell around
    [coord] (in both passes it is [other]). *)
Definition crowd (self : Game.t) (coord : Coord.t) (a : Acc) : Acc :=
  fold_left
    (fun a coords =>
       match get self coords with
       | Some _ => add_other a 1
       | None => a
       end)
    (Coord.iter_range coord 1) a.

Definition own_step (self : Game.t) (a : Acc) (cu : Coord.t * Unit.t)
    : Acc :=
  let '(coord, unit) := cu in
  let a := if bool_decide (Unit.type unit = AI)
           then threat self coord unit true a else a in
  let a := if in_combat self coord then add_combat a 1 else a in
  let a := crowd self coord a in
  if bool_decide (Unit.type unit = AI) then set_ai a 1000
  else if bool_decide (Unit.type unit = Virus)
          || bool_decide (Unit.type unit = Tech)
  then add_v a (2 * Unit.health unit)
  else add_other a (Unit.health unit).

Definition opp_step (self : Game.t) (a : Acc) (cu : Coord.t * Unit.t)
    : Acc :=
  let '(coord, unit) := cu in
  let a := if bool_decide (Unit.type unit = AI)
           then threat self coord unit false a else a in
  let a := if in_combat self coord then add_ncombat a 1 else a in
  let a := crowd self coord a in
  if bool_decide (Unit.type unit = AI) then set_nai a 1000
  else if bool_decide (Unit.type unit = Virus)
          || bool_decide (Unit.type unit = Tech)
  then add_nv a (2 * Unit.health unit)
  else add_nother a (Unit.health unit).

Definition heuristic_e2 (self game : Game.t) : Outcome Z :=
  match sides self game with
  | None => Raised UnboundLocalError
  | Some (player, nplayer) =>
      let a := fold_left (own_step self) (player_units self player) acc0 in
      let a := fold_left (opp_step self) (player_units self nplayer) a in
      let moves :=
        Z.of_nat (length (move_candidates2 self player))
        + Z.of_nat (length (move_candidates2 self nplayer)) in
      Returned
        ((other a + v a + 0 + ai a + moves + 0 + combat a + closing a)
         - (nother a + nv a + 0 + nai a + 0 + 0 + ncombat a + 0))
  end.

(** One loop of [heuristic_e0]: the pair [(other, ai)] counts the units
    that are not an AI and those that are. *)
Definition count_units (units : list (Coord.t * Unit.t)) : Z * Z :=
  fold_left
    (fun '(other, ai) '(_, unit) =>
       if bool_decide (Unit.type unit = AI) then (other, ai + 1)
       else (other + 1, ai))
    units (0, 0).

Definition heuristic_e0 (self game : Game.t) : Outcome Z :=
  match sides self game with
  | None => Raised UnboundLocalError
  | Some (player, nplayer) =>
      let '(other, ai) := count_units (player_units self player) in
      let '(nother, nai) := count_units (player_units self nplayer) in
      Returned ((3 * other + 9999 * ai) - (3 * nother + 9999 * nai))
  end.

(** One loop of [heuristic_e1]: the same pair, summing health. *)
Definition sum_health (units : list (Coord.t * Unit.t)) : Z * Z :=
  fold_left
    (fun '(other, ai) '(_, unit) =>
       if bool_decide (Unit.type unit = AI) then (other, ai + Unit.health unit)
       else (other + Unit.health unit, ai))
    units (0, 0).

Definition heuristic_e1 (self game : Game.t) : Outcome Z :=
  match sides self game with
  | None => Raised UnboundLocalError
  | Some (player, nplayer) =>
      let '(other, ai) := sum_health (player_units self player) in
      let '(nother, nai) := sum_health (player_units self nplayer) in
      Returned ((9 * other + 99 * ai) - (9 * nother + 99 * nai))
  end.

(** The state the search threads: the shared [Stats] object and the
    number of time-budget tests made so far. *)
Definition St : Type := Stats.t * nat.

Definition Result : Type := Outcome (Z * option CoordPair.t * St).

Section Minimax.

(** [clock n]: does the [n]-th test
    [(datetime.now() - time).total_seconds() > max_time] succeed. *)
Variable clock : nat -> bool.

(** The loop of the maximizing branch over the remaining candidate
    moves.  [g] is the node's state: every iteration starts from a
    clone of it.  [child alpha beta g'] is the recursive call. *)
Fixpoint max_loop (child : Z -> Z -> Game.t -> St -> Result)
    (g : Game.t) (moves : list CoordPair.t) (alpha beta : Z)
    (score : Z) (best_move : option CoordPair.t) (st : St) : Result :=
  match moves with
  | [] => Returned (score, best_move, st)
  | move :: rest =>
      match child alpha beta (snd (perform_move g move)) st with
      | Raised e => Raised e
      | Returned (current_score, _, (stats, n)) =>
          let '(score, best_move) :=
            if current_score >? score then (current_score, Some move)
            else (score, best_move) in
          if clock n then Returned (score, best_move, (stats, S n))
          else if Options.alpha_beta (options g) then
            let alpha := Z.max alpha current_score in
            if beta <=? alpha
            then Returned (score, best_move, (stats, S n))
            else max_loop child g rest alpha beta score best_move
                          (stats, S n)
          else max_loop child g rest alpha beta score best_move
                        (stats, S n)
      end
  end.

Fixpoint min_loop (child : Z -> Z -> Game.t -> St -> Result)
    (g : Game.t) (moves : list CoordPair.t) (alpha beta : Z)
    (score : Z) (best_move : option CoordPair.t) (st : St) : Result :=
  match moves with
  | [] => Returned (score, best_move, st)
  | move :: rest =>
      match child alpha beta (snd (perform_move g move)) st with
      | Raised e => Raised e
      | Returned (current_score, _, (stats, n)) =>
          let '(score, best_move) :=
            if current_score <? score then (current_score, Some move)
            else (score, best_move) in
          if clock n then Returned (score, best_move, (stats, S n))
          else if Options.alpha_beta (options g) then
            let beta := Z.min beta current_score in
            if beta <=? alpha
            then Returned (score, best_move, (stats, S n))
            else min_loop child g rest alpha beta score best_move
                          (stats, S n)
          else min_loop child g rest alpha beta score best_move
                        (stats, S n)
      end
  end.

Definition leaf (self game : Game.t) (st : St) : Result :=
  match heuristic_e2 self game with
  | Returned h => Returned (h, None, st)
  | Raised e => Raised e
  end.

Fixpoint minimax (depth : nat) (alpha beta : Z) (max_player : bool)
    (self game : Game.t) (st : St) {struct depth} : Result :=
  let st := (Stats.increment_evaluations (fst st) depth, snd st) in
  match depth with
  | O => leaf self game st
  | S depth' =>
      if is_finished self then leaf self game st
      else
        let self :=
          if bool_decide (Stats.minimax_entry (fst st) ≠ 0)
          then next_turn self else self in
        let st := (Stats.set_minimax_entry (fst st) 1, snd st) in
        if max_player then
          max_loop (fun a b g => minimax depth' a b false g game)
                   self (move_candidates self) alpha beta
                   MIN_HEURISTIC_SCORE None st
        else
          min_loop (fun a b g => minimax depth' a b true g game)
                   self (move_candidates self) alpha beta
                   MAX_HEURISTIC_SCORE None st
  end.

(** [sum(self.stats.evaluations_per_depth.values())] *)
Definition total_evals (stats : Stats.t) : Z :=
  map_fold (fun _ n acc => n + acc) 0 (Stats.evaluations_per_depth stats).

Fixpoint keys_before (stop : nat) (keys : list nat) : list nat :=
  match keys with
  | [] => []
  | k :: rest =>
      if bool_decide (k = stop) then [] else k :: keys_before stop rest
  end.

(** The percentage report divides by [total_evals] once for each key
    met, in increasing order, before [max_depth]. *)
Definition percentages (stats : Stats.t) (max_depth : nat)
    : Outcome unit :=
  let keys :=
    merge_sort Nat.le (elements (dom (Stats.evaluations_per_depth stats)))
  in
  match keys_before max_depth keys with
  | [] => Returned tt
  | _ :: _ =>
      if total_evals stats =? 0 then Raised ZeroDivisionError
      else Returned tt
  end.

(** [evaluations_per_depth[0] / evaluations_per_depth[1]]: the true
    quotient of the two counts, kept as numerator and denominator. *)
Definition branching_factor (stats : Stats.t) : Outcome (Z * Z) :=
  match Stats.evaluations_per_depth stats !! 0%nat with
  | None => Raised (KeyError 0)
  | Some e0 =>
      match Stats.evaluations_per_depth stats !! 1%nat with
      | None => Raised (KeyError 1)
      | Some e1 =>
          if e1 =? 0 then Raised ZeroDivisionError
          else Returned (e0, e1)
      end
  end.

(** [suggest_move] without its printing and timing: the search on a
    clone, the reset of [minimax_entry], the reports that can fail,
    and the move. *)
Definition suggest_move (self : Game.t) (st : St)
    : Outcome (option CoordPair.t * St) :=
  let ngame := self in
  match minimax (Options.max_depth (options self))
                MIN_HEURISTIC_SCORE MAX_HEURISTIC_SCORE true
                ngame self st with
  | Raised e => Raised e
  | Returned (score, move, (stats, n)) =>
      let stats := Stats.set_minimax_entry stats 0 in
      match percentages stats (Options.max_depth (options self)) with
      | Raised e => Raised e
      | Returned _ =>
          match branching_factor stats with
          | Raised e => Raised e
          | Returned _ => Returned (move, (stats, n))
          end
      end
  end.

(** [computer_turn]: the suggested move, when there is one, is
    performed, and the turn passes when it was accepted. *)
Definition computer_turn (self : Game.t) (st : St)
    : Outcome (option CoordPair.t * Game.t * St) :=
  match suggest_move self st with
  | Raised e => Raised e
  | Returned (None, st') => Returned (None, self, st')
  | Returned (Some mv, st') =>
      let '(success, self') := perform_move self mv in
      if success then Returned (Some mv, next_turn self', st')
      else Returned (Some mv, self', st')
  end.

End Minimax.

(** [read_move] on the lines that [input] will return: the first line
    that parses to two cells of the board, and the lines left.  [None]
    is the [EOFError] of [input] when no line is left. *)
Fixpoint read_move (self : Game.t) (inputs : list string)
    : option (CoordPair.t * list string) :=
  match inputs with
  | [] => None
  | s :: rest =>
      match CoordPair.from_string s with
      | Some coords =>
          if is_valid_coord self (CoordPair.src coords)
             && is_valid_coord self (CoordPair.dst coords)
          then Some (coords, rest)
          else read_move self rest
      | None => read_move self rest
      end
  end.

(** The loop of [human_turn] without a broker: moves are read until one
    is performed, and the turn passes.  Every round consumes a line, so
    that [fuel] above the number of lines is never used up. *)
Fixpoint human_turn_loop (fuel : nat) (self : Game.t) (inputs : list string)
    : option (Game.t * list string) :=
  match fuel with
  | O => None
  | S fuel' =>
      match read_move self inputs with
      | None => None
      | Some (mv, rest) =>
          let '(success, self') := perform_move self mv in
          if success then Some (next_turn self', rest)
          else human_turn_loop fuel' self' rest
      end
  end.

Definition human_turn (self : Game.t) (inputs : list string)
    : option (Game.t * list string) :=
  human_turn_loop (S (length inputs)) self inputs.

End Search.

(** * Vocabulary of the statements *)

(** The board is a dim x dim grid, as [__post_init__] builds it. *)
Definition wf_board (g : Game.t) : Prop :=
  length (Game.board g) = Z.to_nat (Options.dim (Game.options g))
  /\ Forall (fun r => length r = Z.to_nat (Options.dim (Game.options g)))
            (Game.board g).

Definition health_in_range (u : Unit.t) : Prop := 0 <= Unit.health u <= 9.

(** Every unit on the board has its health within [0, 9]. *)
Definition wf_units (g : Game.t) : Prop :=
  forall c u, Game.get g c = Some u -> health_in_range u.

(** The units met along a sequence of health modifications. *)
Fixpoint health_trace (u : Unit.t) (deltas : list Z) : list Unit.t :=
  match deltas with
  | [] => []
  | d :: rest =>
      let u' := Unit.mod_health u d in u' :: health_trace u' rest
  end.

(** What [remove_dead] leaves in a cell that held [u]. *)
Definition survivor (u : Unit.t) : option Unit.t :=
  if Unit.is_alive u then Some u else None.

Definition orthogonal_neighbor (src dst : Coord.t) : Prop :=
  (Z.abs (Coord.row dst - Coord.row src) = 1
   /\ Z.abs (Coord.col dst - Coord.col src) = 0)
  \/ (Z.abs (Coord.row dst - Coord.row src) = 0
      /\ Z.abs (Coord.col dst - Coord.col src) = 1).

(** Chebyshev distance between two cells. *)
Definition chebyshev (a b : Coord.t) : Z :=
  Z.max (Z.abs (Coord.row a - Coord.row b))
        (Z.abs (Coord.col a - Coord.col b)).

(** The state of the self-destructing unit object itself: the splash
    loop passes over its own cell first (health - 2, clamped), and, when
    that leaves it alive and on the board, [mod_health] then takes away
    the health it has left. *)
Definition acting_unit_after (uS : Unit.t) : Unit.t :=
  let u1 := Unit.mod_health uS (-2) in
  if Unit.is_alive u1 then Unit.mod_health u1 (- Unit.health u1) else u1.

(** The characters the parser strips: what is left of the input when
    [from_string] tests its length. *)
Definition cleaned (s : string) : string :=
  PyStr.remove_separators (PyStr.strip s).

(** The coordinate components the parser computes from one character. *)
Definition row_of (c : ascii) : Z :=
  PyStr.find PyStr.ROWS (PyStr.upper (String c EmptyString)).
Definition col_of (c : ascii) : Z :=
  PyStr.find PyStr.COLS (PyStr.lower (String c EmptyString)).

(** The turn limit is configured and reached. *)
Definition turn_limit_reached (g : Game.t) : Prop :=
  match Options.max_turns (Game.options g) with
  | Some max_turns => max_turns <= Game.turns_played g
  | None => False
  end.

(** The reading of the depth-0 scenario: with a legal move available,
    [suggest_move] returns a legal move. *)
Definition depth_0_returns_legal_move (clock : nat -> bool) (g : Game.t)
    (st : Search.St) : Prop :=
  (exists m, Game.is_valid_move g m = true) ->
  exists m st',
    Search.suggest_move clock g st = Returned (Some m, st')
    /\ Game.is_valid_move g m = true.

(** Example states: the opening position of a manual game and of a game
    between two computer players searched to depth 0 and to depth 2, and
    a position in which an Attacker Virus stands next to the Defender's
    AI. *)
Definition opening : Game.t := Game.post_init Options.default.
Definition opening_depth_0 : Game.t :=
  Game.post_init (Options.mk 5 0 CompVsComp true (Some 100)).
Definition opening_depth_2 : Game.t :=
  Game.post_init (Options.mk 5 2 CompVsComp true (Some 100)).
Definition duel : Game.t :=
  Game.set opening (Coord.mk 1 0) (Some (Unit.mk Attacker Virus 9)).

(** The search without its bookkeeping: the score [minimax] computes,
    as a function of the node alone.  [ab] is the pruning option,
    [entered] tells whether [minimax_entry] is set when the node is
    entered, [h] is the evaluation of a leaf. *)
Section Value.

Context {S M : Type}.
Variable finished : S -> bool.
Variable turn : S -> S.
Variable moves : S -> list M.
Variable apply : S -> M -> S.
Variable h : S -> Z.
Variable ab : bool.

Fixpoint max_value (child : Z -> Z -> S -> Z) (s : S) (ms : list M)
    (alpha beta score : Z) : Z :=
  match ms with
  | [] => score
  | m :: rest =>
      let current_score := child alpha beta (apply s m) in
      let score := if current_score >? score then current_score else score in
      if ab then
        let alpha := Z.max alpha current_score in
        if beta <=? alpha then score
        else max_value child s rest alpha beta score
      else max_value child s rest alpha beta score
  end.

Fixpoint min_value (child : Z -> Z -> S -> Z) (s : S) (ms : list M)
    (alpha beta score : Z) : Z :=
  match ms with
  | [] => score
  | m :: rest =>
      let current_score := child alpha beta (apply s m) in
      let score := if current_score <? score then current_score else score in
      if ab then
        let beta := Z.min beta current_score in
        if beta <=? alpha then score
        else min_value child s rest alpha beta score
      else min_value child s rest alpha beta score
  end.

Fixpoint value (entered : bool) (depth : nat) (alpha beta : Z)
    (max_player : bool) (s : S) : Z :=
  match depth with
  | O => h s
  | Datatypes.S depth' =>
      if finished s then h s
      else
        let s := if entered then turn s else s in
        if max_player then
          max_value (fun a b s' => value true depth' a b false s')
                    s (moves s) alpha beta MIN_HEURISTIC_SCORE
        else
          min_value (fun a b s' => value true depth' a b true s')
                    s (moves s) alpha beta MAX_HEURISTIC_SCORE
  end.

End Value.

(** What a pruned result [r] tells about the full result [v] of the
    same node for the window (alpha, beta). *)
Definition agrees (alpha beta v r : Z) : Prop :=
  MIN_HEURISTIC_SCORE <= v <= MAX_HEURISTIC_SCORE
  /\ MIN_HEURISTIC_SCORE <= r <= MAX_HEURISTIC_SCORE
  /\ (v <= alpha -> r <= alpha)
  /\ (beta <= v -> beta <= r)
  /\ (alpha < v < beta -> r = v).

Definition window (alpha beta : Z) : Prop :=
  MIN_HEURISTIC_SCORE <= alpha /\ alpha < beta /\ beta <= MAX_HEURISTIC_SCORE.

(** The same state with the pruning option set to [b]. *)
Definition with_alpha_beta (b : bool) (g : Game.t) : Game.t :=
  Game.mk (Game.board g) (Game.next_player g) (Game.turns_played g)
    (Options.mk (Options.dim (Game.options g))
                (Options.max_depth (Game.options g))
                (Options.game_type (Game.options g))
                b
                (Options.max_turns (Game.options g)))
    (Game._attacker_has_ai g) (Game._defender_has_ai g).

(** The score of a leaf, where the evaluator is defined. *)
Definition evaluate (game self : Game.t) : Z :=
  match Search.heuristic_e2 self game with
  | Returned z => z
  | Raised _ => 0
  end.

Definition search_value (game : Game.t) (ab entered : bool) (depth : nat)
    (alpha beta : Z) (max_player : bool) (self : Game.t) : Z :=
  value Game.is_finished Game.next_turn Game.move_candidates
        (fun g m => snd (Game.perform_move g m)) (evaluate game)
        ab entered depth alpha beta max_player self.

(** Bounds on the counters of [heuristic_e2] after [n1] units of the own
    side and [n2] units of the other side. *)
Definition acc_bound (n1 n2 : Z) (a : Search.Acc) : Prop :=
  0 <= Search.other a <= 18 * n1 + 9 * n2
  /\ 0 <= Search.v a <= 18 * n1
  /\ 0 <= Search.ai a <= 1000
  /\ 0 <= Search.combat a <= n1
  /\ - 43 * (n1 + n2) <= Search.closing a <= 0
  /\ 0 <= Search.nother a <= 9 * n2
  /\ 0 <= Search.nv a <= 18 * n2
  /\ 0 <= Search.nai a <= 1000
  /\ 0 <= Search.ncombat a <= n2.

(** A call of the search that returns the score [v] and leaves
    [minimax_entry] set. *)
Definition returns (r : Search.Result) (v : Z) : Prop :=
  exists mv st', r = Returned (v, mv, st')
                 /\ Stats.minimax_entry (fst st') <> 0.

(** Executable forms of [wf_board] and [wf_units]. *)
Definition wf_boardb (g : Game.t) : bool :=
  (length (Game.board g) =? Z.to_nat (Options.dim (Game.options g)))%nat
  && forallb (fun r => (length r =? Z.to_nat (Options.dim (Game.options g)))%nat)
             (Game.board g).

Definition wf_unitsb (g : Game.t) : bool :=
  forallb
    (forallb (fun c => match c with
                       | Some u => (0 <=? Unit.health u) && (Unit.health u <=? 9)
                       | None => true
                       end))
    (Game.board g).

(** The invariant of the states of a search. *)
Definition search_inv (g : Game.t) : Prop :=
  wf_board g /\ wf_units g /\ Options.dim (Game.options g) <= 4000.

(** ** Vocabulary of the move parser on typed text *)

(** Whitespace, as [str.isspace] has it. *)
Definition whitespace (c : N) : Prop := Unicode.is_space c = true.

(** One of the separator characters. *)
Definition is_separator (c : N) : bool :=
  bool_decide (c ∈ Unicode.of_string " ,.:;-_").

(** What is left of [m] without its separator characters. *)
Definition kept (m : list N) : list N :=
  filter (fun c => is_separator c = false) m.

(** [m] neither starts nor ends with whitespace. *)
Definition trimmed (m : list N) : Prop :=
  (forall c, head m = Some c -> Unicode.is_space c = false)
  /\ (forall c, last m = Some c -> Unicode.is_space c = false).

(** A row letter A-Z in either case, and its position in the alphabet;
    a column digit 0-9, a-f in either case, and its value. *)
Definition row_letter (c : N) : bool :=
  (((0x41 <=? c) && (c <=? 0x5a)) || ((0x61 <=? c) && (c <=? 0x7a)))%N.

Definition letter_position (c : N) : Z :=
  if (c <=? 0x5a)%N then Z.of_N c - 0x41 else Z.of_N c - 0x61.

Definition column_digit (c : N) : bool :=
  (((0x30 <=? c) && (c <=? 0x39)) || ((0x41 <=? c) && (c <=? 0x46))
   || ((0x61 <=? c) && (c <=? 0x66)))%N.

Definition digit_value (c : N) : Z :=
  if (c <=? 0x39)%N then Z.of_N c - 0x30
  else if (c <=? 0x46)%N then Z.of_N c - 0x41 + 10
  else Z.of_N c - 0x61 + 10.

(** The row every character is read as, according to the claim: the
    position of a row letter, and -1 for any other character. *)
Definition claimed_row (c : N) : Z :=
  if row_letter c then letter_position c else -1.

(** The row every character is read as by the code.  Four characters
    that are not row letters have an upper-case form made of row
    letters: dotless i (I), long s (S) and the ligatures long s-t and
    st (ST, found in the alphabet at the position of S). *)
Definition row_value (c : N) : Z :=
  if row_letter c then letter_position c
  else if (c =? 0x131)%N then 8
  else if ((c =? 0x17f) || (c =? 0xfb05) || (c =? 0xfb06))%N then 18
  else -1.

Definition column_value (c : N) : Z :=
  if column_digit c then digit_value c else -1.

(** The input is [m] between whitespace, and four characters of [m] are
    not separators. *)
Definition four_characters (s : list N) (a b c d : N) : Prop :=
  exists l m r,
    s = l ++ m ++ r /\ Forall whitespace l /\ Forall whitespace r
    /\ trimmed m /\ kept m = [a; b; c; d].

(** The claim about the parser, as it is written: every such input is
    read as a pair, with -1 for each character that is not a row letter
    or a column digit. *)
Definition invalid_characters_yield_minus_1 : Prop :=
  forall s a b c d,
    four_characters s a b c d ->
    Unicode.CoordPair.from_string s
    = Some (CoordPair.mk (Coord.mk (claimed_row a) (column_value b))
                         (Coord.mk (claimed_row c) (column_value d))).

(** ** Invariants of play, of the AI flags and of the statistics *)

(** The cell [(r, k)] is written as two characters that [from_string]
    reads back as the same cell. *)
Definition coord_round_trip (r k : Z) : bool :=
  match Coord.to_string (Coord.mk r k) with
  | Some s => bool_decide (Coord.from_string s = Some (Coord.mk r k))
              && (String.length s =? 2)%nat
  | None => false
  end.

(** A character that [strip] and the separator loop keep. *)
Definition plain (c : ascii) : bool :=
  negb (PyStr.is_space c)
  && forallb (fun sep => negb (Ascii.eqb c sep))
             (list_ascii_of_string " ,.:;-_").

(** The two characters of a cell of the 26 x 16 grid are plain and are
    read back as its row and column. *)
Definition coord_chars_ok (r k : Z) : bool :=
  match Coord.to_string (Coord.mk r k) with
  | Some (String a (String b EmptyString)) =>
      plain a && plain b && (row_of a =? r) && (col_of b =? k)
  | _ => false
  end.

(** The Defender to move, with its AI at A0 down to 7 health next to
    its Tech at A1. *)
Definition mending : Game.t :=
  Game.set (Game.next_turn opening) (Coord.mk 0 0)
           (Some (Unit.mk Defender AI 7)).

(** The flag [_attacker_has_ai] or [_defender_has_ai] of a side. *)
Definition ai_flag (g : Game.t) (p : Player) : bool :=
  match p with
  | Attacker => Game._attacker_has_ai g
  | Defender => Game._defender_has_ai g
  end.

(** The cell [c] holds the AI of side [p]. *)
Definition ai_at (g : Game.t) (p : Player) (c : Coord.t) : Prop :=
  exists u, Game.get g c = Some u /\ Unit.type u = AI /\ Unit.player u = p.

(** The flags tell the truth about the board, on which each side has at
    most one AI. *)
Definition ai_flags_reflect_board (g : Game.t) : Prop :=
  forall p,
    (ai_flag g p = true <-> exists c, ai_at g p c)
    /\ (forall c1 c2, ai_at g p c1 -> ai_at g p c2 -> c1 = c2).

(** The AI cells of a side, and the executable form of
    [ai_flags_reflect_board]. *)
Definition ai_cells (g : Game.t) (p : Player) : list (Coord.t * Unit.t) :=
  filter (fun cu => Unit.type (snd cu) = AI) (Game.player_units g p).

Definition ai_flags_reflect_boardb (g : Game.t) : bool :=
  forallb
    (fun p => match ai_cells g p with
              | [] => negb (ai_flag g p)
              | [_] => ai_flag g p
              | _ => false
              end)
    [Attacker; Defender].

(** A sequence of turns: each move is performed and the turn passes. *)
Definition play (g : Game.t) (moves : list CoordPair.t) : Game.t :=
  fold_left (fun g m => Game.next_turn (snd (Game.perform_move g m))) moves g.

(** The buckets from depth [d] upwards are the same in both states. *)
Definition same_from (d : nat) (st st' : Search.St) : Prop :=
  forall k, (d <= k)%nat ->
    Stats.evaluations_per_depth (fst st') !! k
    = Stats.evaluations_per_depth (fst st) !! k.

(** The first line that is read as a move the validator accepts, with
    the lines after it. *)
Fixpoint first_accepted (g : Game.t) (inputs : list string)
    : option (CoordPair.t * list string) :=
  match inputs with
  | [] => None
  | s :: rest =>
      match CoordPair.from_string s with
      | Some mv =>
          if Game.is_valid_move g mv then Some (mv, rest)
          else first_accepted g rest
      | None => first_accepted g rest
      end
  end.

(** The invariant of a game in play: a well-formed position on a board
    of at most 4000 x 4000 cells, so that [heuristic_e2] stays between
    the two score constants, whose AI flags tell the truth about the
    board, in a game type for which [heuristic_e2] is defined. *)
Definition in_play (g : Game.t) : Prop :=
  wf_board g /\ wf_units g /\ Options.dim (Game.options g) <= 4000
  /\ ai_flags_reflect_board g
  /\ Options.game_type (Game.options g) <> AttackerVsDefender.

(** A call that returns a score strictly inside the window of the two
    score constants. *)
Definition returns_inside (r : Search.Result) : Prop :=
  exists v mv st', r = Returned (v, mv, st')
                   /\ MIN_HEURISTIC_SCORE < v < MAX_HEURISTIC_SCORE.

(** Every count of the statistics is positive. *)
Definition counts_positive (stats : Stats.t) : Prop :=
  forall k n, Stats.evaluations_per_depth stats !! k = Some n -> 0 < n.

(** From [s] to [s'] no bucket was lost or lowered, and the new buckets
    hold positive counts. *)
Definition counted (s s' : Stats.t) : Prop :=
  forall k,
    match Stats.evaluations_per_depth s !! k with
    | Some n => exists n', Stats.evaluations_per_depth s' !! k = Some n'
                           /\ n <= n'
    | None => forall n', Stats.evaluations_per_depth s' !! k = Some n' ->
                         0 < n'
    end.

(** The two buckets the branching factor reads. *)
Definition report_buckets (stats : Stats.t) : Prop :=
  is_Some (Stats.evaluations_per_depth stats !! 0%nat)
  /\ is_Some (Stats.evaluations_per_depth stats !! 1%nat).

(** * Board lemmas *)

Lemma is_valid_coord_spec g c :
  Game.is_valid_coord g c = true
  <-> 0 <= Coord.row c < Options.dim (Game.options g)
      /\ 0 <= Coord.col c < Options.dim (Game.options g).
Proof.
  unfold Game.is_valid_coord.
  destruct (Coord.row c <? 0) eqn:E1, (Coord.row c >=? Options.dim (Game.options g)) eqn:E2,
           (Coord.col c <? 0) eqn:E3, (Coord.col c >=? Options.dim (Game.options g)) eqn:E4;
    simpl; split; intros H; try discriminate; try reflexivity; lia.
Qed.

Lemma options_set g c x : Game.options (Game.set g c x) = Game.options g.
Proof. unfold Game.set. destruct (Game.is_valid_coord g c); reflexivity. Qed.

Lemma next_player_set g c x :
  Game.next_player (Game.set g c x) = Game.next_player g.
Proof. unfold Game.set. destruct (Game.is_valid_coord g c); reflexivity. Qed.

Lemma turns_played_set g c x :
  Game.turns_played (Game.set g c x) = Game.turns_played g.
Proof. unfold Game.set. destruct (Game.is_valid_coord g c); reflexivity. Qed.

Lemma is_valid_coord_set g c x c' :
  Game.is_valid_coord (Game.set g c x) c' = Game.is_valid_coord g c'.
Proof. unfold Game.is_valid_coord. rewrite options_set. reflexivity. Qed.

Lemma wf_board_set g c x : wf_board g -> wf_board (Game.set g c x).
Proof.
  intros [Hl Hr]. unfold wf_board. rewrite options_set.
  unfold Game.set. destruct (Game.is_valid_coord g c); [|split; assumption].
  simpl. split.
  - rewrite length_alter. exact Hl.
  - apply Forall_alter; [exact Hr|].
    intros r _ Hr'. rewrite length_insert. exact Hr'.
Qed.

Lemma cell_in_range g c :
  wf_board g -> Game.is_valid_coord g c = true ->
  exists r, Game.board g !! Z.to_nat (Coord.row c) = Some r
            /\ (Z.to_nat (Coord.col c) < length r)%nat.
Proof.
  intros [Hl Hr] Hv. apply is_valid_coord_spec in Hv.
  destruct (lookup_lt_is_Some_2 (Game.board g) (Z.to_nat (Coord.row c)))
    as [r Hrow]; [lia|].
  exists r. split; [exact Hrow|].
  rewrite Forall_forall in Hr.
  rewrite (Hr r); [lia|].
  eapply list_elem_of_lookup_2. exact Hrow.
Qed.

Lemma get_set_eq g c x :
  wf_board g -> Game.is_valid_coord g c = true ->
  Game.get (Game.set g c x) c = x.
Proof.
  intros Hwf Hv. unfold Game.get. rewrite is_valid_coord_set, Hv.
  destruct (cell_in_range g c Hwf Hv) as (r & Hrow & Hcol).
  unfold Game.set, Game.cell. rewrite Hv. simpl.
  rewrite list_lookup_alter_eq, Hrow. simpl.
  rewrite list_lookup_insert_eq by exact Hcol. reflexivity.
Qed.

Lemma get_set_ne g c x c' :
  c <> c' -> Game.get (Game.set g c x) c' = Game.get g c'.
Proof.
  intros Hne. unfold Game.get. rewrite is_valid_coord_set.
  destruct (Game.is_valid_coord g c') eqn:Hv'; [|reflexivity].
  unfold Game.set. destruct (Game.is_valid_coord g c) eqn:Hv; [|reflexivity].
  apply is_valid_coord_spec in Hv, Hv'.
  unfold Game.cell. simpl.
  destruct (decide (Z.to_nat (Coord.row c) = Z.to_nat (Coord.row c'))) as [Er|Er].
  - rewrite <- Er, list_lookup_alter_eq.
    destruct (Game.board g !! Z.to_nat (Coord.row c)) as [r|]; [|reflexivity].
    simpl. rewrite list_lookup_insert_ne; [reflexivity|].
    intros Ec. apply Hne. destruct c, c'; simpl in *. f_equal; lia.
  - rewrite list_lookup_alter_ne by exact Er. reflexivity.
Qed.

Lemma get_valid g c u : Game.get g c = Some u -> Game.is_valid_coord g c = true.
Proof. unfold Game.get. destruct (Game.is_valid_coord g c); [reflexivity|discriminate]. Qed.

Lemma wf_boardb_sound g : wf_boardb g = true -> wf_board g.
Proof.
  unfold wf_boardb, wf_board. intros H.
  apply andb_true_iff in H as [H1 H2]. apply Nat.eqb_eq in H1.
  split; [exact H1|]. apply Forall_forall. intros r Hr.
  rewrite forallb_forall in H2. apply Nat.eqb_eq, H2.
  apply list_elem_of_In, Hr.
Qed.

Lemma wf_unitsb_sound g : wf_unitsb g = true -> wf_units g.
Proof.
  unfold wf_unitsb, wf_units. intros H c u Hget.
  unfold Game.get in Hget. destruct (Game.is_valid_coord g c); [|discriminate].
  unfold Game.cell in Hget.
  destruct (Game.board g !! Z.to_nat (Coord.row c)) as [r|] eqn:Er;
    [|discriminate].
  destruct (r !! Z.to_nat (Coord.col c)) as [x|] eqn:Ec; [|discriminate].
  subst x. rewrite forallb_forall in H.
  specialize (H r ltac:(eapply list_elem_of_In, list_elem_of_lookup_2, Er)).
  rewrite forallb_forall in H.
  specialize (H (Some u) ltac:(eapply list_elem_of_In, list_elem_of_lookup_2, Ec)).
  simpl in H. unfold health_in_range. lia.
Qed.

Lemma get_ext g g' c :
  Game.board g = Game.board g' -> Game.options g = Game.options g' ->
  Game.get g c = Game.get g' c.
Proof.
  intros Hb Ho. unfold Game.get, Game.is_valid_coord, Game.cell.
  rewrite Hb, Ho. reflexivity.
Qed.

(** [remove_dead] as a change of the cell and of the flags. *)
Lemma remove_dead_shape g c :
  exists a d,
    Game.remove_dead g c
    = Game.mk (Game.board (match Game.get g c with
                           | Some u => if Unit.is_alive u then g
                                       else Game.set g c None
                           | None => g
                           end))
              (Game.next_player g) (Game.turns_played g) (Game.options g) a d.
Proof.
  unfold Game.remove_dead.
  destruct (Game.get g c) as [u|]; [|destruct g; eauto].
  destruct (Unit.is_alive u); simpl; [destruct g; eauto|].
  destruct (Unit.type u); try destruct (Unit.player u);
    rewrite ?next_player_set, ?turns_played_set, ?options_set;
    try (eexists _, _; reflexivity);
    destruct (Game.set g c None) eqn:E; simpl;
    pose proof (next_player_set g c None) as H1;
    pose proof (turns_played_set g c None) as H2;
    pose proof (options_set g c None) as H3;
    rewrite E in H1, H2, H3; simpl in *; subst; eauto.
Qed.

Lemma options_remove_dead g c :
  Game.options (Game.remove_dead g c) = Game.options g.
Proof. destruct (remove_dead_shape g c) as (a & d & ->). reflexivity. Qed.

Lemma next_player_remove_dead g c :
  Game.next_player (Game.remove_dead g c) = Game.next_player g.
Proof. destruct (remove_dead_shape g c) as (a & d & ->). reflexivity. Qed.

Lemma turns_played_remove_dead g c :
  Game.turns_played (Game.remove_dead g c) = Game.turns_played g.
Proof. destruct (remove_dead_shape g c) as (a & d & ->). reflexivity. Qed.

Lemma wf_board_remove_dead g c :
  wf_board g -> wf_board (Game.remove_dead g c).
Proof.
  intros Hwf. destruct (remove_dead_shape g c) as (a & d & ->).
  unfold wf_board. simpl.
  destruct (Game.get g c) as [u|]; [|exact Hwf].
  destruct (Unit.is_alive u); [exact Hwf|].
  pose proof (wf_board_set g c None Hwf) as H.
  unfold wf_board in H. rewrite options_set in H. exact H.
Qed.

Lemma get_remove_dead_eq g c :
  wf_board g ->
  Game.get (Game.remove_dead g c) c
  = match Game.get g c with Some u => survivor u | None => None end.
Proof.
  intros Hwf. destruct (remove_dead_shape g c) as (a & d & ->).
  destruct (Game.get g c) as [u|] eqn:Hg.
  - unfold survivor. destruct (Unit.is_alive u).
    + rewrite <- Hg. apply get_ext; reflexivity.
    + etrans; [|exact (get_set_eq g c None Hwf (get_valid g c u Hg))].
      apply get_ext; simpl; [reflexivity|]. rewrite options_set. reflexivity.
  - rewrite <- Hg. apply get_ext; reflexivity.
Qed.

Lemma get_remove_dead_ne g c c' :
  c <> c' -> Game.get (Game.remove_dead g c) c' = Game.get g c'.
Proof.
  intros Hne. destruct (remove_dead_shape g c) as (a & d & ->).
  destruct (Game.get g c) as [u|] eqn:Hg.
  - destruct (Unit.is_alive u).
    + apply get_ext; reflexivity.
    + etrans; [|exact (get_set_ne g c None c' Hne)].
      apply get_ext; simpl; [reflexivity|]. rewrite options_set. reflexivity.
  - apply get_ext; reflexivity.
Qed.

Lemma options_mod_health g c d :
  Game.options (Game.mod_health g c d) = Game.options g.
Proof.
  unfold Game.mod_health. destruct (Game.get g c); [|reflexivity].
  rewrite options_remove_dead, options_set. reflexivity.
Qed.

Lemma next_player_mod_health g c d :
  Game.next_player (Game.mod_health g c d) = Game.next_player g.
Proof.
  unfold Game.mod_health. destruct (Game.get g c); [|reflexivity].
  rewrite next_player_remove_dead, next_player_set. reflexivity.
Qed.

Lemma turns_played_mod_health g c d :
  Game.turns_played (Game.mod_health g c d) = Game.turns_played g.
Proof.
  unfold Game.mod_health. destruct (Game.get g c); [|reflexivity].
  rewrite turns_played_remove_dead, turns_played_set. reflexivity.
Qed.

Lemma wf_board_mod_health g c d :
  wf_board g -> wf_board (Game.mod_health g c d).
Proof.
  intros Hwf. unfold Game.mod_health. destruct (Game.get g c); [|exact Hwf].
  apply wf_board_remove_dead, wf_board_set, Hwf.
Qed.

Lemma get_mod_health_eq g c d :
  wf_board g ->
  Game.get (Game.mod_health g c d) c
  = match Game.get g c with
    | Some u => survivor (Unit.mod_health u d)
    | None => None
    end.
Proof.
  intros Hwf. unfold Game.mod_health.
  destruct (Game.get g c) as [u|] eqn:Hg; [|exact Hg].
  rewrite get_remove_dead_eq by (apply wf_board_set, Hwf).
  rewrite get_set_eq; [reflexivity|exact Hwf|exact (get_valid g c u Hg)].
Qed.

Lemma get_mod_health_ne g c d c' :
  c <> c' -> Game.get (Game.mod_health g c d) c' = Game.get g c'.
Proof.
  intros Hne. unfold Game.mod_health.
  destruct (Game.get g c) as [u|]; [|reflexivity].
  rewrite get_remove_dead_ne by exact Hne. apply get_set_ne, Hne.
Qed.

(** * Health stays within [0, 9] *)

Lemma unit_mod_health_clamp u d :
  Unit.health (Unit.mod_health u d) = Z.max 0 (Z.min 9 (Unit.health u + d)).
Proof.
  unfold Unit.mod_health.
  destruct (Unit.health u + d <? 0) eqn:E1; [simpl; lia|].
  destruct (Unit.health u + d >? 9) eqn:E2; simpl; lia.
Qed.

Lemma unit_mod_health_range u d : health_in_range (Unit.mod_health u d).
Proof. unfold health_in_range. rewrite unit_mod_health_clamp. lia. Qed.

Lemma unit_mod_health_player u d :
  Unit.player (Unit.mod_health u d) = Unit.player u.
Proof.
  unfold Unit.mod_health.
  destruct (_ <? 0); [reflexivity|]. destruct (_ >? 9); reflexivity.
Qed.

Lemma unit_mod_health_type u d :
  Unit.type (Unit.mod_health u d) = Unit.type u.
Proof.
  unfold Unit.mod_health.
  destruct (_ <? 0); [reflexivity|]. destruct (_ >? 9); reflexivity.
Qed.

Lemma health_trace_range u deltas :
  Forall health_in_range (health_trace u deltas).
Proof.
  revert u. induction deltas as [|d rest IH]; intros u; simpl.
  - constructor.
  - constructor; [apply unit_mod_health_range|apply IH].
Qed.

Lemma wf_units_mod_health g c d :
  wf_board g -> wf_units g -> wf_units (Game.mod_health g c d).
Proof.
  intros Hwf Hu c' u' Hget.
  destruct (decide (c = c')) as [<-|Hne].
  - rewrite get_mod_health_eq in Hget by exact Hwf.
    destruct (Game.get g c) as [u|]; [|discriminate].
    unfold survivor in Hget.
    destruct (Unit.is_alive _); inversion Hget; subst.
    apply unit_mod_health_range.
  - rewrite get_mod_health_ne in Hget by exact Hne. eapply Hu, Hget.
Qed.

(** C3. Health invariant: [Unit.mod_health] clamps the new health below
    at 0 and above at 9, so along every sequence of health modifications
    of a unit the health stays within [0, 9]; and [Game.mod_health],
    through which damage, repair and self-destruct splash all go, leaves
    in the cell it touches either no unit or one with health in [0, 9]. *)
Theorem health_always_within_0_9 :
  (forall u d,
     Unit.health (Unit.mod_health u d) = Z.max 0 (Z.min 9 (Unit.health u + d)))
  /\ (forall u deltas,
        Forall (fun u' => 0 <= Unit.health u' <= 9) (health_trace u deltas))
  /\ (forall g c d u',
        wf_board g -> Game.get (Game.mod_health g c d) c = Some u' ->
        0 <= Unit.health u' <= 9).
Proof.
  split; [exact unit_mod_health_clamp|].
  split; [exact health_trace_range|].
  intros g c d u' Hwf Hget.
  rewrite get_mod_health_eq in Hget by exact Hwf.
  destruct (Game.get g c) as [u|]; [|discriminate].
  unfold survivor in Hget.
  destruct (Unit.is_alive _); inversion Hget; subst.
  apply unit_mod_health_range.
Qed.

(** * Combat *)

(** C4. In a combat move (a valid move onto an enemy unit) both damage
    amounts are computed from the two units as they are before the
    exchange, and both are applied: the cell of the defender holds what
    survives of the defender after the attacker's damage, and the cell
    of the attacker holds what survives of the attacker after the
    defender's counter-damage, whether or not the defender survived. *)
Theorem combat_is_simultaneous g coords uS uD :
  wf_board g ->
  Game.is_valid_move g coords = true ->
  Game.get g (CoordPair.src coords) = Some uS ->
  Game.get g (CoordPair.dst coords) = Some uD ->
  Unit.player uS <> Unit.player uD ->
  let dmg := Unit.damage_amount uS uD in
  let sdmg := Unit.damage_amount uD uS in
  let g' := snd (Game.perform_move g coords) in
  fst (Game.perform_move g coords) = true
  /\ Game.get g' (CoordPair.dst coords) = survivor (Unit.mod_health uD (- dmg))
  /\ Game.get g' (CoordPair.src coords) = survivor (Unit.mod_health uS (- sdmg)).
Proof.
  intros Hwf Hvalid Hsrc Hdst Hpl. simpl.
  assert (Hne : CoordPair.dst coords <> CoordPair.src coords).
  { intros E. rewrite E in Hdst. congruence. }
  unfold Game.perform_move. rewrite Hvalid.
  rewrite bool_decide_eq_false_2 by exact Hne.
  rewrite Hsrc, Hdst.
  rewrite bool_decide_eq_true_2 by exact Hpl. simpl.
  split; [reflexivity|]. split.
  - rewrite get_mod_health_ne by congruence.
    rewrite get_mod_health_eq by exact Hwf. rewrite Hdst. reflexivity.
  - rewrite get_mod_health_eq by (apply wf_board_mod_health, Hwf).
    rewrite get_mod_health_ne by exact Hne. rewrite Hsrc. reflexivity.
Qed.

(** * Self-destruct *)

Lemma flat_map_bind {A B} (f : A -> list B) (l : list A) :
  flat_map f l = l ≫= f.
Proof. induction l as [|x l IH]; simpl; [reflexivity|]. rewrite IH. reflexivity. Qed.

Lemma elem_of_range lo hi x : x ∈ range lo hi <-> lo <= x < hi.
Proof.
  unfold range. rewrite list_elem_of_fmap. split.
  - intros (i & -> & Hi). apply elem_of_seq in Hi. lia.
  - intros H. exists (Z.to_nat (x - lo)). split; [lia|].
    apply elem_of_seq. lia.
Qed.

Lemma NoDup_range lo hi : NoDup (range lo hi).
Proof.
  unfold range. apply NoDup_fmap_2; [|apply NoDup_seq].
  intros i j H. lia.
Qed.

Lemma length_range lo hi : length (range lo hi) = Z.to_nat (hi - lo).
Proof. unfold range. rewrite length_map, length_seq. reflexivity. Qed.

Lemma elem_of_iter_range s dist c :
  c ∈ Coord.iter_range s dist
  <-> Coord.row s - dist <= Coord.row c <= Coord.row s + dist
      /\ Coord.col s - dist <= Coord.col c <= Coord.col s + dist.
Proof.
  unfold Coord.iter_range. rewrite flat_map_bind, list_elem_of_bind. split.
  - intros (r & Hc & Hr). apply list_elem_of_fmap in Hc as (k & -> & Hk).
    apply elem_of_range in Hr, Hk. simpl. lia.
  - intros [Hr Hc]. exists (Coord.row c). split.
    + apply list_elem_of_fmap. exists (Coord.col c).
      split; [destruct c; reflexivity|]. apply elem_of_range. lia.
    + apply elem_of_range. lia.
Qed.

Lemma NoDup_iter_range s dist : NoDup (Coord.iter_range s dist).
Proof.
  unfold Coord.iter_range. rewrite flat_map_bind. apply NoDup_bind.
  - intros r1 r2 c _ _ H1 H2.
    apply list_elem_of_fmap in H1 as (k1 & -> & _).
    apply list_elem_of_fmap in H2 as (k2 & E & _).
    simpl in E. inversion E. reflexivity.
  - intros r _. apply NoDup_fmap_2; [|apply NoDup_range].
    intros k1 k2 E. inversion E. reflexivity.
  - apply NoDup_range.
Qed.

Lemma chebyshev_iter_range s c :
  c ∈ Coord.iter_range s 1 <-> chebyshev s c <= 1.
Proof. rewrite elem_of_iter_range. unfold chebyshev. lia. Qed.

(** The board after a splash: [mod_health] with one delta over a list
    of distinct cells. *)
Lemma get_fold_mod_health d cs :
  NoDup cs -> forall g, wf_board g -> forall c,
  Game.get (fold_left (fun g a => Game.mod_health g a d) cs g) c
  = if decide (c ∈ cs)
    then match Game.get g c with
         | Some u => survivor (Unit.mod_health u d)
         | None => None
         end
    else Game.get g c.
Proof.
  induction 1 as [|a cs Hnotin Hnd IH]; intros g Hwf c; simpl.
  - destruct (decide (c ∈ [])) as [H|_]; [inversion H|reflexivity].
  - rewrite IH by (apply wf_board_mod_health, Hwf).
    destruct (decide (c = a)) as [->|Hne].
    + destruct (decide (a ∈ cs)) as [H|_]; [contradiction|].
      destruct (decide (a ∈ a :: cs)) as [_|H]; [|exfalso; apply H; left].
      apply get_mod_health_eq, Hwf.
    + rewrite get_mod_health_ne by congruence.
      destruct (decide (c ∈ cs)) as [H|H];
        destruct (decide (c ∈ a :: cs)) as [H'|H']; try reflexivity.
      * exfalso. apply H'. right. exact H.
      * exfalso. apply elem_of_cons in H' as [?|?]; contradiction.
Qed.

Lemma wf_board_fold_mod_health d cs g :
  wf_board g -> wf_board (fold_left (fun g a => Game.mod_health g a d) cs g).
Proof.
  revert g. induction cs as [|a cs IH]; intros g Hwf; simpl; [exact Hwf|].
  apply IH, wf_board_mod_health, Hwf.
Qed.

(** C5. A self-destruct move (src = dst, on a unit of the side to move)
    leaves the acting unit with health 0 and removes it from the board;
    every other unit within Chebyshev distance 1 of src loses exactly 2
    health, clamped at 0 (a unit that reaches 0 leaves the board); every
    cell at Chebyshev distance greater than 1 is unchanged. *)
Theorem self_destruct_effect g src uS :
  wf_board g ->
  wf_units g ->
  Game.get g src = Some uS ->
  Unit.player uS = Game.next_player g ->
  let g' := snd (Game.perform_move g (CoordPair.mk src src)) in
  fst (Game.perform_move g (CoordPair.mk src src)) = true
  /\ Unit.health (acting_unit_after uS) = 0
  /\ Game.get g' src = None
  /\ (forall c u, c <> src -> chebyshev src c <= 1 ->
        Game.get g c = Some u ->
        Game.get g' c
        = survivor (Unit.set_health u (Z.max 0 (Unit.health u - 2))))
  /\ (forall c, c <> src -> chebyshev src c <= 1 ->
        Game.get g c = None -> Game.get g' c = None)
  /\ (forall c, chebyshev src c > 1 -> Game.get g' c = Game.get g c).
Proof.
  intros Hwf Hunits Hsrc Hpl. simpl.
  assert (Hvalid : Game.is_valid_move g (CoordPair.mk src src) = true).
  { unfold Game.is_valid_move. simpl.
    rewrite (get_valid g src uS Hsrc), Hsrc. simpl.
    rewrite bool_decide_eq_false_2 by (intros H; apply H, Hpl).
    rewrite bool_decide_eq_true_2 by reflexivity. reflexivity. }
  unfold Game.perform_move. rewrite Hvalid. simpl.
  rewrite bool_decide_eq_true_2 by reflexivity.
  set (g1 := fold_left (fun g a => Game.mod_health g a (-2))
                       (Coord.iter_range src 1) g).
  assert (Hwf1 : wf_board g1) by (apply wf_board_fold_mod_health, Hwf).
  assert (Hg1 : forall c, Game.get g1 c
                = if decide (c ∈ Coord.iter_range src 1)
                  then match Game.get g c with
                       | Some u => survivor (Unit.mod_health u (-2))
                       | None => None
                       end
                  else Game.get g c).
  { intros c. apply get_fold_mod_health; [apply NoDup_iter_range|exact Hwf]. }
  assert (Hfinal : forall c, c <> src ->
            Game.get (match Game.get g1 src with
                      | Some u => (true, Game.mod_health g1 src (- Unit.health u))
                      | None => (true, g1)
                      end).2 c = Game.get g1 c).
  { intros c Hc. destruct (Game.get g1 src); simpl; [|reflexivity].
    apply get_mod_health_ne. congruence. }
  assert (Hfst : forall (o : option Unit.t),
            (match o with
             | Some u => (true, Game.mod_health g1 src (- Unit.health u))
             | None => (true, g1)
             end).1 = true) by (intros [u|]; reflexivity).
  split; [apply Hfst|].
  split.
  { unfold acting_unit_after.
    destruct (Unit.is_alive (Unit.mod_health uS (-2))) eqn:Ea.
    - rewrite unit_mod_health_clamp.
      pose proof (unit_mod_health_range uS (-2)) as Hr.
      unfold health_in_range in Hr. lia.
    - unfold Unit.is_alive in Ea.
      pose proof (unit_mod_health_range uS (-2)) as Hr.
      unfold health_in_range in Hr. lia. }
  split.
  { destruct (Game.get g1 src) as [u1|] eqn:E1; simpl; [|exact E1].
    rewrite get_mod_health_eq by exact Hwf1. rewrite E1.
    unfold survivor, Unit.is_alive. rewrite unit_mod_health_clamp.
    destruct (_ >? 0) eqn:E; [lia|reflexivity]. }
  split.
  { intros c u Hc Hd Hget. rewrite Hfinal by exact Hc. rewrite Hg1.
    destruct (decide _) as [_|Hn];
      [|exfalso; apply Hn, chebyshev_iter_range, Hd].
    rewrite Hget. f_equal.
    pose proof (Hunits c u Hget) as Hr. unfold health_in_range in Hr.
    unfold Unit.mod_health.
    destruct (Unit.health u + -2 <? 0) eqn:E1;
      [f_equal; lia|].
    destruct (Unit.health u + -2 >? 9) eqn:E2; [lia|].
    f_equal. lia. }
  split.
  { intros c Hc Hd Hget. rewrite Hfinal by exact Hc. rewrite Hg1, Hget.
    destruct (decide _); reflexivity. }
  intros c Hd.
  assert (Hc : c <> src).
  { intros ->. unfold chebyshev in Hd. lia. }
  rewrite Hfinal by exact Hc. rewrite Hg1.
  destruct (decide _) as [Hin|_]; [|reflexivity].
  apply chebyshev_iter_range in Hin. lia.
Qed.

Lemma wf_board_opening : wf_board opening.
Proof. apply wf_boardb_sound. vm_compute. reflexivity. Qed.

Lemma wf_board_duel : wf_board duel.
Proof. apply wf_boardb_sound. vm_compute. reflexivity. Qed.

(** Three points of damage on the AI at A0: it is left with 6. *)
Lemma health_always_within_0_9_witness :
  0 <= Unit.health (Unit.mk Defender AI 6) <= 9.
Proof.
  exact (proj2 (proj2 health_always_within_0_9)
           duel (Coord.mk 0 0) (-3) (Unit.mk Defender AI 6)
           wf_board_duel eq_refl).
Defined.

(** The Virus at B0 attacks the AI at A0: the AI takes 9 and leaves the
    board, and the Virus still takes the AI's 3. *)
Lemma combat_is_simultaneous_witness :
  let mv := CoordPair.mk (Coord.mk 1 0) (Coord.mk 0 0) in
  Game.get (snd (Game.perform_move duel mv)) (Coord.mk 0 0) = None
  /\ Game.get (snd (Game.perform_move duel mv)) (Coord.mk 1 0)
     = Some (Unit.mk Attacker Virus 6).
Proof.
  pose proof (combat_is_simultaneous duel
                (CoordPair.mk (Coord.mk 1 0) (Coord.mk 0 0))
                (Unit.mk Attacker Virus 9) (Unit.mk Defender AI 9)
                wf_board_duel eq_refl eq_refl eq_refl
                ltac:(discriminate)) as (_ & Hd & Hs).
  split; [exact Hd|exact Hs].
Defined.

Lemma wf_units_opening : wf_units opening.
Proof. apply wf_unitsb_sound. vm_compute. reflexivity. Qed.

(** The Program at C4 self-destructs in the opening position: it leaves
    the board, and the Virus below it drops from 9 to 7. *)
Lemma self_destruct_effect_witness :
  let g' := snd (Game.perform_move opening
                   (CoordPair.mk (Coord.mk 2 4) (Coord.mk 2 4))) in
  Game.get g' (Coord.mk 2 4) = None
  /\ Game.get g' (Coord.mk 3 4) = Some (Unit.mk Attacker Virus 7)
  /\ Game.get g' (Coord.mk 4 4) = Some (Unit.mk Attacker AI 9).
Proof.
  pose proof (self_destruct_effect opening (Coord.mk 2 4)
                (Unit.mk Attacker Program 9)
                wf_board_opening wf_units_opening eq_refl eq_refl)
    as (_ & _ & Hsrc & Hnear & _ & Hfar).
  split; [exact Hsrc|]. split.
  - exact (Hnear (Coord.mk 3 4) (Unit.mk Attacker Virus 9)
             ltac:(discriminate) ltac:(vm_compute; discriminate) eq_refl).
  - exact (Hfar (Coord.mk 4 4) eq_refl).
Defined.

(** * Move validation *)

(** What the validator does guarantee about an accepted destination:
    the column distance is at most one. *)
Lemma is_valid_move_column_bound g coords :
  Game.is_valid_move g coords = true ->
  Z.abs (Coord.col (CoordPair.src coords) - Coord.col (CoordPair.dst coords))
  <= 1.
Proof.
  unfold Game.is_valid_move. intros H.
  destruct (negb _ || negb _); [discriminate|].
  destruct (Game.get g (CoordPair.src coords)) as [uS|]; [|discriminate].
  destruct (bool_decide (Unit.player uS ≠ _)); [discriminate|].
  destruct (bool_decide (CoordPair.dst coords = CoordPair.src coords)) eqn:E.
  - apply bool_decide_eq_true in E. rewrite E. lia.
  - destruct (Z.abs _ >? 1) eqn:E1; [discriminate|]. lia.
Qed.

(** An accepted move of an AI, Firewall or Program to an empty cell:
    the unit is not engaged, and the destination lies in the forward
    column or in the forward row of its side. *)
Lemma is_valid_move_engagement g coords uS :
  Game.is_valid_move g coords = true ->
  CoordPair.dst coords <> CoordPair.src coords ->
  Game.get g (CoordPair.src coords) = Some uS ->
  Game.get g (CoordPair.dst coords) = None ->
  Unit.type uS <> Tech -> Unit.type uS <> Virus ->
  Game.in_combat g (CoordPair.src coords) = false
  /\ (Unit.player uS = Attacker ->
      Coord.col (CoordPair.dst coords) = Coord.col (CoordPair.src coords) - 1
      \/ Coord.row (CoordPair.dst coords) = Coord.row (CoordPair.src coords) - 1)
  /\ (Unit.player uS = Defender ->
      Coord.col (CoordPair.dst coords) = Coord.col (CoordPair.src coords) + 1
      \/ Coord.row (CoordPair.dst coords) = Coord.row (CoordPair.src coords) + 1).
Proof.
  unfold Game.is_valid_move. intros H Hne Hs Hd Ht Hv. rewrite Hs, Hd in H.
  destruct (negb _ || negb _); [discriminate|].
  destruct (bool_decide (Unit.player uS ≠ _)); [discriminate|].
  rewrite bool_decide_eq_false_2 in H by exact Hne.
  destruct (Z.abs _ >? 1); [discriminate|].
  unfold Game.direction_check in H.
  rewrite !bool_decide_eq_true_2 in H by assumption. simpl in H.
  destruct (bool_decide (Unit.player uS = Attacker)) eqn:EA;
    destruct (bool_decide (Unit.player uS = Defender)) eqn:ED;
    destruct (bool_decide (Coord.col (CoordPair.dst coords) ≠ Coord.col (CoordPair.src coords) - 1)) eqn:E1;
    destruct (bool_decide (Coord.row (CoordPair.dst coords) ≠ Coord.row (CoordPair.src coords) - 1)) eqn:E2;
    destruct (bool_decide (Coord.col (CoordPair.dst coords) ≠ Coord.col (CoordPair.src coords) + 1)) eqn:E3;
    destruct (bool_decide (Coord.row (CoordPair.dst coords) ≠ Coord.row (CoordPair.src coords) + 1)) eqn:E4;
    simpl in H; try discriminate;
    destruct (Game.in_combat g (CoordPair.src coords)); try discriminate;
    repeat match goal with
           | E : bool_decide _ = true |- _ => apply bool_decide_eq_true in E
           | E : bool_decide _ = false |- _ => apply bool_decide_eq_false in E
           end;
    (split; [reflexivity|]); split; intros Hp; try congruence;
    try (left; lia); try (right; lia).
Qed.

(** C1. The validator bounds the column distance only.  In the opening
    position it accepts the Attacker's move D4 -> A4, three rows up the
    board, and the diagonal move D4 -> C3: accepted destinations that
    are not orthogonal neighbours of the source. *)
Theorem is_valid_move_accepts_non_neighbors :
  let far := CoordPair.mk (Coord.mk 3 4) (Coord.mk 0 4) in
  let diag := CoordPair.mk (Coord.mk 3 4) (Coord.mk 2 3) in
  Game.is_valid_move opening far = true
  /\ CoordPair.src far <> CoordPair.dst far
  /\ ~ orthogonal_neighbor (CoordPair.src far) (CoordPair.dst far)
  /\ Game.is_valid_move opening diag = true
  /\ CoordPair.src diag <> CoordPair.dst diag
  /\ ~ orthogonal_neighbor (CoordPair.src diag) (CoordPair.dst diag).
Proof.
  simpl. repeat split; try reflexivity; try discriminate;
    unfold orthogonal_neighbor; simpl; lia.
Qed.

(** C6. The direction test of AI, Firewall and Program accepts a
    destination that matches the forward row or the forward column.  In
    the opening position the Attacker's Program at C4 may move to the
    empty cell B3, which is neither the cell above it nor the cell to
    its left. *)
Theorem direction_check_accepts_diagonal :
  let src := Coord.mk 2 4 in
  let dst := Coord.mk 1 3 in
  Game.get opening src = Some (Unit.mk Attacker Program 9)
  /\ Game.get opening dst = None
  /\ Game.is_valid_move opening (CoordPair.mk src dst) = true
  /\ dst <> Coord.mk (Coord.row src - 1) (Coord.col src)
  /\ dst <> Coord.mk (Coord.row src) (Coord.col src - 1).
Proof. simpl. repeat split; try reflexivity; discriminate. Qed.

(** * Game termination *)

(** C7. [has_winner]: once the configured turn limit is reached the
    Defender wins whatever the board holds; below the limit, the side
    whose AI survives wins when exactly one AI has been eliminated, and
    the result is undecided while both AIs are alive. *)
Theorem has_winner_resolution g :
  (turn_limit_reached g -> Game.has_winner g = Some Defender)
  /\ (~ turn_limit_reached g ->
      Game._attacker_has_ai g = true -> Game._defender_has_ai g = false ->
      Game.has_winner g = Some Attacker)
  /\ (~ turn_limit_reached g ->
      Game._attacker_has_ai g = false -> Game._defender_has_ai g = true ->
      Game.has_winner g = Some Defender)
  /\ (~ turn_limit_reached g ->
      Game._attacker_has_ai g = true -> Game._defender_has_ai g = true ->
      Game.has_winner g = None).
Proof.
  unfold turn_limit_reached, Game.has_winner.
  destruct (Options.max_turns (Game.options g)) as [m|].
  - destruct (Game.turns_played g >=? m) eqn:E.
    + repeat split; intros; try reflexivity; lia.
    + repeat split; intros; try lia;
        repeat match goal with H : _ = _ |- _ => rewrite H end; reflexivity.
  - repeat split; intros; try contradiction;
      repeat match goal with H : _ = _ |- _ => rewrite H end; reflexivity.
Qed.

Lemma has_winner_resolution_witness :
  Game.has_winner (Game.mk [] Attacker 100 Options.default true true)
  = Some Defender
  /\ Game.has_winner (Game.mk [] Attacker 7 Options.default true false)
     = Some Attacker
  /\ Game.has_winner (Game.mk [] Attacker 7 Options.default false true)
     = Some Defender
  /\ Game.has_winner (Game.mk [] Attacker 7 Options.default true true)
     = None.
Proof.
  split; [|split; [|split]].
  - apply (proj1 (has_winner_resolution
                    (Game.mk [] Attacker 100 Options.default true true))).
    unfold turn_limit_reached; simpl; lia.
  - apply (proj1 (proj2 (has_winner_resolution
                    (Game.mk [] Attacker 7 Options.default true false))));
      [unfold turn_limit_reached; simpl; lia|reflexivity|reflexivity].
  - apply (proj1 (proj2 (proj2 (has_winner_resolution
                    (Game.mk [] Attacker 7 Options.default false true)))));
      [unfold turn_limit_reached; simpl; lia|reflexivity|reflexivity].
  - apply (proj2 (proj2 (proj2 (has_winner_resolution
                    (Game.mk [] Attacker 7 Options.default true true)))));
      [unfold turn_limit_reached; simpl; lia|reflexivity|reflexivity].
Defined.

(** * Move suggestion at depth 0 and the branching factor *)

Lemma minimax_depth_0 clock alpha beta max_player self game st :
  Search.minimax clock 0 alpha beta max_player self game st
  = Search.leaf self game (Stats.increment_evaluations (fst st) 0, snd st).
Proof. reflexivity. Qed.

Lemma suggest_move_opening_depth_0 :
  Search.suggest_move (fun _ => false) opening_depth_0 (Stats.empty, 0%nat)
  = Raised (KeyError 1).
Proof. vm_compute. reflexivity. Qed.

(** C8. The branching factor is the unguarded quotient
    [evaluations_per_depth[0] / evaluations_per_depth[1]]: it raises
    [KeyError] whenever the bucket of depth 1 is absent.  With max depth
    0 the search of the opening position visits one node, at depth 0,
    and [suggest_move] raises [KeyError] where a "not computable"
    report is specified. *)
Theorem branching_factor_raises_at_depth_0 :
  Search.suggest_move (fun _ => false) opening_depth_0 (Stats.empty, 0%nat)
  = Raised (KeyError 1)
  /\ Search.branching_factor (Stats.mk {[ 0%nat := 1 ]} 0)
     = Raised (KeyError 1).
Proof. split; [exact suggest_move_opening_depth_0|reflexivity]. Qed.

(** C9 as specified fails on the opening position searched to depth
    0: the side to move has a legal move (C4 -> B4), the search
    yields its score with no move, and [suggest_move] returns no move. *)
Lemma depth_0_returns_legal_move_fails :
  Game.is_valid_move opening_depth_0
    (CoordPair.mk (Coord.mk 2 4) (Coord.mk 1 4)) = true
  /\ Search.minimax (fun _ => false) 0 MIN_HEURISTIC_SCORE
       MAX_HEURISTIC_SCORE true opening_depth_0 opening_depth_0
       (Stats.empty, 0%nat)
     = Returned (62, None, (Stats.mk {[ 0%nat := 1 ]} 0, 0%nat))
  /\ ~ depth_0_returns_legal_move (fun _ => false) opening_depth_0
        (Stats.empty, 0%nat).
Proof.
  split; [reflexivity|]. split; [vm_compute; reflexivity|].
  intros H. destruct H as (m & st' & Hs & _).
  - exists (CoordPair.mk (Coord.mk 2 4) (Coord.mk 1 4)). reflexivity.
  - rewrite suggest_move_opening_depth_0 in Hs. discriminate.
Qed.

(** C9, amended. With max depth 0 the search is one leaf evaluation: it
    scores the current state itself with the heuristic, looks at no
    candidate move and yields no move, so that [suggest_move] never
    returns a move. *)
Theorem suggest_move_depth_0_yields_no_move clock g st :
  wf_board g ->
  Options.max_depth (Game.options g) = 0%nat ->
  (forall h, Search.heuristic_e2 g g = Returned h ->
     Search.minimax clock 0 MIN_HEURISTIC_SCORE MAX_HEURISTIC_SCORE true g g st
     = Returned (h, None, (Stats.increment_evaluations (fst st) 0, snd st)))
  /\ (forall m st', Search.suggest_move clock g st <> Returned (Some m, st')).
Proof.
  intros _ Hd. split.
  - intros h Hh. rewrite minimax_depth_0. unfold Search.leaf.
    rewrite Hh. reflexivity.
  - intros m st'. unfold Search.suggest_move. rewrite Hd, minimax_depth_0.
    unfold Search.leaf. destruct (Search.heuristic_e2 g g); [|discriminate].
    destruct (Search.percentages _ _); [|discriminate].
    destruct (Search.branching_factor _); discriminate.
Qed.

Lemma suggest_move_depth_0_yields_no_move_witness :
  Search.minimax (fun _ => false) 0 MIN_HEURISTIC_SCORE MAX_HEURISTIC_SCORE
    true opening_depth_0 opening_depth_0 (Stats.empty, 0%nat)
  = Returned (62, None, (Stats.increment_evaluations Stats.empty 0, 0%nat)).
Proof.
  exact (proj1 (suggest_move_depth_0_yields_no_move (fun _ => false)
                  opening_depth_0 (Stats.empty, 0%nat)
                  (wf_boardb_sound opening_depth_0 eq_refl) eq_refl)
           62 eq_refl).
Defined.

(** * The move parser *)

Lemma string_length_4 s :
  String.length s = 4%nat ->
  exists c0 c1 c2 c3,
    s = String c0 (String c1 (String c2 (String c3 EmptyString))).
Proof.
  destruct s as [|c0 [|c1 [|c2 [|c3 [|c4 s]]]]]; simpl; try discriminate.
  intros _. eauto.
Qed.

Lemma lstrip_whitespace l x :
  Forall whitespace l -> Unicode.lstrip (l ++ x) = Unicode.lstrip x.
Proof.
  induction 1 as [|c l Hc _ IH]; [reflexivity|].
  simpl. unfold whitespace in Hc. rewrite Hc. exact IH.
Qed.

Lemma lstrip_trimmed x :
  (forall c, head x = Some c -> Unicode.is_space c = false) ->
  Unicode.lstrip x = x.
Proof.
  destruct x as [|c x]; [reflexivity|]. intros H. simpl.
  rewrite (H c eq_refl). reflexivity.
Qed.

Lemma lstrip_all l : Forall whitespace l -> Unicode.lstrip l = [].
Proof.
  intros H. rewrite <- (app_nil_r l). rewrite lstrip_whitespace by exact H.
  reflexivity.
Qed.

(** [strip] takes the whitespace off both ends and nothing else. *)
Lemma strip_spec l m r :
  Forall whitespace l -> Forall whitespace r -> trimmed m ->
  Unicode.strip (l ++ m ++ r) = m.
Proof.
  intros Hl Hr [Hh Ht]. unfold Unicode.strip, Unicode.rstrip.
  rewrite lstrip_whitespace by exact Hl.
  destruct m as [|c m].
  - simpl. rewrite (lstrip_all r Hr). reflexivity.
  - rewrite (lstrip_trimmed ((c :: m) ++ r))
      by (intros c' E; apply Hh; exact E).
    rewrite reverse_app.
    rewrite lstrip_whitespace by (apply Forall_reverse; exact Hr).
    rewrite (lstrip_trimmed (reverse (c :: m))).
    + apply reverse_involutive.
    + intros c' E. apply Ht. rewrite <- head_reverse. exact E.
Qed.

Lemma lstrip_split s :
  exists l x, s = l ++ x /\ Forall whitespace l
              /\ (forall c, head x = Some c -> Unicode.is_space c = false).
Proof.
  induction s as [|c s (l & x & E & Hl & Hx)].
  - exists [], []. repeat split; [constructor|discriminate].
  - destruct (Unicode.is_space c) eqn:Hc.
    + exists (c :: l), x. subst s. repeat split; [|exact Hx].
      constructor; assumption.
    + exists [], (c :: s). repeat split; [constructor|].
      intros c' E'. inversion E'; subst. exact Hc.
Qed.

(** Every text is a trimmed text between whitespace. *)
Lemma strip_split s :
  exists l m r, s = l ++ m ++ r /\ Forall whitespace l
                /\ Forall whitespace r /\ trimmed m.
Proof.
  destruct (lstrip_split s) as (l & x & -> & Hl & Hx).
  destruct (lstrip_split (reverse x)) as (r' & m' & E & Hr & Hm).
  exists l, (reverse m'), (reverse r').
  assert (Ex : x = reverse m' ++ reverse r').
  { rewrite <- reverse_app, <- E. symmetry. apply reverse_involutive. }
  split; [rewrite Ex; reflexivity|]. split; [exact Hl|].
  split; [apply Forall_reverse; exact Hr|]. split.
  - intros c Hc. apply Hx. rewrite Ex.
    destruct (reverse m'); [discriminate|exact Hc].
  - intros c Hc. apply Hm. rewrite <- last_reverse. exact Hc.
Qed.

Lemma remove_char_filter sep s :
  Unicode.remove_char sep s = filter (fun c => c <> sep) s.
Proof.
  induction s as [|c s IH]; [reflexivity|]. cbn [Unicode.remove_char].
  destruct (N.eqb_spec c sep) as [->|Hne].
  - rewrite filter_cons_False by (intros H; apply H; reflexivity). exact IH.
  - rewrite filter_cons_True by exact Hne. rewrite IH. reflexivity.
Qed.

Lemma fold_remove_char seps s :
  fold_left (fun s sep => Unicode.remove_char sep s) seps s
  = filter (fun c => c ∉ seps) s.
Proof.
  revert s. induction seps as [|sep seps IH]; intros s; simpl.
  - induction s as [|c s IHs]; [reflexivity|].
    rewrite filter_cons_True by (intros H; inversion H).
    rewrite <- IHs. reflexivity.
  - rewrite IH, remove_char_filter, list_filter_filter.
    apply list_filter_iff. intros c. rewrite not_elem_of_cons. tauto.
Qed.

(** The separator loop removes every separator and nothing else. *)
Lemma remove_separators_kept s : Unicode.remove_separators s = kept s.
Proof.
  unfold Unicode.remove_separators, kept. rewrite fold_remove_char.
  apply list_filter_iff. intros c. unfold is_separator.
  rewrite bool_decide_eq_false. reflexivity.
Qed.

Lemma find_from_singleton_notin s c i :
  c ∉ s -> Unicode.find_from s [c] i = -1.
Proof.
  revert i. induction s as [|x s IH]; intros i Hc; [reflexivity|].
  apply not_elem_of_cons in Hc as [Hne Hc]. cbn [Unicode.find_from Unicode.is_prefix].
  destruct (N.eqb_spec c x) as [->|_]; [contradiction|].
  cbn [andb]. apply IH, Hc.
Qed.

Lemma case_lookup_Some table c v :
  Unicode.case_lookup table c = Some v -> (c, v) ∈ table.
Proof.
  induction table as [|[k w] table IH]; simpl; [discriminate|].
  destruct (N.eqb_spec k c) as [->|_].
  - intros E. inversion E. left.
  - intros E. right. apply IH, E.
Qed.

Lemma forallb_elem_of {A} (f : A -> bool) l x :
  forallb f l = true -> x ∈ l -> f x = true.
Proof.
  intros H Hx. rewrite forallb_forall in H. apply H, list_elem_of_In, Hx.
Qed.

Lemma below_128 (P : N -> bool) c :
  forallb (fun n => P (N.of_nat n)) (seq 0 128) = true ->
  (c < 128)%N -> P c = true.
Proof.
  intros H Hc. rewrite forallb_forall in H.
  rewrite <- (N2Nat.id c). apply H, in_seq. lia.
Qed.

(** The row of a character: the position of its upper-case form in the
    row alphabet. *)
Lemma row_value_spec c :
  Unicode.find Unicode.ROWS (Unicode.upper_char c) = row_value c.
Proof.
  destruct (N.ltb_spec c 128) as [Hc|Hc].
  - apply Z.eqb_eq.
    apply (below_128
             (fun c => Unicode.find Unicode.ROWS (Unicode.upper_char c)
                       =? row_value c));
      [vm_compute; reflexivity|exact Hc].
  - unfold Unicode.upper_char.
    destruct (Unicode.case_lookup Unicode.upper_table c) as [v|] eqn:E.
    + apply case_lookup_Some in E.
      apply Z.eqb_eq.
      apply (forallb_elem_of
               (fun kv => Unicode.find Unicode.ROWS (snd kv)
                          =? row_value (fst kv))
               Unicode.upper_table (c, v));
        [vm_compute; reflexivity|exact E].
    + simpl.
      assert (Hl : row_letter c = false).
      { unfold row_letter.
        destruct (N.leb_spec c 0x5a); [lia|].
        destruct (N.leb_spec c 0x7a); [lia|].
        rewrite !andb_false_r. reflexivity. }
      unfold row_value. rewrite Hl.
      destruct (N.eqb_spec c 0x131) as [->|_];
        [vm_compute in E; discriminate|].
      destruct (N.eqb_spec c 0x17f) as [->|_];
        [vm_compute in E; discriminate|].
      destruct (N.eqb_spec c 0xfb05) as [->|_];
        [vm_compute in E; discriminate|].
      destruct (N.eqb_spec c 0xfb06) as [->|_];
        [vm_compute in E; discriminate|].
      simpl. apply find_from_singleton_notin.
      intros Hin.
      assert (H : Forall (fun x => (x < 128)%N) Unicode.ROWS)
        by (vm_compute; repeat constructor).
      rewrite Forall_forall in H. specialize (H c Hin). lia.
Qed.

(** The column of a character: the position of its lower-case form in
    the column alphabet. *)
Lemma column_value_spec c :
  Unicode.find Unicode.COLS (Unicode.lower_char c) = column_value c.
Proof.
  destruct (N.ltb_spec c 128) as [Hc|Hc].
  - apply Z.eqb_eq.
    apply (below_128
             (fun c => Unicode.find Unicode.COLS (Unicode.lower_char c)
                       =? column_value c));
      [vm_compute; reflexivity|exact Hc].
  - assert (Hd : column_value c = -1).
    { unfold column_value, column_digit.
      destruct (N.leb_spec c 0x39); [lia|].
      destruct (N.leb_spec c 0x46); [lia|].
      destruct (N.leb_spec c 0x66); [lia|].
      rewrite !andb_false_r. reflexivity. }
    rewrite Hd. unfold Unicode.lower_char.
    destruct (Unicode.case_lookup Unicode.lower_table c) as [v|] eqn:E.
    + apply case_lookup_Some in E.
      assert (Hb : ((c <? 128)%N || (Unicode.find Unicode.COLS v =? -1))
                   = true).
      { apply (forallb_elem_of
                 (fun kv => (fst kv <? 128)%N
                            || (Unicode.find Unicode.COLS (snd kv) =? -1))
                 Unicode.lower_table (c, v));
          [vm_compute; reflexivity|exact E]. }
      apply N.ltb_ge in Hc. rewrite Hc in Hb. apply Z.eqb_eq, Hb.
    + simpl. apply find_from_singleton_notin.
      intros Hin.
      assert (H : Forall (fun x => (x < 128)%N) Unicode.COLS)
        by (vm_compute; repeat constructor).
      rewrite Forall_forall in H. specialize (H c Hin). lia.
Qed.

Lemma from_string_four s l m r a b c d :
  s = l ++ m ++ r -> Forall whitespace l -> Forall whitespace r ->
  trimmed m -> kept m = [a; b; c; d] ->
  Unicode.CoordPair.from_string s
  = Some (CoordPair.mk (Coord.mk (row_value a) (column_value b))
                       (Coord.mk (row_value c) (column_value d))).
Proof.
  intros -> Hl Hr Hm Hk. unfold Unicode.CoordPair.from_string.
  rewrite strip_spec by assumption. rewrite remove_separators_kept, Hk.
  cbn [length Nat.eqb Unicode.slice1 lookup list_lookup Unicode.upper
       Unicode.lower].
  rewrite !row_value_spec, !column_value_spec. reflexivity.
Qed.

Lemma from_string_other_length s l m r :
  s = l ++ m ++ r -> Forall whitespace l -> Forall whitespace r ->
  trimmed m -> length (kept m) <> 4%nat ->
  Unicode.CoordPair.from_string s = None.
Proof.
  intros -> Hl Hr Hm Hk. unfold Unicode.CoordPair.from_string.
  rewrite strip_spec by assumption. rewrite remove_separators_kept.
  destruct (Nat.eqb_spec (length (kept m)) 4); [contradiction|reflexivity].
Qed.

(** ** [PyStr] is the Unicode model on Latin-1 text *)

Lemma is_space_latin1 c :
  Unicode.is_space (N_of_ascii c) = PyStr.is_space c.
Proof. destruct c as [[] [] [] [] [] [] [] []]; reflexivity. Qed.

Lemma eqb_latin1 c1 c2 :
  (N_of_ascii c1 =? N_of_ascii c2)%N = Ascii.eqb c1 c2.
Proof.
  destruct (Ascii.eqb_spec c1 c2) as [->|Hne].
  - apply N.eqb_refl.
  - apply N.eqb_neq. intros E. apply Hne.
    rewrite <- (ascii_N_embedding c1), <- (ascii_N_embedding c2), E.
    reflexivity.
Qed.

Lemma lstrip_latin1 s :
  Unicode.lstrip (Unicode.of_string s) = Unicode.of_string (PyStr.lstrip s).
Proof.
  induction s as [|c s IH]; [reflexivity|].
  change (Unicode.of_string (String c s))
    with (N_of_ascii c :: Unicode.of_string s).
  cbn [Unicode.lstrip PyStr.lstrip]. rewrite is_space_latin1.
  destruct (PyStr.is_space c); [exact IH|reflexivity].
Qed.

Lemma rev_string_latin1 s acc :
  Unicode.of_string (PyStr.rev_string s acc)
  = reverse (Unicode.of_string s) ++ Unicode.of_string acc.
Proof.
  revert acc. induction s as [|c s IH]; intros acc; [reflexivity|].
  cbn [PyStr.rev_string]. rewrite IH.
  change (Unicode.of_string (String c s))
    with (N_of_ascii c :: Unicode.of_string s).
  change (Unicode.of_string (String c acc))
    with (N_of_ascii c :: Unicode.of_string acc).
  rewrite reverse_cons, <- app_assoc. reflexivity.
Qed.

Lemma strip_latin1 s :
  Unicode.strip (Unicode.of_string s) = Unicode.of_string (PyStr.strip s).
Proof.
  unfold Unicode.strip, PyStr.strip, Unicode.rstrip, PyStr.rstrip.
  rewrite (rev_string_latin1
             (PyStr.lstrip (PyStr.rev_string (PyStr.lstrip s) EmptyString))).
  rewrite app_nil_r.
  rewrite <- (lstrip_latin1 (PyStr.rev_string (PyStr.lstrip s) EmptyString)).
  rewrite (rev_string_latin1 (PyStr.lstrip s)), app_nil_r.
  rewrite <- lstrip_latin1. reflexivity.
Qed.

Lemma remove_char_latin1 sep s :
  Unicode.remove_char (N_of_ascii sep) (Unicode.of_string s)
  = Unicode.of_string (PyStr.remove_char sep s).
Proof.
  induction s as [|c s IH]; [reflexivity|].
  change (Unicode.of_string (String c s))
    with (N_of_ascii c :: Unicode.of_string s).
  cbn [Unicode.remove_char PyStr.remove_char]. rewrite eqb_latin1.
  destruct (Ascii.eqb c sep); [exact IH|].
  change (Unicode.of_string (String c (PyStr.remove_char sep s)))
    with (N_of_ascii c :: Unicode.of_string (PyStr.remove_char sep s)).
  rewrite IH. reflexivity.
Qed.

Lemma remove_separators_latin1 s :
  Unicode.remove_separators (Unicode.of_string s)
  = Unicode.of_string (PyStr.remove_separators s).
Proof.
  unfold Unicode.remove_separators, PyStr.remove_separators.
  unfold Unicode.of_string at 1.
  generalize (list_ascii_of_string " ,.:;-_"). intros seps. revert s.
  induction seps as [|sep seps IH]; intros s; [reflexivity|].
  cbn [map fold_left]. rewrite remove_char_latin1. apply IH.
Qed.

Lemma length_latin1 s : length (Unicode.of_string s) = String.length s.
Proof.
  induction s as [|c s IH]; [reflexivity|].
  change (Unicode.of_string (String c s))
    with (N_of_ascii c :: Unicode.of_string s).
  simpl. rewrite IH. reflexivity.
Qed.

Lemma row_latin1 c :
  Unicode.find Unicode.ROWS (Unicode.upper_char (N_of_ascii c)) = row_of c.
Proof. destruct c as [[] [] [] [] [] [] [] []]; vm_compute; reflexivity. Qed.

Lemma col_latin1 c :
  Unicode.find Unicode.COLS (Unicode.lower_char (N_of_ascii c)) = col_of c.
Proof. destruct c as [[] [] [] [] [] [] [] []]; vm_compute; reflexivity. Qed.

(** On Latin-1 text the parser of [PyStr] is the parser on Unicode
    text. *)
Lemma from_string_latin1 s :
  Unicode.CoordPair.from_string (Unicode.of_string s)
  = CoordPair.from_string s
  /\ Unicode.Coord.from_string (Unicode.of_string s) = Coord.from_string s.
Proof.
  unfold Unicode.CoordPair.from_string, CoordPair.from_string,
    Unicode.Coord.from_string, Coord.from_string.
  rewrite strip_latin1, remove_separators_latin1, length_latin1.
  fold (cleaned s). split.
  - destruct (Nat.eqb_spec (String.length (cleaned s)) 4) as [E|_];
      [|reflexivity].
    destruct (string_length_4 _ E) as (c0 & c1 & c2 & c3 & ->).
    change (Unicode.of_string
              (String c0 (String c1 (String c2 (String c3 EmptyString)))))
      with [N_of_ascii c0; N_of_ascii c1; N_of_ascii c2; N_of_ascii c3].
    cbn [Unicode.slice1 lookup list_lookup Unicode.upper Unicode.lower].
    rewrite !row_latin1, !col_latin1. reflexivity.
  - destruct (Nat.eqb_spec (String.length (cleaned s)) 2) as [E|_];
      [|reflexivity].
    destruct (cleaned s) as [|c0 [|c1 [|c2 t]]]; try discriminate.
    change (Unicode.of_string (String c0 (String c1 EmptyString)))
      with [N_of_ascii c0; N_of_ascii c1].
    cbn [Unicode.slice1 lookup list_lookup Unicode.upper Unicode.lower].
    rewrite !row_latin1, !col_latin1. reflexivity.
Qed.

(** ** The claim about the parser *)

(** C10, amended.  Every typed text is some [m] between whitespace,
    where [m] neither starts nor ends with whitespace.
    [CoordPair.from_string] returns a pair exactly when four characters
    of [m] are not separators, whatever these characters are, and [None]
    for any other number.  Each component comes from one character: the
    position of a row letter or the value of a column digit, and -1 for
    any other character, except that dotless i is read as row 8 and
    long s and the ligatures long s-t and st as row 18. *)
Theorem from_string_reads_any_4_characters (s : list N) :
  (exists l m r, s = l ++ m ++ r /\ Forall whitespace l
                 /\ Forall whitespace r /\ trimmed m)
  /\ (forall l m r,
        s = l ++ m ++ r -> Forall whitespace l -> Forall whitespace r ->
        trimmed m ->
        (forall a b c d,
           kept m = [a; b; c; d] ->
           Unicode.CoordPair.from_string s
           = Some (CoordPair.mk (Coord.mk (row_value a) (column_value b))
                                (Coord.mk (row_value c) (column_value d))))
        /\ (length (kept m) <> 4%nat ->
            Unicode.CoordPair.from_string s = None))
  /\ (forall c, row_letter c = true -> 0 <= row_value c < 26)
  /\ (forall c, row_letter c = false ->
                c ∉ [0x131; 0x17f; 0xfb05; 0xfb06]%N -> row_value c = -1)
  /\ (forall c, column_digit c = true -> 0 <= column_value c < 16)
  /\ (forall c, column_digit c = false -> column_value c = -1).
Proof.
  split; [apply strip_split|].
  split; [|split; [|split; [|split]]].
  - intros l m r E Hl Hr Hm. split.
    + intros a b c d Hk. eapply from_string_four; eassumption.
    + intros Hk. eapply from_string_other_length; eassumption.
  - intros c H. unfold row_value, letter_position. rewrite H.
    unfold row_letter in H.
    destruct (N.leb_spec 0x41 c), (N.leb_spec c 0x5a),
      (N.leb_spec 0x61 c), (N.leb_spec c 0x7a);
      simpl in H; try discriminate; lia.
  - intros c H Hc. unfold row_value. rewrite H.
    rewrite !not_elem_of_cons in Hc. destruct Hc as (H1 & H2 & H3 & H4 & _).
    apply N.eqb_neq in H1, H2, H3, H4. rewrite H1, H2, H3, H4. reflexivity.
  - intros c H. unfold column_value, digit_value. rewrite H.
    unfold column_digit in H.
    destruct (N.leb_spec 0x30 c), (N.leb_spec c 0x39),
      (N.leb_spec 0x41 c), (N.leb_spec c 0x46),
      (N.leb_spec 0x61 c), (N.leb_spec c 0x66);
      simpl in H; try discriminate; lia.
  - intros c H. unfold column_value. rewrite H. reflexivity.
Qed.

(** A tab, "?g!F," and a space: the four characters "?g!F" are read as
    a pair, with -1 for '?', 'g' (not a digit) and '!', and 15 for 'F';
    "A3B" is not read. *)
Lemma from_string_reads_any_4_characters_witness :
  Unicode.CoordPair.from_string
    ([0x9]%N ++ Unicode.of_string "?g!F," ++ [0x20]%N)
  = Some (CoordPair.mk (Coord.mk (-1) (-1)) (Coord.mk (-1) 15))
  /\ Unicode.CoordPair.from_string (Unicode.of_string "A3B") = None.
Proof.
  split.
  - exact (proj1 (proj1 (proj2 (from_string_reads_any_4_characters
                                  ([0x9]%N ++ Unicode.of_string "?g!F,"
                                   ++ [0x20]%N)))
                    [0x9]%N (Unicode.of_string "?g!F,") [0x20]%N
                    eq_refl
                    ltac:(repeat constructor) ltac:(repeat constructor)
                    ltac:(split; intros c E; inversion E; reflexivity))
             0x3f 0x67 0x21 0x46 eq_refl)%N.
  - exact (proj2 (proj1 (proj2 (from_string_reads_any_4_characters
                                  (Unicode.of_string "A3B")))
                    [] (Unicode.of_string "A3B") []
                    eq_refl
                    ltac:(constructor) ltac:(constructor)
                    ltac:(split; intros c E; inversion E; reflexivity))
             ltac:(vm_compute; discriminate)).
Defined.

(** C10 as specified fails on typed text: long s (U+017F) is not a row
    letter, and the four characters long s, '0', 'A', '1' are read with
    row 18 for it, the row of S. *)
Lemma long_s_is_read_as_row_18 :
  row_letter 0x17f = false
  /\ claimed_row 0x17f = -1
  /\ Unicode.CoordPair.from_string [0x17f; 0x30; 0x41; 0x31]%N
     = Some (CoordPair.mk (Coord.mk 18 0) (Coord.mk 0 1))
  /\ ~ invalid_characters_yield_minus_1.
Proof.
  assert (E : Unicode.CoordPair.from_string [0x17f; 0x30; 0x41; 0x31]%N
              = Some (CoordPair.mk (Coord.mk 18 0) (Coord.mk 0 1)))
    by (vm_compute; reflexivity).
  split; [reflexivity|]. split; [reflexivity|]. split; [exact E|].
  intros H.
  assert (F : four_characters [0x17f; 0x30; 0x41; 0x31]%N
                0x17f 0x30 0x41 0x31).
  { exists [], [0x17f; 0x30; 0x41; 0x31]%N, [].
    split; [reflexivity|]. split; [constructor|]. split; [constructor|].
    split; [split; intros c E'; inversion E'; reflexivity|].
    vm_compute. reflexivity. }
  specialize (H _ _ _ _ _ F). rewrite E in H.
  apply (f_equal (fun o => match o with
                           | Some p => Coord.row (CoordPair.src p)
                           | None => 0
                           end)) in H.
  vm_compute in H. discriminate.
Qed.

(** * Invariants of the moves *)

Lemma wf_units_set g c x :
  wf_board g -> wf_units g ->
  (forall u, x = Some u -> health_in_range u) ->
  wf_units (Game.set g c x).
Proof.
  intros Hwf Hu Hx c' u' Hget.
  destruct (decide (c = c')) as [<-|Hne].
  - destruct (Game.is_valid_coord g c) eqn:Hv.
    + rewrite get_set_eq in Hget by assumption. apply Hx, Hget.
    + unfold Game.set in Hget. rewrite Hv in Hget. eapply Hu, Hget.
  - rewrite get_set_ne in Hget by exact Hne. eapply Hu, Hget.
Qed.

Lemma wf_units_fold_mod_health d cs g :
  wf_board g -> wf_units g ->
  wf_units (fold_left (fun g a => Game.mod_health g a d) cs g).
Proof.
  revert g. induction cs as [|a cs IH]; intros g Hwf Hu; simpl; [exact Hu|].
  apply IH; [apply wf_board_mod_health, Hwf|apply wf_units_mod_health; assumption].
Qed.

Lemma options_fold_mod_health d cs g :
  Game.options (fold_left (fun g a => Game.mod_health g a d) cs g)
  = Game.options g.
Proof.
  revert g. induction cs as [|a cs IH]; intros g; simpl; [reflexivity|].
  rewrite IH. apply options_mod_health.
Qed.

Lemma options_perform_move g m :
  Game.options (snd (Game.perform_move g m)) = Game.options g.
Proof.
  unfold Game.perform_move.
  destruct (Game.is_valid_move g m); [|reflexivity].
  destruct (bool_decide _).
  - destruct (Game.get _ _); simpl;
      rewrite ?options_mod_health; apply options_fold_mod_health.
  - destruct (Game.get g (CoordPair.src m)) as [uS|];
      destruct (Game.get g (CoordPair.dst m)) as [uD|]; simpl;
      rewrite ?options_set; try reflexivity.
    destruct (bool_decide _); simpl; rewrite ?options_mod_health; reflexivity.
Qed.

Lemma wf_board_perform_move g m :
  wf_board g -> wf_board (snd (Game.perform_move g m)).
Proof.
  intros Hwf. unfold Game.perform_move.
  destruct (Game.is_valid_move g m); [|exact Hwf].
  destruct (bool_decide _).
  - destruct (Game.get _ _); simpl;
      [apply wf_board_mod_health|]; apply wf_board_fold_mod_health, Hwf.
  - destruct (Game.get g (CoordPair.src m)) as [uS|];
      destruct (Game.get g (CoordPair.dst m)) as [uD|]; simpl;
      try (apply wf_board_set, wf_board_set, Hwf).
    destruct (bool_decide _); simpl;
      repeat apply wf_board_mod_health; exact Hwf.
Qed.

Lemma wf_units_perform_move g m :
  wf_board g -> wf_units g -> wf_units (snd (Game.perform_move g m)).
Proof.
  intros Hwf Hu. unfold Game.perform_move.
  destruct (Game.is_valid_move g m); [|exact Hu].
  destruct (bool_decide _).
  - destruct (Game.get _ _); simpl;
      [apply wf_units_mod_health;
         [apply wf_board_fold_mod_health, Hwf|]|];
      apply wf_units_fold_mod_health; assumption.
  - assert (Hmove : wf_units (Game.set (Game.set g (CoordPair.dst m)
                                 (Game.get g (CoordPair.src m)))
                                 (CoordPair.src m) None)).
    { apply wf_units_set; [apply wf_board_set, Hwf| |discriminate].
      apply wf_units_set; [exact Hwf|exact Hu|].
      intros u E. eapply Hu, E. }
    destruct (Game.get g (CoordPair.src m)) as [uS|] eqn:ES;
      destruct (Game.get g (CoordPair.dst m)) as [uD|]; simpl;
      try exact Hmove.
    destruct (bool_decide _); simpl.
    + apply wf_units_mod_health; [apply wf_board_mod_health, Hwf|].
      apply wf_units_mod_health; assumption.
    + apply wf_units_mod_health; assumption.
Qed.

Lemma wf_board_next_turn g : wf_board g -> wf_board (Game.next_turn g).
Proof. intros H. exact H. Qed.

Lemma wf_units_next_turn g : wf_units g -> wf_units (Game.next_turn g).
Proof. intros H. exact H. Qed.

(** * The pruning option does not enter the rules *)

Lemma get_wab b g c : Game.get (with_alpha_beta b g) c = Game.get g c.
Proof. reflexivity. Qed.

Lemma is_valid_move_wab b g m :
  Game.is_valid_move (with_alpha_beta b g) m = Game.is_valid_move g m.
Proof. reflexivity. Qed.

Lemma move_candidates_wab b g :
  Game.move_candidates (with_alpha_beta b g) = Game.move_candidates g.
Proof. reflexivity. Qed.

Lemma is_finished_wab b g :
  Game.is_finished (with_alpha_beta b g) = Game.is_finished g.
Proof. reflexivity. Qed.

Lemma heuristic_e2_wab b g game :
  Search.heuristic_e2 (with_alpha_beta b g) game = Search.heuristic_e2 g game
  /\ Search.heuristic_e2 g (with_alpha_beta b game)
     = Search.heuristic_e2 g game.
Proof. split; reflexivity. Qed.

Lemma next_turn_wab b g :
  Game.next_turn (with_alpha_beta b g) = with_alpha_beta b (Game.next_turn g).
Proof. reflexivity. Qed.

Lemma set_wab b g c x :
  Game.set (with_alpha_beta b g) c x = with_alpha_beta b (Game.set g c x).
Proof.
  unfold Game.set.
  change (Game.is_valid_coord (with_alpha_beta b g) c)
    with (Game.is_valid_coord g c).
  destruct (Game.is_valid_coord g c); reflexivity.
Qed.

Lemma remove_dead_wab b g c :
  Game.remove_dead (with_alpha_beta b g) c
  = with_alpha_beta b (Game.remove_dead g c).
Proof.
  unfold Game.remove_dead. rewrite get_wab.
  destruct (Game.get g c) as [u|]; [|reflexivity].
  destruct (negb (Unit.is_alive u)); [|reflexivity]. rewrite set_wab.
  destruct (Unit.type u); try reflexivity.
  destruct (Unit.player u); reflexivity.
Qed.

Lemma mod_health_wab b g c d :
  Game.mod_health (with_alpha_beta b g) c d
  = with_alpha_beta b (Game.mod_health g c d).
Proof.
  unfold Game.mod_health. rewrite get_wab.
  destruct (Game.get g c) as [u|]; [|reflexivity].
  rewrite set_wab, remove_dead_wab. reflexivity.
Qed.

Lemma fold_mod_health_wab b d cs g :
  fold_left (fun g a => Game.mod_health g a d) cs (with_alpha_beta b g)
  = with_alpha_beta b (fold_left (fun g a => Game.mod_health g a d) cs g).
Proof.
  revert g. induction cs as [|a cs IH]; intros g; simpl; [reflexivity|].
  rewrite mod_health_wab. apply IH.
Qed.

Lemma perform_move_wab b g m :
  snd (Game.perform_move (with_alpha_beta b g) m)
  = with_alpha_beta b (snd (Game.perform_move g m)).
Proof.
  unfold Game.perform_move. rewrite is_valid_move_wab, !get_wab.
  destruct (Game.is_valid_move g m); [|reflexivity].
  destruct (bool_decide _).
  - rewrite fold_mod_health_wab, get_wab.
    destruct (Game.get _ _); simpl; [apply mod_health_wab|reflexivity].
  - destruct (Game.get g (CoordPair.src m)) as [uS|];
      destruct (Game.get g (CoordPair.dst m)) as [uD|]; simpl;
      rewrite ?set_wab; try reflexivity.
    destruct (bool_decide _); simpl; rewrite !mod_health_wab; reflexivity.
Qed.

(** * Bounds of the heuristic *)

Section HeuristicBounds.

Import Search.

Lemma fold_left_closing (f : Acc -> Coord.t -> Acc) w l :
  0 <= w ->
  (forall a x, f a x = a \/ f a x = add_closing a (- w)) ->
  forall a, exists k,
    0 <= k <= w * Z.of_nat (length l)
    /\ fold_left f l a = add_closing a (- k).
Proof.
  intros Hw Hf. induction l as [|x l IH]; intros a; simpl fold_left.
  - exists 0. split; [simpl; lia|]. destruct a; unfold add_closing; simpl.
    f_equal. lia.
  - destruct (IH (f a x)) as (k & Hk & ->).
    rewrite length_cons, Nat2Z.inj_succ.
    destruct (Hf a x) as [-> | ->].
    + exists k. split; [lia|reflexivity].
    + exists (w + k). split; [lia|].
      unfold add_closing; simpl. f_equal. lia.
Qed.

Lemma fold_left_other (f : Acc -> Coord.t -> Acc) l :
  (forall a x, f a x = a \/ f a x = add_other a 1) ->
  forall a, exists k,
    0 <= k <= Z.of_nat (length l)
    /\ fold_left f l a = add_other a k.
Proof.
  intros Hf. induction l as [|x l IH]; intros a; simpl fold_left.
  - exists 0. split; [simpl; lia|]. destruct a; unfold add_other; simpl.
    f_equal. lia.
  - destruct (IH (f a x)) as (k & Hk & ->).
    rewrite length_cons, Nat2Z.inj_succ.
    destruct (Hf a x) as [-> | ->].
    + exists k. split; [lia|reflexivity].
    + exists (1 + k). split; [lia|].
      unfold add_other; simpl. f_equal. lia.
Qed.

Lemma length_flat_map_const {A B} (f : A -> list B) n l :
  (forall x, length (f x) = n) ->
  length (flat_map f l) = (length l * n)%nat.
Proof.
  intros Hf. induction l as [|x l IH]; simpl; [reflexivity|].
  rewrite length_app, Hf, IH. reflexivity.
Qed.

Lemma length_flat_map_le {A B} (f : A -> list B) n l :
  (forall x, (length (f x) <= n)%nat) ->
  (length (flat_map f l) <= length l * n)%nat.
Proof.
  intros Hf. induction l as [|x l IH]; simpl; [lia|].
  rewrite length_app. specialize (Hf x). lia.
Qed.

Lemma length_iter_range c dist :
  length (Coord.iter_range c dist)
  = (Z.to_nat (2 * dist + 1) * Z.to_nat (2 * dist + 1))%nat.
Proof.
  unfold Coord.iter_range.
  rewrite (length_flat_map_const _ (Z.to_nat (2 * dist + 1))).
  - rewrite length_range. f_equal. f_equal. lia.
  - intros r. rewrite length_map, length_range. f_equal. lia.
Qed.

Lemma threat_closing g c u b a :
  exists k, 0 <= k <= 43 /\ threat g c u b a = add_closing a (- k).
Proof.
  unfold threat.
  match goal with
  | |- context [fold_left ?f2 (Coord.iter_range c 2) (fold_left ?f1 _ a)] =>
      destruct (fold_left_closing f1 2 (Coord.iter_range c 1)) with (a := a)
        as (k1 & Hk1 & E1);
      [lia| |
       destruct (fold_left_closing f2 1 (Coord.iter_range c 2))
         with (a := add_closing a (- k1)) as (k2 & Hk2 & E2); [lia| |] ]
  end.
  - intros a' x. destruct (Game.get g x); [|left; reflexivity].
    destruct (_ || _); [right|left]; reflexivity.
  - intros a' x. destruct (Game.get g x); [|left; reflexivity].
    destruct (bool_decide _); [right|left]; reflexivity.
  - rewrite E1, E2. rewrite length_iter_range in Hk1, Hk2.
    exists (k1 + k2). split; [simpl in *; lia|].
    unfold add_closing; simpl. f_equal. lia.
Qed.

Lemma crowd_other g c a :
  exists k, 0 <= k <= 9 /\ crowd g c a = add_other a k.
Proof.
  unfold crowd.
  match goal with
  | |- context [fold_left ?f _ a] =>
      destruct (fold_left_other f (Coord.iter_range c 1)) with (a := a)
        as (k & Hk & E)
  end.
  - intros a' x. destruct (Game.get g x); [right|left]; reflexivity.
  - rewrite E. rewrite length_iter_range in Hk.
    exists k. split; [simpl in *; lia|reflexivity].
Qed.

Lemma own_step_bound g n1 n2 a c u :
  health_in_range u -> acc_bound n1 n2 a ->
  acc_bound (n1 + 1) n2 (own_step g a (c, u)).
Proof.
  unfold health_in_range, acc_bound, own_step. intros Hh Ha.
  set (a1 := if bool_decide (Unit.type u = AI) then threat g c u true a else a).
  assert (H1 : exists k, 0 <= k <= 43 /\ a1 = add_closing a (- k)).
  { subst a1. destruct (bool_decide _); [apply threat_closing|].
    exists 0. split; [lia|]. destruct a; unfold add_closing; simpl. f_equal. lia. }
  destruct H1 as (k1 & Hk1 & ->).
  set (a2 := if Game.in_combat g c then _ else _).
  assert (H2 : exists k, 0 <= k <= 1 /\ a2 = add_combat (add_closing a (- k1)) k).
  { subst a2. destruct (Game.in_combat g c); [exists 1; split; [lia|reflexivity]|].
    exists 0. split; [lia|]. destruct a; unfold add_combat, add_closing; simpl.
    f_equal. lia. }
  destruct H2 as (k2 & Hk2 & ->).
  destruct (crowd_other g c (add_combat (add_closing a (- k1)) k2))
    as (k3 & Hk3 & ->).
  destruct (bool_decide (Unit.type u = AI)); [simpl; lia|].
  destruct (_ || _); simpl; lia.
Qed.

Lemma opp_step_bound g n1 n2 a c u :
  health_in_range u -> acc_bound n1 n2 a ->
  acc_bound n1 (n2 + 1) (opp_step g a (c, u)).
Proof.
  unfold health_in_range, acc_bound, opp_step. intros Hh Ha.
  set (a1 := if bool_decide (Unit.type u = AI) then threat g c u false a else a).
  assert (H1 : exists k, 0 <= k <= 43 /\ a1 = add_closing a (- k)).
  { subst a1. destruct (bool_decide _); [apply threat_closing|].
    exists 0. split; [lia|]. destruct a; unfold add_closing; simpl. f_equal. lia. }
  destruct H1 as (k1 & Hk1 & ->).
  set (a2 := if Game.in_combat g c then _ else _).
  assert (H2 : exists k, 0 <= k <= 1 /\ a2 = add_ncombat (add_closing a (- k1)) k).
  { subst a2. destruct (Game.in_combat g c); [exists 1; split; [lia|reflexivity]|].
    exists 0. split; [lia|]. destruct a; unfold add_ncombat, add_closing; simpl.
    f_equal. lia. }
  destruct H2 as (k2 & Hk2 & ->).
  destruct (crowd_other g c (add_ncombat (add_closing a (- k1)) k2))
    as (k3 & Hk3 & ->).
  destruct (bool_decide (Unit.type u = AI)); [simpl; lia|].
  destruct (_ || _); simpl; lia.
Qed.

Lemma fold_own_step_bound g l :
  Forall (fun cu => health_in_range (snd cu)) l ->
  forall n1 n2 a, acc_bound n1 n2 a ->
    acc_bound (n1 + Z.of_nat (length l)) n2 (fold_left (own_step g) l a).
Proof.
  induction 1 as [|[c u] l Hu _ IH]; intros n1 n2 a Ha; simpl fold_left.
  - simpl. rewrite Z.add_0_r. exact Ha.
  - rewrite length_cons, Nat2Z.inj_succ.
    replace (n1 + Z.succ (Z.of_nat (length l)))
      with ((n1 + 1) + Z.of_nat (length l)) by lia.
    apply IH, own_step_bound; assumption.
Qed.

Lemma fold_opp_step_bound g l :
  Forall (fun cu => health_in_range (snd cu)) l ->
  forall n1 n2 a, acc_bound n1 n2 a ->
    acc_bound n1 (n2 + Z.of_nat (length l)) (fold_left (opp_step g) l a).
Proof.
  induction 1 as [|[c u] l Hu _ IH]; intros n1 n2 a Ha; simpl fold_left.
  - simpl. rewrite Z.add_0_r. exact Ha.
  - rewrite length_cons, Nat2Z.inj_succ.
    replace (n2 + Z.succ (Z.of_nat (length l)))
      with ((n2 + 1) + Z.of_nat (length l)) by lia.
    apply IH, opp_step_bound; assumption.
Qed.

Lemma player_units_get g p c u :
  (c, u) ∈ Game.player_units g p -> Game.get g c = Some u.
Proof.
  unfold Game.player_units. rewrite flat_map_bind, list_elem_of_bind.
  intros (c' & Hin & _). destruct (Game.get g c') as [u'|] eqn:E;
    [|inversion Hin].
  destruct (bool_decide _); [|inversion Hin].
  apply list_elem_of_singleton in Hin. inversion Hin; subst. exact E.
Qed.

Lemma player_units_health g p :
  wf_units g ->
  Forall (fun cu => health_in_range (snd cu)) (Game.player_units g p).
Proof.
  intros Hu. apply Forall_forall. intros [c u] Hin. simpl.
  eapply Hu, player_units_get, Hin.
Qed.

Lemma length_player_units g p :
  (length (Game.player_units g p)
   <= Z.to_nat (Options.dim (Game.options g))
      * Z.to_nat (Options.dim (Game.options g)))%nat.
Proof.
  unfold Game.player_units.
  etransitivity; [apply (length_flat_map_le _ 1)|].
  - intros c. destruct (Game.get g c); [|simpl; lia].
    destruct (bool_decide _); simpl; lia.
  - unfold CoordPair.iter_rectangle, CoordPair.from_dim. simpl.
    rewrite (length_flat_map_const _ (Z.to_nat (Options.dim (Game.options g)))).
    + rewrite length_range. 
      replace (Options.dim (Game.options g) - 1 + 1 - 0)
        with (Options.dim (Game.options g)) by lia. lia.
    + intros r. rewrite length_map, length_range. f_equal. lia.
Qed.

Lemma length_move_candidates2 g p :
  (length (Game.move_candidates2 g p) <= length (Game.player_units g p) * 5)%nat.
Proof.
  unfold Game.move_candidates2.
  apply length_flat_map_le. intros [src u].
  rewrite length_app. simpl length at 2.
  match goal with |- context [filter ?P ?l] =>
    pose proof (length_filter P l) as H end.
  rewrite length_map in H.
  change (length (Coord.iter_adjacent src)) with 4%nat in H. lia.
Qed.

Lemma heuristic_e2_bounded g game z :
  wf_units g -> Options.dim (Game.options g) <= 4000 ->
  heuristic_e2 g game = Returned z ->
  MIN_HEURISTIC_SCORE <= z <= MAX_HEURISTIC_SCORE.
Proof.
  intros Hu Hdim. unfold heuristic_e2.
  destruct (sides g game) as [[p np]|]; [|discriminate].
  intros E. inversion E as [Ez]. clear E Ez.
  pose proof (fold_own_step_bound g _ (player_units_health g p Hu) 0 0 acc0) as H1.
  specialize (H1 ltac:(unfold acc_bound; simpl; lia)).
  pose proof (fold_opp_step_bound g _ (player_units_health g np Hu) _ _ _ H1) as H2.
  pose proof (length_player_units g p) as L1.
  pose proof (length_player_units g np) as L2.
  pose proof (length_move_candidates2 g p) as M1.
  pose proof (length_move_candidates2 g np) as M2.
  set (D := Z.to_nat (Options.dim (Game.options g))) in *.
  assert (HD : Z.of_nat D * Z.of_nat D <= 16000000) by (subst D; nia).
  unfold acc_bound in H2. unfold MIN_HEURISTIC_SCORE, MAX_HEURISTIC_SCORE.
  lia.
Qed.

End HeuristicBounds.

(** * Alpha-beta pruning on the score function *)

Section Pruning.

Context {S M : Type}.
Variable finished : S -> bool.
Variable turn : S -> S.
Variable moves : S -> list M.
Variable apply : S -> M -> S.
Variable h : S -> Z.

Variable Inv : S -> Prop.
Hypothesis Inv_turn : forall s, Inv s -> Inv (turn s).
Hypothesis Inv_apply : forall s m, Inv s -> Inv (apply s m).
Hypothesis h_bounded :
  forall s, Inv s -> MIN_HEURISTIC_SCORE <= h s <= MAX_HEURISTIC_SCORE.

Section Loops.

Variables full pruned : Z -> Z -> S -> Z.
Hypothesis full_window :
  forall a b a' b' s, full a b s = full a' b' s.
Hypothesis children_agree :
  forall a b s, Inv s -> window a b -> agrees a b (full a b s) (pruned a b s).

Lemma max_value_full_ge s ms a b score :
  score <= max_value apply false full s ms a b score.
Proof.
  revert score. induction ms as [|m rest IH]; intros score; simpl; [lia|].
  destruct (full a b (apply s m) >? score) eqn:E.
  - etransitivity; [|apply IH]. lia.
  - apply IH.
Qed.

Lemma min_value_full_le s ms a b score :
  min_value apply false full s ms a b score <= score.
Proof.
  revert score. induction ms as [|m rest IH]; intros score; simpl; [lia|].
  destruct (full a b (apply s m) <? score) eqn:E.
  - etransitivity; [apply IH|]. lia.
  - apply IH.
Qed.

Lemma max_value_full_bounded s ms a b score :
  Inv s -> window a b ->
  MIN_HEURISTIC_SCORE <= score <= MAX_HEURISTIC_SCORE ->
  MIN_HEURISTIC_SCORE <= max_value apply false full s ms a b score
    <= MAX_HEURISTIC_SCORE.
Proof.
  intros Hs Hw. revert score.
  induction ms as [|m rest IH]; intros score Hsc; simpl; [exact Hsc|].
  destruct (children_agree a b (apply s m) (Inv_apply s m Hs) Hw) as (Hv & _).
  apply IH. destruct (_ >? score); lia.
Qed.

Lemma min_value_full_bounded s ms a b score :
  Inv s -> window a b ->
  MIN_HEURISTIC_SCORE <= score <= MAX_HEURISTIC_SCORE ->
  MIN_HEURISTIC_SCORE <= min_value apply false full s ms a b score
    <= MAX_HEURISTIC_SCORE.
Proof.
  intros Hs Hw. revert score.
  induction ms as [|m rest IH]; intros score Hsc; simpl; [exact Hsc|].
  destruct (children_agree a b (apply s m) (Inv_apply s m Hs) Hw) as (Hv & _).
  apply IH. destruct (_ <? score); lia.
Qed.

Lemma max_value_agrees s ms alpha beta :
  Inv s -> window alpha beta ->
  forall a sa sf,
    alpha <= a -> a < beta ->
    MIN_HEURISTIC_SCORE <= sa <= MAX_HEURISTIC_SCORE ->
    MIN_HEURISTIC_SCORE <= sf <= MAX_HEURISTIC_SCORE ->
    (sf <= alpha /\ sa <= alpha /\ a = alpha) \/ (alpha < sf /\ sa = sf /\ a = sf) ->
    agrees alpha beta
      (max_value apply false full s ms alpha beta sf)
      (max_value apply true pruned s ms a beta sa).
Proof.
  intros Hs Hw.
  induction ms as [|m rest IH]; intros a sa sf Ha1 Ha2 Hsa Hsf Hrel; simpl.
  - unfold agrees. lia.
  - assert (Hwa : window a beta) by (unfold window in *; lia).
    pose proof (children_agree a beta (apply s m) (Inv_apply s m Hs) Hwa)
      as (Hv & Hr & Hlo & Hhi & Hin).
    rewrite (full_window alpha beta a beta).
    set (vc := full a beta (apply s m)) in *.
    set (rc := pruned a beta (apply s m)) in *.
    destruct (beta <=? Z.max a rc) eqn:Ebreak.
    + apply Z.leb_le in Ebreak.
      assert (Hvc : beta <= vc) by lia.
      pose proof (max_value_full_ge s rest alpha beta
                    (if vc >? sf then vc else sf)) as Hge.
      pose proof (max_value_full_bounded s rest alpha beta
                    (if vc >? sf then vc else sf) Hs Hw) as Hb.
      unfold agrees.
      destruct (vc >? sf) eqn:E1; destruct (rc >? sa) eqn:E2; lia.
    + apply Z.leb_gt in Ebreak.
      apply IH; destruct (vc >? sf) eqn:E1; destruct (rc >? sa) eqn:E2; lia.
Qed.

Lemma min_value_agrees s ms alpha beta :
  Inv s -> window alpha beta ->
  forall b sa sf,
    b <= beta -> alpha < b ->
    MIN_HEURISTIC_SCORE <= sa <= MAX_HEURISTIC_SCORE ->
    MIN_HEURISTIC_SCORE <= sf <= MAX_HEURISTIC_SCORE ->
    (beta <= sf /\ beta <= sa /\ b = beta) \/ (sf < beta /\ sa = sf /\ b = sf) ->
    agrees alpha beta
      (min_value apply false full s ms alpha beta sf)
      (min_value apply true pruned s ms alpha b sa).
Proof.
  intros Hs Hw.
  induction ms as [|m rest IH]; intros b sa sf Hb1 Hb2 Hsa Hsf Hrel; simpl.
  - unfold agrees. lia.
  - assert (Hwb : window alpha b) by (unfold window in *; lia).
    pose proof (children_agree alpha b (apply s m) (Inv_apply s m Hs) Hwb)
      as (Hv & Hr & Hlo & Hhi & Hin).
    rewrite (full_window alpha beta alpha b).
    set (vc := full alpha b (apply s m)) in *.
    set (rc := pruned alpha b (apply s m)) in *.
    destruct (Z.min b rc <=? alpha) eqn:Ebreak.
    + apply Z.leb_le in Ebreak.
      assert (Hvc : vc <= alpha) by lia.
      pose proof (min_value_full_le s rest alpha beta
                    (if vc <? sf then vc else sf)) as Hle.
      pose proof (min_value_full_bounded s rest alpha beta
                    (if vc <? sf then vc else sf) Hs Hw) as Hb.
      unfold agrees.
      destruct (vc <? sf) eqn:E1; destruct (rc <? sa) eqn:E2; lia.
    + apply Z.leb_gt in Ebreak.
      apply IH; destruct (vc <? sf) eqn:E1; destruct (rc <? sa) eqn:E2; lia.
Qed.

End Loops.

Abbreviation full := (value finished turn moves apply h false).
Abbreviation pruned := (value finished turn moves apply h true).

Lemma max_value_full_window child s ms a b a' b' score :
  (forall x, child a b x = child a' b' x) ->
  max_value apply false child s ms a b score
  = max_value apply false child s ms a' b' score.
Proof.
  intros Hc. revert score.
  induction ms as [|m rest IH]; intros score; simpl; [reflexivity|].
  rewrite Hc. apply IH.
Qed.

Lemma min_value_full_window child s ms a b a' b' score :
  (forall x, child a b x = child a' b' x) ->
  min_value apply false child s ms a b score
  = min_value apply false child s ms a' b' score.
Proof.
  intros Hc. revert score.
  induction ms as [|m rest IH]; intros score; simpl; [reflexivity|].
  rewrite Hc. apply IH.
Qed.

(** Without pruning the window is never read. *)
Lemma full_window depth :
  forall entered a b a' b' max_player s,
    full entered depth a b max_player s = full entered depth a' b' max_player s.
Proof.
  induction depth as [|d IH]; intros entered a b a' b' mp s; simpl;
    [reflexivity|].
  destruct (finished s); [reflexivity|].
  destruct mp; [apply max_value_full_window|apply min_value_full_window];
    intros x; apply IH.
Qed.

Lemma value_agrees depth :
  forall entered alpha beta max_player s,
    Inv s -> window alpha beta ->
    agrees alpha beta (full entered depth alpha beta max_player s)
                      (pruned entered depth alpha beta max_player s).
Proof.
  induction depth as [|d IH]; intros entered alpha beta mp s Hs Hw.
  - simpl. pose proof (h_bounded s Hs). unfold agrees. lia.
  - simpl. destruct (finished s).
    + pose proof (h_bounded s Hs). unfold agrees. lia.
    + assert (Hs' : Inv (if entered then turn s else s))
        by (destruct entered; [apply Inv_turn|]; exact Hs).
      destruct mp.
      * apply (max_value_agrees
                 (fun a b s' => full true d a b false s')
                 (fun a b s' => pruned true d a b false s'));
          [ intros a b a' b' x; apply full_window
          | intros a b x Hx Hab; apply IH; assumption
          | exact Hs' | exact Hw | .. ];
          unfold window, MIN_HEURISTIC_SCORE, MAX_HEURISTIC_SCORE in *; lia.
      * apply (min_value_agrees
                 (fun a b s' => full true d a b true s')
                 (fun a b s' => pruned true d a b true s'));
          [ intros a b a' b' x; apply full_window
          | intros a b x Hx Hab; apply IH; assumption
          | exact Hs' | exact Hw | .. ];
          unfold window, MIN_HEURISTIC_SCORE, MAX_HEURISTIC_SCORE in *; lia.
Qed.

(** With the full window the two searches compute the same score. *)
Lemma pruned_full_window depth entered max_player s :
  Inv s ->
  pruned entered depth MIN_HEURISTIC_SCORE MAX_HEURISTIC_SCORE max_player s
  = full entered depth MIN_HEURISTIC_SCORE MAX_HEURISTIC_SCORE max_player s.
Proof.
  intros Hs.
  pose proof (value_agrees depth entered MIN_HEURISTIC_SCORE
                MAX_HEURISTIC_SCORE max_player s Hs) as H.
  unfold agrees, window in H.
  unfold MIN_HEURISTIC_SCORE, MAX_HEURISTIC_SCORE in *. lia.
Qed.

End Pruning.

Section Simulation.

Context {S M : Type}.
Variable finished : S -> bool.
Variable turn : S -> S.
Variable moves : S -> list M.
Variable apply : S -> M -> S.
Variable h : S -> Z.
Variable ab : bool.

(** A change of representation [f] that the search cannot observe. *)
Variable f : S -> S.
Hypothesis finished_f : forall s, finished (f s) = finished s.
Hypothesis turn_f : forall s, turn (f s) = f (turn s).
Hypothesis moves_f : forall s, moves (f s) = moves s.
Hypothesis apply_f : forall s m, apply (f s) m = f (apply s m).
Hypothesis h_f : forall s, h (f s) = h s.

Lemma max_value_sim child child' :
  (forall a b s, child a b (f s) = child' a b s) ->
  forall s ms alpha beta score,
    max_value apply ab child (f s) ms alpha beta score
    = max_value apply ab child' s ms alpha beta score.
Proof.
  intros Hc s ms. induction ms as [|m rest IH]; intros alpha beta score;
    simpl; [reflexivity|].
  rewrite apply_f, Hc, !IH. reflexivity.
Qed.

Lemma min_value_sim child child' :
  (forall a b s, child a b (f s) = child' a b s) ->
  forall s ms alpha beta score,
    min_value apply ab child (f s) ms alpha beta score
    = min_value apply ab child' s ms alpha beta score.
Proof.
  intros Hc s ms. induction ms as [|m rest IH]; intros alpha beta score;
    simpl; [reflexivity|].
  rewrite apply_f, Hc, !IH. reflexivity.
Qed.

Lemma value_sim depth :
  forall entered alpha beta max_player s,
    value finished turn moves apply h ab entered depth alpha beta
          max_player (f s)
    = value finished turn moves apply h ab entered depth alpha beta
            max_player s.
Proof.
  induction depth as [|d IH]; intros entered alpha beta mp s; simpl.
  - apply h_f.
  - rewrite finished_f, h_f. destruct (finished s); [reflexivity|].
    assert (E : (if entered then turn (f s) else f s)
                = f (if entered then turn s else s))
      by (destruct entered; [apply turn_f|reflexivity]).
    rewrite E, moves_f.
    destruct mp; [apply max_value_sim|apply min_value_sim];
      intros a b s'; apply IH.
Qed.

End Simulation.



(** * The search computes the score function *)

Lemma sides_defined self game :
  Options.game_type (Game.options self) <> AttackerVsDefender ->
  exists p np, Search.sides self game = Some (p, np).
Proof.
  intros Hgt. unfold Search.sides.
  destruct (Options.game_type (Game.options self)); try contradiction;
    destruct (Game.next_player game); simpl; eauto.
Qed.

Lemma heuristic_e2_defined self game :
  Options.game_type (Game.options self) <> AttackerVsDefender ->
  Search.heuristic_e2 self game = Returned (evaluate game self).
Proof.
  intros Hgt. unfold evaluate, Search.heuristic_e2.
  destruct (sides_defined self game Hgt) as (p & np & ->). reflexivity.
Qed.

Section Link.

Variable clock : nat -> bool.
Hypothesis no_interruption : forall n, clock n = false.
Variable game : Game.t.

Abbreviation apply_move := (fun g m => snd (Game.perform_move g m)).

Lemma max_loop_value child childv g :
  (forall a b m st, Stats.minimax_entry (fst st) <> 0 ->
     returns (child a b (apply_move g m) st) (childv a b (apply_move g m))) ->
  forall moves alpha beta score best st,
    Stats.minimax_entry (fst st) <> 0 ->
    returns (Search.max_loop clock child g moves alpha beta score best st)
            (max_value apply_move (Options.alpha_beta (Game.options g))
                       childv g moves alpha beta score).
Proof.
  intros Hchild.
  induction moves as [|m rest IH]; intros alpha beta score best st Hst;
    simpl.
  - exists best, st. split; [reflexivity|exact Hst].
  - destruct (Hchild alpha beta m st Hst) as (mv & [stats n] & -> & Hst').
    rewrite no_interruption.
    destruct (childv alpha beta (apply_move g m) >? score);
      destruct (Options.alpha_beta (Game.options g));
      try (apply IH; exact Hst');
      destruct (beta <=? _); try (apply IH; exact Hst');
      eexists _, _; split; try reflexivity; exact Hst'.
Qed.

Lemma min_loop_value child childv g :
  (forall a b m st, Stats.minimax_entry (fst st) <> 0 ->
     returns (child a b (apply_move g m) st) (childv a b (apply_move g m))) ->
  forall moves alpha beta score best st,
    Stats.minimax_entry (fst st) <> 0 ->
    returns (Search.min_loop clock child g moves alpha beta score best st)
            (min_value apply_move (Options.alpha_beta (Game.options g))
                       childv g moves alpha beta score).
Proof.
  intros Hchild.
  induction moves as [|m rest IH]; intros alpha beta score best st Hst;
    simpl.
  - exists best, st. split; [reflexivity|exact Hst].
  - destruct (Hchild alpha beta m st Hst) as (mv & [stats n] & -> & Hst').
    rewrite no_interruption.
    destruct (childv alpha beta (apply_move g m) <? score);
      destruct (Options.alpha_beta (Game.options g));
      try (apply IH; exact Hst');
      destruct (_ <=? alpha); try (apply IH; exact Hst');
      eexists _, _; split; try reflexivity; exact Hst'.
Qed.

Lemma entry_increment stats depth :
  Stats.minimax_entry (Stats.increment_evaluations stats depth)
  = Stats.minimax_entry stats.
Proof.
  unfold Stats.increment_evaluations.
  destruct (Stats.evaluations_per_depth stats !! depth); reflexivity.
Qed.

(** An inner call: [minimax_entry] is set. *)
Lemma minimax_value_entered depth :
  forall ab alpha beta max_player g st,
    Options.game_type (Game.options g) <> AttackerVsDefender ->
    Options.alpha_beta (Game.options g) = ab ->
    Stats.minimax_entry (fst st) <> 0 ->
    returns (Search.minimax clock depth alpha beta max_player g game st)
            (search_value game ab true depth alpha beta max_player g).
Proof.
  induction depth as [|d IH]; intros ab alpha beta mp g st Hgt Hab Hst.
  - simpl. unfold Search.leaf. rewrite heuristic_e2_defined by exact Hgt.
    eexists _, _. split; [reflexivity|]. simpl.
    rewrite entry_increment. exact Hst.
  - unfold search_value. cbn [Search.minimax value fst snd].
    destruct (Game.is_finished g).
    + unfold Search.leaf. rewrite heuristic_e2_defined by exact Hgt.
      eexists _, _. split; [reflexivity|]. simpl.
      rewrite entry_increment. exact Hst.
    + rewrite entry_increment.
      rewrite bool_decide_eq_true_2 by exact Hst.
      destruct mp.
      * rewrite <- Hab.
        change (Options.alpha_beta (Game.options g))
          with (Options.alpha_beta (Game.options (Game.next_turn g))).
        apply (max_loop_value
                 (fun a b g' => Search.minimax clock d a b false g' game)
                 (fun a b g' => search_value game
                      (Options.alpha_beta (Game.options (Game.next_turn g)))
                      true d a b false g')).
        -- intros a b m st' Hst'.
           apply IH; [|rewrite options_perform_move; reflexivity|exact Hst'].
           rewrite options_perform_move. exact Hgt.
        -- simpl. discriminate.
      * rewrite <- Hab.
        change (Options.alpha_beta (Game.options g))
          with (Options.alpha_beta (Game.options (Game.next_turn g))).
        apply (min_loop_value
                 (fun a b g' => Search.minimax clock d a b true g' game)
                 (fun a b g' => search_value game
                      (Options.alpha_beta (Game.options (Game.next_turn g)))
                      true d a b true g')).
        -- intros a b m st' Hst'.
           apply IH; [|rewrite options_perform_move; reflexivity|exact Hst'].
           rewrite options_perform_move. exact Hgt.
        -- simpl. discriminate.
Qed.

End Link.

(** * Pruning does not change the score *)

Lemma search_inv_next_turn g : search_inv g -> search_inv (Game.next_turn g).
Proof. intros H. exact H. Qed.

Lemma search_inv_perform_move g m :
  search_inv g -> search_inv (snd (Game.perform_move g m)).
Proof.
  intros (Hb & Hu & Hd). split; [|split].
  - apply wf_board_perform_move, Hb.
  - apply wf_units_perform_move; assumption.
  - rewrite options_perform_move. exact Hd.
Qed.

Lemma evaluate_bounded game g :
  search_inv g ->
  MIN_HEURISTIC_SCORE <= evaluate game g <= MAX_HEURISTIC_SCORE.
Proof.
  intros (_ & Hu & Hd). unfold evaluate.
  destruct (Search.heuristic_e2 g game) as [z|e] eqn:E.
  - eapply heuristic_e2_bounded; eassumption.
  - unfold MIN_HEURISTIC_SCORE, MAX_HEURISTIC_SCORE. lia.
Qed.

Lemma search_value_pruning game depth entered max_player g :
  search_inv g ->
  search_value game true entered depth MIN_HEURISTIC_SCORE MAX_HEURISTIC_SCORE
               max_player g
  = search_value game false entered depth MIN_HEURISTIC_SCORE
                 MAX_HEURISTIC_SCORE max_player g.
Proof.
  intros Hg. unfold search_value.
  apply (pruned_full_window _ _ _ _ _ search_inv);
    [exact search_inv_next_turn|exact search_inv_perform_move
    |exact (evaluate_bounded game)|exact Hg].
Qed.

Lemma search_value_with_alpha_beta b game ab entered depth alpha beta
    max_player g :
  search_value (with_alpha_beta b game) ab entered depth alpha beta max_player
               (with_alpha_beta b g)
  = search_value game ab entered depth alpha beta max_player g.
Proof.
  unfold search_value.
  change (evaluate (with_alpha_beta b game)) with (evaluate game).
  apply (value_sim _ _ _ _ _ _ (with_alpha_beta b)).
  - intros s. reflexivity.
  - intros s. reflexivity.
  - intros s. reflexivity.
  - intros s m. apply perform_move_wab.
  - intros s. reflexivity.
Qed.

Lemma minimax_value clock game depth alpha beta max_player g st :
  (forall n, clock n = false) ->
  Options.game_type (Game.options g) <> AttackerVsDefender ->
  exists mv st',
    Search.minimax clock depth alpha beta max_player g game st
    = Returned (search_value game (Options.alpha_beta (Game.options g))
                  (bool_decide (Stats.minimax_entry (fst st) <> 0))
                  depth alpha beta max_player g, mv, st').
Proof.
  intros Hclock Hgt. destruct depth as [|d].
  - simpl. unfold Search.leaf. rewrite heuristic_e2_defined by exact Hgt.
    eauto.
  - unfold search_value. cbn [Search.minimax value fst snd].
    destruct (Game.is_finished g).
    + unfold Search.leaf. rewrite heuristic_e2_defined by exact Hgt. eauto.
    + rewrite entry_increment.
      set (g' := if bool_decide (Stats.minimax_entry st.1 <> 0)
                 then Game.next_turn g else g).
      assert (Ho : Game.options g' = Game.options g)
        by (subst g'; destruct (bool_decide _); reflexivity).
      rewrite <- Ho.
      destruct max_player.
      * destruct (max_loop_value clock Hclock
                    (fun a b s => Search.minimax clock d a b false s game)
                    (fun a b s => search_value game
                         (Options.alpha_beta (Game.options g')) true d a b false s)
                    g') with (moves := Game.move_candidates g')
                             (alpha := alpha) (beta := beta)
                             (score := MIN_HEURISTIC_SCORE)
                             (best := @None CoordPair.t)
                             (st := (Stats.set_minimax_entry
                                       (Stats.increment_evaluations st.1 (S d)) 1,
                                     st.2))
          as (mv & st' & E & _).
        -- intros a b m st0 Hst0.
           apply minimax_value_entered;
             [exact Hclock|rewrite options_perform_move, Ho; exact Hgt
             |rewrite options_perform_move; reflexivity|exact Hst0].
        -- simpl. discriminate.
        -- exists mv, st'. exact E.
      * destruct (min_loop_value clock Hclock
                    (fun a b s => Search.minimax clock d a b true s game)
                    (fun a b s => search_value game
                         (Options.alpha_beta (Game.options g')) true d a b true s)
                    g') with (moves := Game.move_candidates g')
                             (alpha := alpha) (beta := beta)
                             (score := MAX_HEURISTIC_SCORE)
                             (best := @None CoordPair.t)
                             (st := (Stats.set_minimax_entry
                                       (Stats.increment_evaluations st.1 (S d)) 1,
                                     st.2))
          as (mv & st' & E & _).
        -- intros a b m st0 Hst0.
           apply minimax_value_entered;
             [exact Hclock|rewrite options_perform_move, Ho; exact Hgt
             |rewrite options_perform_move; reflexivity|exact Hst0].
        -- simpl. discriminate.
        -- exists mv, st'. exact E.
Qed.



(** * Units *)

Lemma damage_table_entry a b :
  1 <= Unit.table_entry Unit.damage_table a b <= 9.
Proof. destruct a, b; vm_compute; split; discriminate. Qed.

Lemma repair_table_entry a b :
  0 <= Unit.table_entry Unit.repair_table a b <= 3.
Proof. destruct a, b; vm_compute; split; discriminate. Qed.

Lemma repair_amount_bound self target :
  0 <= Unit.health target <= 9 ->
  0 <= Unit.repair_amount self target <= 9 - Unit.health target.
Proof.
  intros Hh. unfold Unit.repair_amount.
  pose proof (repair_table_entry (Unit.type self) (Unit.type target)) as Ht.
  destruct (_ >? 9) eqn:E; lia.
Qed.

(** X1. A unit never deals more damage than its target has health: the
    amount is positive for a living target, at most the table entry and
    at most the target's health, so that applying it needs no clamp. *)
Theorem damage_amount_never_overkills self target :
  0 <= Unit.health target <= 9 ->
  let amount := Unit.damage_amount self target in
  0 <= amount <= Unit.health target
  /\ amount <= Unit.table_entry Unit.damage_table
                 (Unit.type self) (Unit.type target)
  /\ (0 < Unit.health target -> 0 < amount)
  /\ Unit.health (Unit.mod_health target (- amount))
     = Unit.health target - amount.
Proof.
  intros Hh. simpl. unfold Unit.damage_amount.
  pose proof (damage_table_entry (Unit.type self) (Unit.type target)) as Ht.
  rewrite unit_mod_health_clamp.
  destruct (_ <? 0) eqn:E; lia.
Qed.

Lemma damage_amount_never_overkills_witness :
  Unit.damage_amount (Unit.mk Attacker Virus 9) (Unit.mk Defender AI 4) = 4
  /\ Unit.health (Unit.mod_health (Unit.mk Defender AI 4) (- 4)) = 0.
Proof.
  pose proof (damage_amount_never_overkills (Unit.mk Attacker Virus 9)
                (Unit.mk Defender AI 4) ltac:(simpl; lia)) as (_ & _ & _ & H).
  split; [reflexivity|exact H].
Defined.

(** X2. A unit never repairs a target above 9: the amount is at most
    the table entry and at most what the target misses, so that
    applying it needs no clamp; only an AI (on Virus and Tech) and a
    Tech (on AI, Program and Firewall) can repair at all. *)
Theorem repair_amount_never_overflows self target :
  0 <= Unit.health target <= 9 ->
  let amount := Unit.repair_amount self target in
  0 <= amount <= 9 - Unit.health target
  /\ amount <= Unit.table_entry Unit.repair_table
                 (Unit.type self) (Unit.type target)
  /\ Unit.health (Unit.mod_health target amount) = Unit.health target + amount
  /\ (0 < amount ->
      (Unit.type self = AI
       /\ (Unit.type target = Virus \/ Unit.type target = Tech))
      \/ (Unit.type self = Tech
          /\ (Unit.type target = AI \/ Unit.type target = Program
              \/ Unit.type target = Firewall))).
Proof.
  intros Hh. simpl. unfold Unit.repair_amount.
  pose proof (repair_table_entry (Unit.type self) (Unit.type target)) as Ht.
  rewrite unit_mod_health_clamp.
  split; [destruct (_ >? 9) eqn:E; lia|].
  split; [destruct (_ >? 9) eqn:E; lia|].
  split; [destruct (_ >? 9) eqn:E; lia|].
  intros Hpos.
  assert (Hp : 0 < Unit.table_entry Unit.repair_table
                     (Unit.type self) (Unit.type target))
    by (destruct (_ >? 9) eqn:E; lia).
  destruct (Unit.type self), (Unit.type target); vm_compute in Hp;
    try discriminate; tauto.
Qed.

Lemma repair_amount_never_overflows_witness :
  Unit.repair_amount (Unit.mk Defender Tech 9) (Unit.mk Defender AI 8) = 1
  /\ Unit.health (Unit.mod_health (Unit.mk Defender AI 8) 1) = 9.
Proof.
  pose proof (repair_amount_never_overflows (Unit.mk Defender Tech 9)
                (Unit.mk Defender AI 8) ltac:(simpl; lia)) as (_ & _ & H & _).
  split; [reflexivity|exact H].
Defined.

Lemma pretty_digit h :
  0 <= h <= 9 -> String.length (pretty h) = 1%nat.
Proof.
  intros H.
  assert (E : h = 0 \/ h = 1 \/ h = 2 \/ h = 3 \/ h = 4 \/ h = 5 \/ h = 6
              \/ h = 7 \/ h = 8 \/ h = 9) by lia.
  repeat destruct E as [->|E]; try subst h; reflexivity.
Qed.

Lemma unit_to_string_shape u :
  exists c1 c2,
    Unit.to_string u = String c1 (String c2 (pretty (Unit.health u)))
    /\ c1 = match Unit.player u with
            | Attacker => "a"%char | Defender => "d"%char
            end
    /\ c2 = match Unit.type u with
            | AI => "A"%char | Tech => "T"%char | Virus => "V"%char
            | Program => "P"%char | Firewall => "F"%char
            end.
Proof.
  destruct u as [p t h]. eexists _, _. split; [|split; reflexivity].
  destruct p, t; reflexivity.
Qed.

(** X3. The text of a unit whose health is within [0, 9] has exactly
    three characters, and two such units with the same text are the
    same unit. *)
Theorem unit_to_string_identifies u1 u2 :
  0 <= Unit.health u1 <= 9 -> 0 <= Unit.health u2 <= 9 ->
  String.length (Unit.to_string u1) = 3%nat
  /\ (Unit.to_string u1 = Unit.to_string u2 -> u1 = u2).
Proof.
  intros H1 H2.
  destruct (unit_to_string_shape u1) as (a1 & b1 & -> & Ha1 & Hb1).
  destruct (unit_to_string_shape u2) as (a2 & b2 & -> & Ha2 & Hb2).
  split.
  - simpl. rewrite (pretty_digit _ H1). reflexivity.
  - intros E. inversion E as [[Ea Eb Eh]]. apply (inj pretty) in Eh.
    destruct u1 as [p1 t1 h1], u2 as [p2 t2 h2]. simpl in *. subst.
    destruct p1, p2; try discriminate;
      destruct t1, t2; try discriminate; reflexivity.
Qed.

Lemma unit_to_string_identifies_witness :
  String.length (Unit.to_string (Unit.mk Attacker Virus 9)) = 3%nat.
Proof.
  exact (proj1 (unit_to_string_identifies (Unit.mk Attacker Virus 9)
                  (Unit.mk Attacker Virus 9)
                  ltac:(simpl; lia) ltac:(simpl; lia))).
Defined.

(** * Coordinates *)

Lemma elem_of_iter_adjacent s c :
  c ∈ Coord.iter_adjacent s <-> orthogonal_neighbor s c.
Proof.
  destruct c as [r k]. unfold Coord.iter_adjacent, orthogonal_neighbor.
  rewrite !elem_of_cons, elem_of_nil. simpl. split.
  - intros [E|[E|[E|[E|[]]]]]; inversion E; subst; lia.
  - intros H.
    assert (Hc : (r = Coord.row s - 1 /\ k = Coord.col s)
                 \/ (r = Coord.row s /\ k = Coord.col s - 1)
                 \/ (r = Coord.row s + 1 /\ k = Coord.col s)
                 \/ (r = Coord.row s /\ k = Coord.col s + 1)) by lia.
    destruct Hc as [[-> ->]|[[-> ->]|[[-> ->]|[-> ->]]]]; auto.
Qed.

(** X4. [iter_adjacent] yields exactly the four orthogonal neighbours of
    a cell, each once. *)
Theorem iter_adjacent_orthogonal s :
  (forall c, c ∈ Coord.iter_adjacent s <-> orthogonal_neighbor s c)
  /\ NoDup (Coord.iter_adjacent s)
  /\ (forall c, c ∈ Coord.iter_adjacent s -> c ∈ Coord.iter_range s 1).
Proof.
  assert (Hiff : forall c, c ∈ Coord.iter_adjacent s <-> orthogonal_neighbor s c)
    by (intros c; apply elem_of_iter_adjacent).
  split; [exact Hiff|]. split.
  - unfold Coord.iter_adjacent.
    repeat (apply NoDup_cons; split;
            [rewrite ?elem_of_cons, elem_of_nil;
             intros H; repeat destruct H as [H|H]; try inversion H; lia|]).
    apply NoDup_nil_2.
  - intros c Hc. apply chebyshev_iter_range. apply Hiff in Hc.
    unfold orthogonal_neighbor in Hc. unfold chebyshev. lia.
Qed.

(** X5. [iter_range] yields exactly the cells within Chebyshev distance
    [dist] of the centre, each once: (2 dist + 1) squared cells. *)
Theorem iter_range_is_chebyshev_ball s dist :
  (forall c, c ∈ Coord.iter_range s dist <-> chebyshev s c <= dist)
  /\ NoDup (Coord.iter_range s dist)
  /\ length (Coord.iter_range s dist)
     = (Z.to_nat (2 * dist + 1) * Z.to_nat (2 * dist + 1))%nat.
Proof.
  split; [|split].
  - intros c. rewrite elem_of_iter_range. unfold chebyshev. lia.
  - apply NoDup_iter_range.
  - apply length_iter_range.
Qed.

Lemma elem_of_board_cells g c :
  c ∈ CoordPair.iter_rectangle
        (CoordPair.from_dim (Options.dim (Game.options g)))
  <-> Game.is_valid_coord g c = true.
Proof.
  unfold CoordPair.iter_rectangle, CoordPair.from_dim. simpl.
  rewrite is_valid_coord_spec, flat_map_bind, list_elem_of_bind.
  split.
  - intros (r & Hc & Hr). apply list_elem_of_fmap in Hc as (k & -> & Hk).
    apply elem_of_range in Hr, Hk. simpl. lia.
  - intros [Hr Hk]. exists (Coord.row c). split.
    + apply list_elem_of_fmap. exists (Coord.col c).
      split; [destruct c; reflexivity|]. apply elem_of_range. lia.
    + apply elem_of_range. lia.
Qed.

Lemma NoDup_board_cells dim :
  NoDup (CoordPair.iter_rectangle (CoordPair.from_dim dim)).
Proof.
  unfold CoordPair.iter_rectangle, CoordPair.from_dim. simpl.
  rewrite flat_map_bind. apply NoDup_bind.
  - intros r1 r2 c _ _ H1 H2.
    apply list_elem_of_fmap in H1 as (k1 & -> & _).
    apply list_elem_of_fmap in H2 as (k2 & E & _).
    simpl in E. inversion E. reflexivity.
  - intros r _. apply NoDup_fmap_2; [|apply NoDup_range].
    intros k1 k2 E. inversion E. reflexivity.
  - apply NoDup_range.
Qed.

(** X8. The rectangle of [from_dim dim] is the board: it holds exactly
    the valid coordinates, each once, in dim * dim cells. *)
Theorem iter_rectangle_is_board g :
  let cells := CoordPair.iter_rectangle
                 (CoordPair.from_dim (Options.dim (Game.options g))) in
  (forall c, c ∈ cells <-> Game.is_valid_coord g c = true)
  /\ NoDup cells
  /\ length cells = (Z.to_nat (Options.dim (Game.options g))
                     * Z.to_nat (Options.dim (Game.options g)))%nat.
Proof.
  simpl. split; [|split].
  - intros c. apply elem_of_board_cells.
  - apply NoDup_board_cells.
  - unfold CoordPair.iter_rectangle, CoordPair.from_dim. simpl.
    rewrite (length_flat_map_const _ (Z.to_nat (Options.dim (Game.options g)))).
    + rewrite length_range. f_equal. f_equal. lia.
    + intros r. rewrite length_map, length_range. f_equal. lia.
Qed.

Lemma coord_round_trip_all :
  forallb (fun r => forallb (coord_round_trip r) (range 0 16)) (range 0 26)
  = true.
Proof. vm_compute. reflexivity. Qed.

Lemma coord_round_trip_ok r k :
  0 <= r < 26 -> 0 <= k < 16 -> coord_round_trip r k = true.
Proof.
  intros Hr Hk. pose proof coord_round_trip_all as H.
  rewrite forallb_forall in H.
  specialize (H r ltac:(apply list_elem_of_In, elem_of_range; lia)).
  rewrite forallb_forall in H.
  apply H, list_elem_of_In, elem_of_range. lia.
Qed.

(** X6. Round trip of a coordinate: a cell with a row below 26 and a
    column below 16 is written as two characters, which [from_string]
    reads back as the same cell. *)
Theorem coord_to_string_from_string c :
  0 <= Coord.row c < 26 -> 0 <= Coord.col c < 16 ->
  exists s, Coord.to_string c = Some s
            /\ String.length s = 2%nat
            /\ Coord.from_string s = Some c.
Proof.
  intros Hr Hk. pose proof (coord_round_trip_ok _ _ Hr Hk) as H.
  unfold coord_round_trip in H. destruct c as [r k]. simpl in *.
  destruct (Coord.to_string (Coord.mk r k)) as [s|]; [|discriminate].
  apply andb_true_iff in H as [H1 H2].
  apply bool_decide_eq_true in H1. apply Nat.eqb_eq in H2. eauto.
Qed.

Lemma coord_to_string_from_string_witness :
  exists s, Coord.to_string (Coord.mk 3 4) = Some s
            /\ String.length s = 2%nat
            /\ Coord.from_string s = Some (Coord.mk 3 4).
Proof.
  exact (coord_to_string_from_string (Coord.mk 3 4)
           ltac:(simpl; lia) ltac:(simpl; lia)).
Defined.

Lemma coord_chars_all :
  forallb (fun r => forallb (coord_chars_ok r) (range 0 16)) (range 0 26)
  = true.
Proof. vm_compute. reflexivity. Qed.

Lemma coord_chars c :
  0 <= Coord.row c < 26 -> 0 <= Coord.col c < 16 ->
  exists a b,
    Coord.to_string c = Some (String a (String b EmptyString))
    /\ plain a = true /\ plain b = true
    /\ row_of a = Coord.row c /\ col_of b = Coord.col c.
Proof.
  intros Hr Hk. pose proof coord_chars_all as H.
  rewrite forallb_forall in H.
  specialize (H (Coord.row c) ltac:(apply list_elem_of_In, elem_of_range; lia)).
  rewrite forallb_forall in H.
  specialize (H (Coord.col c) ltac:(apply list_elem_of_In, elem_of_range; lia)).
  unfold coord_chars_ok in H. destruct c as [r k]. simpl in *.
  destruct (Coord.to_string (Coord.mk r k)) as [[|a [|b [|? ?]]]|];
    try discriminate.
  apply andb_true_iff in H as [H Hk'].
  apply andb_true_iff in H as [H Hr'].
  apply andb_true_iff in H as [Ha Hb].
  apply Z.eqb_eq in Hk', Hr'.
  exists a, b. repeat split; assumption.
Qed.

Lemma cleaned_pair a1 b1 a2 b2 :
  plain a1 = true -> plain b1 = true -> plain a2 = true -> plain b2 = true ->
  cleaned (String a1 (String b1 (String " " (String a2 (String b2 EmptyString)))))
  = String a1 (String b1 (String a2 (String b2 EmptyString))).
Proof.
  unfold plain. intros H1 H2 H3 H4.
  apply andb_true_iff in H1 as [S1 F1], H2 as [S2 F2],
                         H3 as [S3 F3], H4 as [S4 F4].
  apply negb_true_iff in S1, S2, S3, S4.
  simpl in F1, F2, F3, F4.
  repeat match goal with
         | H : _ && _ = true |- _ => apply andb_true_iff in H as [? ?]
         | H : negb _ = true |- _ => apply negb_true_iff in H
         end.
  unfold cleaned, PyStr.strip, PyStr.rstrip.
  cbn [PyStr.lstrip]. rewrite S1.
  cbn [PyStr.rev_string PyStr.lstrip]. rewrite S4.
  cbn [PyStr.rev_string].
  unfold PyStr.remove_separators.
  cbn [list_ascii_of_string fold_left].
  repeat (cbn;
          match goal with
          | H : Ascii.eqb _ _ = false |- _ => rewrite H
          end).
  reflexivity.
Qed.

(** X7. Round trip of a move: a pair of cells of the 26 x 16 grid is
    written as the two cells separated by a space, which
    [CoordPair.from_string] reads back as the same pair. *)
Theorem coordpair_to_string_from_string p :
  0 <= Coord.row (CoordPair.src p) < 26 ->
  0 <= Coord.col (CoordPair.src p) < 16 ->
  0 <= Coord.row (CoordPair.dst p) < 26 ->
  0 <= Coord.col (CoordPair.dst p) < 16 ->
  exists s, CoordPair.to_string p = Some s
            /\ CoordPair.from_string s = Some p.
Proof.
  intros H1 H2 H3 H4.
  destruct (coord_chars _ H1 H2) as (a1 & b1 & E1 & Pa1 & Pb1 & Ra1 & Cb1).
  destruct (coord_chars _ H3 H4) as (a2 & b2 & E2 & Pa2 & Pb2 & Ra2 & Cb2).
  unfold CoordPair.to_string. rewrite E1, E2.
  exists (String a1 (String b1 (String " " (String a2 (String b2 EmptyString))))).
  split; [reflexivity|].
  unfold CoordPair.from_string.
  fold (cleaned (String a1 (String b1 (String " "
                   (String a2 (String b2 EmptyString)))))).
  rewrite cleaned_pair by assumption.
  cbn [String.length Nat.eqb].
  change (PyStr.find PyStr.ROWS (PyStr.upper (PyStr.slice
            (String a1 (String b1 (String a2 (String b2 EmptyString)))) 0 1)))
    with (row_of a1).
  change (PyStr.find PyStr.COLS (PyStr.lower (PyStr.slice
            (String a1 (String b1 (String a2 (String b2 EmptyString)))) 1 2)))
    with (col_of b1).
  change (PyStr.find PyStr.ROWS (PyStr.upper (PyStr.slice
            (String a1 (String b1 (String a2 (String b2 EmptyString)))) 2 3)))
    with (row_of a2).
  change (PyStr.find PyStr.COLS (PyStr.lower (PyStr.slice
            (String a1 (String b1 (String a2 (String b2 EmptyString)))) 3 4)))
    with (col_of b2).
  rewrite Ra1, Cb1, Ra2, Cb2. destruct p as [[r1 k1] [r2 k2]]. reflexivity.
Qed.

Lemma coordpair_to_string_from_string_witness :
  exists s, CoordPair.to_string (CoordPair.mk (Coord.mk 3 4) (Coord.mk 2 4))
            = Some s
            /\ CoordPair.from_string s
               = Some (CoordPair.mk (Coord.mk 3 4) (Coord.mk 2 4)).
Proof.
  exact (coordpair_to_string_from_string
           (CoordPair.mk (Coord.mk 3 4) (Coord.mk 2 4))
           ltac:(simpl; lia) ltac:(simpl; lia)
           ltac:(simpl; lia) ltac:(simpl; lia)).
Defined.

(** * The board as a store *)

(** X9. Writing a cell and reading the board: the written cell holds
    the new contents, every other cell keeps its own, and a write
    outside the board is ignored. *)
Theorem get_after_set g c x c' :
  wf_board g ->
  Game.get (Game.set g c x) c'
  = if decide (c' = c)
    then (if Game.is_valid_coord g c then x else None)
    else Game.get g c'.
Proof.
  intros Hwf. destruct (decide (c' = c)) as [->|Hne].
  - destruct (Game.is_valid_coord g c) eqn:Hv.
    + apply get_set_eq; assumption.
    + unfold Game.set, Game.get. rewrite Hv, Hv. reflexivity.
  - apply get_set_ne. congruence.
Qed.

Lemma get_after_set_witness :
  Game.get (Game.set opening (Coord.mk 2 2) (Some (Unit.mk Attacker Tech 5)))
           (Coord.mk 2 2)
  = Some (Unit.mk Attacker Tech 5).
Proof.
  exact (get_after_set opening (Coord.mk 2 2) (Some (Unit.mk Attacker Tech 5))
           (Coord.mk 2 2) ltac:(apply wf_boardb_sound; vm_compute; reflexivity)).
Defined.

Lemma elem_of_player_units g p c u :
  (c, u) ∈ Game.player_units g p
  <-> Game.get g c = Some u /\ Unit.player u = p.
Proof.
  unfold Game.player_units. rewrite flat_map_bind, list_elem_of_bind. split.
  - intros (c' & Hin & _). destruct (Game.get g c') as [u'|] eqn:E;
      [|inversion Hin].
    destruct (bool_decide (Unit.player u' = p)) eqn:Ep; [|inversion Hin].
    apply bool_decide_eq_true in Ep.
    apply list_elem_of_singleton in Hin. inversion Hin; subst. auto.
  - intros [Hg Hp]. exists c. split.
    + rewrite Hg, bool_decide_eq_true_2 by exact Hp.
      apply list_elem_of_singleton. reflexivity.
    + apply elem_of_board_cells. eapply get_valid, Hg.
Qed.

Lemma NoDup_player_units g p : NoDup (Game.player_units g p).
Proof.
  unfold Game.player_units. rewrite flat_map_bind. apply NoDup_bind.
  - intros c1 c2 [c u] _ _ H1 H2.
    destruct (Game.get g c1); [|inversion H1].
    destruct (bool_decide _); [|inversion H1].
    apply list_elem_of_singleton in H1.
    destruct (Game.get g c2); [|inversion H2].
    destruct (bool_decide _); [|inversion H2].
    apply list_elem_of_singleton in H2. congruence.
  - intros c _. destruct (Game.get g c); [|apply NoDup_nil_2].
    destruct (bool_decide _); [apply NoDup_singleton|apply NoDup_nil_2].
  - apply NoDup_board_cells.
Qed.

(** X10. [player_units] lists exactly the units of a side that stand on
    the board, each with its cell, each once. *)
Theorem player_units_exact g p :
  (forall c u, (c, u) ∈ Game.player_units g p
               <-> Game.get g c = Some u /\ Unit.player u = p)
  /\ NoDup (Game.player_units g p).
Proof. split; [apply elem_of_player_units|apply NoDup_player_units]. Qed.

(** X11. A unit is in combat exactly when one of its four orthogonal
    neighbours holds a unit of the other side. *)
Theorem in_combat_iff_enemy_neighbor g c u :
  Game.get g c = Some u ->
  Game.in_combat g c = true
  <-> exists c' u', orthogonal_neighbor c c'
                    /\ Game.get g c' = Some u'
                    /\ Unit.player u' <> Unit.player u.
Proof.
  intros Hg. unfold Game.in_combat. rewrite Hg, existsb_exists. split.
  - intros (c' & Hin & H). exists c'.
    destruct (Game.get g c') as [u'|] eqn:E; [|discriminate].
    exists u'. apply andb_true_iff in H as [_ H].
    apply bool_decide_eq_true in H.
    split; [|split; [reflexivity|congruence]].
    apply list_elem_of_In in Hin. revert Hin.
    unfold Coord.iter_adjacent, orthogonal_neighbor.
    rewrite !elem_of_cons, elem_of_nil.
    intros [->|[->|[->|[->|[]]]]]; simpl; lia.
  - intros (c' & u' & Hn & Hg' & Hp). exists c'. split.
    + apply list_elem_of_In. destruct c' as [r k].
      unfold orthogonal_neighbor in Hn. simpl in Hn.
      unfold Coord.iter_adjacent. rewrite !elem_of_cons.
      assert (Hc : (r = Coord.row c - 1 /\ k = Coord.col c)
                   \/ (r = Coord.row c /\ k = Coord.col c - 1)
                   \/ (r = Coord.row c + 1 /\ k = Coord.col c)
                   \/ (r = Coord.row c /\ k = Coord.col c + 1)) by lia.
      destruct Hc as [[-> ->]|[[-> ->]|[[-> ->]|[-> ->]]]]; auto.
    + rewrite Hg'. rewrite (get_valid _ _ _ Hg').
      unfold Game.is_empty. unfold Game.get in Hg'.
      rewrite (get_valid g c' u') in Hg'
        by (unfold Game.get; destruct (Game.is_valid_coord g c');
            [assumption|discriminate]).
      rewrite Hg'. simpl. apply bool_decide_eq_true_2. congruence.
Qed.

Lemma in_combat_iff_enemy_neighbor_witness :
  Game.in_combat duel (Coord.mk 1 0) = true.
Proof.
  apply (proj2 (in_combat_iff_enemy_neighbor duel (Coord.mk 1 0)
                  (Unit.mk Attacker Virus 9) eq_refl)).
  exists (Coord.mk 0 0), (Unit.mk Defender AI 9).
  split; [left; simpl; lia|]. split; [reflexivity|discriminate].
Defined.

(** * Well-formedness is an invariant of play *)

Lemma wf_fold_set (l : list (Z * Z * Unit.t)) g :
  Forall (fun x => health_in_range (snd x)) l ->
  wf_board g -> wf_units g ->
  wf_board (fold_left (fun g '(r, c, u) => Game.set g (Coord.mk r c) (Some u)) l g)
  /\ wf_units (fold_left (fun g '(r, c, u) => Game.set g (Coord.mk r c) (Some u)) l g).
Proof.
  intros Hl. revert g.
  induction Hl as [|[[r c] u] l Hu _ IH]; intros g Hb Hun; simpl.
  - split; assumption.
  - apply IH; [apply wf_board_set, Hb|].
    apply wf_units_set; [assumption|assumption|].
    intros u' E. inversion E; subst. exact Hu.
Qed.

(** X12. The position [__post_init__] builds is well formed for every
    dimension: the board is dim x dim and every unit has health within
    [0, 9]; and performing a move, accepted or not, and passing the
    turn keep a position well formed. *)
Theorem well_formed_play :
  (forall options,
     wf_board (Game.post_init options) /\ wf_units (Game.post_init options))
  /\ (forall g m,
        wf_board g -> wf_units g ->
        wf_board (snd (Game.perform_move g m))
        /\ wf_units (snd (Game.perform_move g m)))
  /\ (forall g,
        wf_board g -> wf_units g ->
        wf_board (Game.next_turn g) /\ wf_units (Game.next_turn g)).
Proof.
  split; [|split].
  - intros o. unfold Game.post_init. apply wf_fold_set.
    + repeat constructor; simpl; unfold health_in_range; simpl; lia.
    + split; simpl.
      * apply length_replicate.
      * apply Forall_replicate, length_replicate.
    + intros c u H. unfold Game.get, Game.cell in H. simpl in H.
      destruct (Game.is_valid_coord _ _); [|discriminate].
      destruct (replicate _ _ !! _) as [r|] eqn:E1; [|discriminate].
      apply lookup_replicate in E1 as [-> _].
      destruct (replicate _ _ !! _) as [x|] eqn:E2; [|discriminate].
      apply lookup_replicate in E2 as [-> _]. discriminate.
  - intros g m Hb Hu. split.
    + apply wf_board_perform_move, Hb.
    + apply wf_units_perform_move; assumption.
  - intros g Hb Hu. split; assumption.
Qed.

Lemma well_formed_play_witness :
  wf_board (snd (Game.perform_move opening
                   (CoordPair.mk (Coord.mk 2 4) (Coord.mk 1 4))))
  /\ wf_units (snd (Game.perform_move opening
                      (CoordPair.mk (Coord.mk 2 4) (Coord.mk 1 4)))).
Proof.
  exact (proj1 (proj2 well_formed_play) opening
           (CoordPair.mk (Coord.mk 2 4) (Coord.mk 1 4))
           ltac:(apply wf_boardb_sound; vm_compute; reflexivity)
           ltac:(apply wf_unitsb_sound; vm_compute; reflexivity)).
Defined.

(** * What the validator accepts *)

Lemma is_valid_move_self_destruct g c u :
  Game.get g c = Some u -> Unit.player u = Game.next_player g ->
  Game.is_valid_move g (CoordPair.mk c c) = true.
Proof.
  intros Hg Hp. unfold Game.is_valid_move. simpl.
  rewrite (get_valid g c u Hg), Hg. simpl.
  rewrite bool_decide_eq_false_2 by (intros H; apply H, Hp).
  rewrite bool_decide_eq_true_2 by reflexivity. reflexivity.
Qed.

Lemma is_valid_move_own_unit g m :
  Game.is_valid_move g m = true ->
  Game.is_valid_coord g (CoordPair.src m) = true
  /\ Game.is_valid_coord g (CoordPair.dst m) = true
  /\ exists u, Game.get g (CoordPair.src m) = Some u
               /\ Unit.player u = Game.next_player g.
Proof.
  unfold Game.is_valid_move. intros H.
  destruct (Game.is_valid_coord g (CoordPair.src m)) eqn:E1; [|discriminate].
  destruct (Game.is_valid_coord g (CoordPair.dst m)) eqn:E2; [|discriminate].
  simpl in H.
  destruct (Game.get g (CoordPair.src m)) as [u|]; [|discriminate].
  destruct (bool_decide (Unit.player u ≠ Game.next_player g)) eqn:Ep;
    [discriminate|].
  apply bool_decide_eq_false in Ep.
  repeat split. exists u. split; [reflexivity|].
  destruct (decide (Unit.player u = Game.next_player g)); [assumption|].
  contradiction.
Qed.

(** X13. An accepted move starts on the board from a unit of the side
    to move and ends on the board; and the self-destruct move of every
    unit of the side to move is accepted. *)
Theorem is_valid_move_own_unit_on_board g :
  (forall m, Game.is_valid_move g m = true ->
     Game.is_valid_coord g (CoordPair.src m) = true
     /\ Game.is_valid_coord g (CoordPair.dst m) = true
     /\ exists u, Game.get g (CoordPair.src m) = Some u
                  /\ Unit.player u = Game.next_player g)
  /\ (forall c u, Game.get g c = Some u ->
        Unit.player u = Game.next_player g ->
        Game.is_valid_move g (CoordPair.mk c c) = true).
Proof.
  split; [apply is_valid_move_own_unit|apply is_valid_move_self_destruct].
Qed.

Lemma is_valid_move_own_unit_on_board_witness :
  Game.is_valid_move opening (CoordPair.mk (Coord.mk 4 4) (Coord.mk 4 4))
  = true.
Proof.
  exact (proj2 (is_valid_move_own_unit_on_board opening) (Coord.mk 4 4)
           (Unit.mk Attacker AI 9) eq_refl eq_refl).
Defined.

Lemma is_valid_move_friend g m uS uD :
  Game.is_valid_coord g (CoordPair.src m) = true ->
  Game.is_valid_coord g (CoordPair.dst m) = true ->
  Game.get g (CoordPair.src m) = Some uS ->
  Game.get g (CoordPair.dst m) = Some uD ->
  Unit.player uS = Game.next_player g ->
  Unit.player uD = Unit.player uS ->
  CoordPair.dst m <> CoordPair.src m ->
  Z.abs (Coord.col (CoordPair.src m) - Coord.col (CoordPair.dst m)) <= 1 ->
  Unit.health uD <= 9 ->
  Game.is_valid_move g m = true
  <-> Unit.health uD < 9 /\ 0 < Unit.repair_amount uS uD.
Proof.
  intros V1 V2 Hs Hd Hp Hsame Hne Hcol Hh.
  unfold Game.is_valid_move. rewrite V1, V2, Hs, Hd. simpl.
  rewrite bool_decide_eq_false_2 by (intros H; apply H, Hp).
  rewrite bool_decide_eq_false_2 by exact Hne.
  destruct (Z.abs _ >? 1) eqn:E; [lia|].
  rewrite bool_decide_eq_true_2 by exact Hsame. simpl.
  destruct (Unit.health uD <? 9) eqn:E9; simpl.
  - destruct (Unit.repair_amount uS uD >? 0) eqn:Er; simpl.
    + split; [lia|reflexivity].
    + destruct (Unit.health uD =? 9) eqn:E99; [lia|].
      rewrite orb_true_r. split; [discriminate|lia].
  - destruct (Unit.health uD =? 9) eqn:E99; [|lia].
    split; [discriminate|lia].
Qed.

(** X14. Moving onto a friendly unit is accepted exactly as a repair
    that does something: the target has less than 9 health and the
    repair table gives the mover a positive amount for it. *)
Theorem friendly_target_accepted_iff_repair g m uS uD :
  Game.is_valid_coord g (CoordPair.src m) = true ->
  Game.is_valid_coord g (CoordPair.dst m) = true ->
  Game.get g (CoordPair.src m) = Some uS ->
  Game.get g (CoordPair.dst m) = Some uD ->
  Unit.player uS = Game.next_player g ->
  Unit.player uD = Unit.player uS ->
  CoordPair.dst m <> CoordPair.src m ->
  Z.abs (Coord.col (CoordPair.src m) - Coord.col (CoordPair.dst m)) <= 1 ->
  0 <= Unit.health uD <= 9 ->
  Game.is_valid_move g m = true
  <-> Unit.health uD < 9
      /\ 0 < Unit.table_entry Unit.repair_table (Unit.type uS) (Unit.type uD).
Proof.
  intros V1 V2 Hs Hd Hp Hsame Hne Hcol Hh.
  rewrite (is_valid_move_friend g m uS uD) by (try assumption; lia).
  unfold Unit.repair_amount.
  destruct (_ >? 9) eqn:E; lia.
Qed.

Lemma friendly_target_accepted_iff_repair_witness :
  Game.is_valid_move mending (CoordPair.mk (Coord.mk 0 1) (Coord.mk 0 0))
  = true.
Proof.
  apply (proj2 (friendly_target_accepted_iff_repair mending
                  (CoordPair.mk (Coord.mk 0 1) (Coord.mk 0 0))
                  (Unit.mk Defender Tech 9) (Unit.mk Defender AI 7)
                  eq_refl eq_refl eq_refl eq_refl eq_refl eq_refl
                  ltac:(discriminate) ltac:(vm_compute; discriminate)
                  ltac:(vm_compute; split; discriminate))).
  vm_compute. split; reflexivity.
Defined.

(** * What a move changes *)

Lemma next_player_fold_mod_health d cs g :
  Game.next_player (fold_left (fun g a => Game.mod_health g a d) cs g)
  = Game.next_player g.
Proof.
  revert g. induction cs as [|a cs IH]; intros g; simpl; [reflexivity|].
  rewrite IH. apply next_player_mod_health.
Qed.

Lemma turns_played_fold_mod_health d cs g :
  Game.turns_played (fold_left (fun g a => Game.mod_health g a d) cs g)
  = Game.turns_played g.
Proof.
  revert g. induction cs as [|a cs IH]; intros g; simpl; [reflexivity|].
  rewrite IH. apply turns_played_mod_health.
Qed.

Lemma next_player_perform_move g m :
  Game.next_player (snd (Game.perform_move g m)) = Game.next_player g.
Proof.
  unfold Game.perform_move.
  destruct (Game.is_valid_move g m); [|reflexivity].
  destruct (bool_decide _).
  - destruct (Game.get _ _); simpl;
      rewrite ?next_player_mod_health; apply next_player_fold_mod_health.
  - destruct (Game.get g (CoordPair.src m)) as [uS|];
      destruct (Game.get g (CoordPair.dst m)) as [uD|]; simpl;
      rewrite ?next_player_set; try reflexivity.
    destruct (bool_decide _); simpl; rewrite ?next_player_mod_health;
      reflexivity.
Qed.

Lemma turns_played_perform_move g m :
  Game.turns_played (snd (Game.perform_move g m)) = Game.turns_played g.
Proof.
  unfold Game.perform_move.
  destruct (Game.is_valid_move g m); [|reflexivity].
  destruct (bool_decide _).
  - destruct (Game.get _ _); simpl;
      rewrite ?turns_played_mod_health; apply turns_played_fold_mod_health.
  - destruct (Game.get g (CoordPair.src m)) as [uS|];
      destruct (Game.get g (CoordPair.dst m)) as [uD|]; simpl;
      rewrite ?turns_played_set; try reflexivity.
    destruct (bool_decide _); simpl; rewrite ?turns_played_mod_health;
      reflexivity.
Qed.

Lemma perform_move_success g m :
  fst (Game.perform_move g m) = Game.is_valid_move g m.
Proof.
  unfold Game.perform_move.
  destruct (Game.is_valid_move g m); [|reflexivity].
  destruct (bool_decide _).
  - destruct (Game.get _ _); reflexivity.
  - destruct (Game.get g (CoordPair.src m)) as [uS|];
      destruct (Game.get g (CoordPair.dst m)) as [uD|]; try reflexivity.
    destruct (bool_decide _); reflexivity.
Qed.

(** X15. [perform_move] succeeds exactly on the moves the validator
    accepts; a rejected move leaves the state as it is; and no move
    passes the turn: the side to move, the turn count and the options
    are those of before. *)
Theorem perform_move_keeps_the_turn g m :
  fst (Game.perform_move g m) = Game.is_valid_move g m
  /\ (Game.is_valid_move g m = false -> snd (Game.perform_move g m) = g)
  /\ Game.next_player (snd (Game.perform_move g m)) = Game.next_player g
  /\ Game.turns_played (snd (Game.perform_move g m)) = Game.turns_played g
  /\ Game.options (snd (Game.perform_move g m)) = Game.options g.
Proof.
  split; [apply perform_move_success|].
  split; [intros H; unfold Game.perform_move; rewrite H; reflexivity|].
  split; [apply next_player_perform_move|].
  split; [apply turns_played_perform_move|apply options_perform_move].
Qed.

Lemma flags_set g c x :
  Game._attacker_has_ai (Game.set g c x) = Game._attacker_has_ai g
  /\ Game._defender_has_ai (Game.set g c x) = Game._defender_has_ai g.
Proof. unfold Game.set. destruct (Game.is_valid_coord g c); split; reflexivity. Qed.

(** X16. A plain relocation: an accepted move to an empty cell carries
    the unit from src to dst, unchanged; src is left empty, every other
    cell and both AI flags are as before. *)
Theorem relocation_effect g m u :
  wf_board g ->
  Game.is_valid_move g m = true ->
  CoordPair.dst m <> CoordPair.src m ->
  Game.get g (CoordPair.src m) = Some u ->
  Game.get g (CoordPair.dst m) = None ->
  let g' := snd (Game.perform_move g m) in
  Game.get g' (CoordPair.dst m) = Some u
  /\ Game.get g' (CoordPair.src m) = None
  /\ (forall c, c <> CoordPair.src m -> c <> CoordPair.dst m ->
        Game.get g' c = Game.get g c)
  /\ Game._attacker_has_ai g' = Game._attacker_has_ai g
  /\ Game._defender_has_ai g' = Game._defender_has_ai g.
Proof.
  intros Hwf Hv Hne Hs Hd. simpl.
  destruct (is_valid_move_own_unit g m Hv) as (V1 & V2 & _).
  unfold Game.perform_move. rewrite Hv.
  rewrite bool_decide_eq_false_2 by exact Hne.
  rewrite Hs, Hd. simpl.
  split; [|split; [|split]].
  - rewrite get_set_ne by congruence. apply get_set_eq; assumption.
  - apply get_set_eq; [apply wf_board_set, Hwf|].
    rewrite is_valid_coord_set. exact V1.
  - intros c H1 H2. rewrite !get_set_ne by congruence. reflexivity.
  - destruct (flags_set (Game.set g (CoordPair.dst m) (Some u))
                (CoordPair.src m) None) as [-> ->].
    destruct (flags_set g (CoordPair.dst m) (Some u)) as [-> ->].
    split; reflexivity.
Qed.

Lemma relocation_effect_witness :
  let g' := snd (Game.perform_move opening
                   (CoordPair.mk (Coord.mk 2 4) (Coord.mk 1 4))) in
  Game.get g' (Coord.mk 1 4) = Some (Unit.mk Attacker Program 9)
  /\ Game.get g' (Coord.mk 2 4) = None.
Proof.
  pose proof (relocation_effect opening
                (CoordPair.mk (Coord.mk 2 4) (Coord.mk 1 4))
                (Unit.mk Attacker Program 9)
                ltac:(apply wf_boardb_sound; vm_compute; reflexivity) eq_refl
                ltac:(discriminate) eq_refl eq_refl) as (H1 & H2 & _).
  split; [exact H1|exact H2].
Defined.

(** X17. A repair: an accepted move onto a friendly unit raises the
    target's health by the repair amount, which is positive and leaves
    it at most 9; the healer and every other cell are unchanged. *)
Theorem repair_effect g m uS uD :
  wf_board g -> wf_units g ->
  Game.is_valid_move g m = true ->
  CoordPair.dst m <> CoordPair.src m ->
  Game.get g (CoordPair.src m) = Some uS ->
  Game.get g (CoordPair.dst m) = Some uD ->
  Unit.player uD = Unit.player uS ->
  let g' := snd (Game.perform_move g m) in
  let rpr := Unit.repair_amount uS uD in
  0 < rpr /\ Unit.health uD + rpr <= 9
  /\ Game.get g' (CoordPair.dst m)
     = Some (Unit.set_health uD (Unit.health uD + rpr))
  /\ (forall c, c <> CoordPair.dst m -> Game.get g' c = Game.get g c).
Proof.
  intros Hwf Hu Hv Hne Hs Hd Hsame. simpl.
  destruct (is_valid_move_own_unit g m Hv) as (V1 & V2 & u & Hs' & Hp).
  rewrite Hs in Hs'. inversion Hs'; subst u.
  pose proof (Hu _ _ Hd) as Hh. unfold health_in_range in Hh.
  pose proof (is_valid_move_column_bound g m Hv) as Hcol.
  pose proof (proj1 (is_valid_move_friend g m uS uD V1 V2 Hs Hd Hp Hsame Hne
                       Hcol ltac:(lia)) Hv) as [H9 Hpos].
  pose proof (repair_amount_bound uS uD Hh) as Hb.
  unfold Game.perform_move. rewrite Hv.
  rewrite bool_decide_eq_false_2 by exact Hne.
  rewrite Hs, Hd.
  rewrite bool_decide_eq_false_2 by (intros H; apply H; congruence).
  simpl.
  split; [exact Hpos|]. split; [lia|]. split.
  - rewrite get_mod_health_eq by exact Hwf. rewrite Hd.
    unfold survivor, Unit.is_alive, Unit.mod_health.
    destruct (_ <? 0) eqn:E1; [lia|].
    destruct (_ >? 9) eqn:E2; [lia|]. simpl.
    destruct (_ >? 0) eqn:E3; [reflexivity|lia].
  - intros c Hc. apply get_mod_health_ne. congruence.
Qed.

Lemma repair_effect_witness :
  Game.get (snd (Game.perform_move mending
                   (CoordPair.mk (Coord.mk 0 1) (Coord.mk 0 0))))
           (Coord.mk 0 0)
  = Some (Unit.mk Defender AI 9).
Proof.
  pose proof (repair_effect mending
                (CoordPair.mk (Coord.mk 0 1) (Coord.mk 0 0))
                (Unit.mk Defender Tech 9) (Unit.mk Defender AI 7)
                ltac:(apply wf_boardb_sound; vm_compute; reflexivity)
                ltac:(apply wf_unitsb_sound; vm_compute; reflexivity)
                eq_refl ltac:(discriminate) eq_refl eq_refl eq_refl)
    as (_ & _ & H & _).
  exact H.
Defined.

(** * The AI flags and the board *)

Lemma ai_at_cells g p c :
  ai_at g p c <-> exists u, (c, u) ∈ ai_cells g p.
Proof.
  unfold ai_at, ai_cells. split.
  - intros (u & Hg & Ht & Hp). exists u.
    apply list_elem_of_filter. split; [exact Ht|].
    apply elem_of_player_units. auto.
  - intros (u & H). apply list_elem_of_filter in H as [Ht H].
    apply elem_of_player_units in H as [Hg Hp]. exists u. auto.
Qed.

Lemma ai_flags_reflect_boardb_sound g :
  ai_flags_reflect_boardb g = true -> ai_flags_reflect_board g.
Proof.
  unfold ai_flags_reflect_boardb. intros H p.
  rewrite forallb_forall in H.
  specialize (H p ltac:(destruct p; simpl; auto)).
  destruct (ai_cells g p) as [|[c0 u0] [|? ?]] eqn:E; [| |discriminate].
  - apply negb_true_iff in H. split.
    + split; [congruence|].
      intros (c & Hc). apply ai_at_cells in Hc as (u & Hu).
      rewrite E in Hu. inversion Hu.
    + intros c1 c2 H1 _. apply ai_at_cells in H1 as (u & Hu).
      rewrite E in Hu. inversion Hu.
  - split.
    + split; [|intros _; exact H].
      intros _. exists c0. apply ai_at_cells. exists u0. rewrite E. left.
    + intros c1 c2 H1 H2.
      apply ai_at_cells in H1 as (u1 & Hu1), H2 as (u2 & Hu2).
      rewrite E in Hu1, Hu2.
      apply list_elem_of_singleton in Hu1, Hu2. congruence.
Qed.

Lemma flags_remove_dead g c p :
  ai_flag (Game.remove_dead g c) p
  = ai_flag g p
    && negb (match Game.get g c with
             | Some u => negb (Unit.is_alive u)
                         && bool_decide (Unit.type u = AI)
                         && bool_decide (Unit.player u = p)
             | None => false
             end).
Proof.
  unfold Game.remove_dead.
  destruct (Game.get g c) as [u|]; [|rewrite andb_true_r; reflexivity].
  destruct (Unit.is_alive u); simpl; [rewrite andb_true_r; reflexivity|].
  destruct (flags_set g c None) as [Ea Ed].
  destruct (Unit.type u), (Unit.player u), p; simpl;
    rewrite ?Ea, ?Ed, ?andb_true_r, ?andb_false_r; reflexivity.
Qed.

Lemma flags_mod_health g c d p :
  wf_board g ->
  ai_flag (Game.mod_health g c d) p
  = ai_flag g p
    && negb (match Game.get g c with
             | Some u => negb (Unit.is_alive (Unit.mod_health u d))
                         && bool_decide (Unit.type u = AI)
                         && bool_decide (Unit.player u = p)
             | None => false
             end).
Proof.
  intros Hwf. unfold Game.mod_health.
  destruct (Game.get g c) as [u|] eqn:Hg; [|rewrite andb_true_r; reflexivity].
  rewrite flags_remove_dead.
  rewrite get_set_eq by (try assumption; eapply get_valid, Hg).
  rewrite unit_mod_health_type, unit_mod_health_player.
  f_equal. destruct (flags_set g c (Some (Unit.mod_health u d))) as [Ea Ed].
  destruct p; simpl; assumption.
Qed.

Lemma ai_at_mod_health g c d p c' :
  wf_board g ->
  ai_at (Game.mod_health g c d) p c'
  <-> ai_at g p c'
      /\ ~ (c' = c /\ exists u, Game.get g c = Some u
                               /\ Unit.is_alive (Unit.mod_health u d) = false).
Proof.
  intros Hwf. unfold ai_at. destruct (decide (c' = c)) as [->|Hne].
  - rewrite get_mod_health_eq by exact Hwf.
    destruct (Game.get g c) as [u|] eqn:Hg.
    + unfold survivor.
      destruct (Unit.is_alive (Unit.mod_health u d)) eqn:Ea.
      * split.
        -- intros (u' & E & Ht & Hp). inversion E; subst u'.
           rewrite unit_mod_health_type in Ht.
           rewrite unit_mod_health_player in Hp.
           split; [eauto|]. intros (_ & u2 & E2 & Hd). congruence.
        -- intros ((u' & E & Ht & Hp) & _). inversion E; subst u'.
           eexists. split; [reflexivity|].
           rewrite unit_mod_health_type, unit_mod_health_player. auto.
      * split.
        -- intros (u' & E & _). discriminate.
        -- intros (_ & Hn). exfalso. apply Hn. eauto.
    + split.
      * intros (u' & E & _). discriminate.
      * intros ((u' & E & _) & _). discriminate.
  - rewrite get_mod_health_ne by congruence. split.
    + intros H. split; [exact H|]. intros [E _]. contradiction.
    + intros [H _]. exact H.
Qed.

Lemma ai_flags_mod_health g c d :
  wf_board g -> ai_flags_reflect_board g ->
  ai_flags_reflect_board (Game.mod_health g c d).
Proof.
  intros Hwf Hc p. destruct (Hc p) as [Hflag Huniq]. split.
  - rewrite flags_mod_health by exact Hwf.
    rewrite andb_true_iff, negb_true_iff, Hflag. split.
    + intros [(c0 & H0) Hd]. exists c0. apply ai_at_mod_health; [exact Hwf|].
      split; [exact H0|]. intros (-> & u & Hg & Hdead).
      destruct H0 as (u0 & Hg0 & Ht & Hp).
      rewrite Hg in Hg0. inversion Hg0; subst u0.
      rewrite Hg, Hdead in Hd. simpl in Hd.
      rewrite !bool_decide_eq_true_2 in Hd by assumption. discriminate.
    + intros (c0 & H0). apply ai_at_mod_health in H0 as [H0 Hn];
        [|exact Hwf].
      split; [eauto|].
      destruct (Game.get g c) as [u|] eqn:Hg; [|reflexivity].
      destruct (Unit.is_alive (Unit.mod_health u d)) eqn:Ea; [reflexivity|].
      simpl.
      destruct (bool_decide (Unit.type u = AI)) eqn:Et; [|reflexivity].
      destruct (bool_decide (Unit.player u = p)) eqn:Ep; [|reflexivity].
      apply bool_decide_eq_true in Et, Ep. exfalso. apply Hn.
      split; [|eauto]. apply (Huniq c0 c H0). exists u. auto.
  - intros c1 c2 H1 H2.
    apply ai_at_mod_health in H1 as [H1 _], H2 as [H2 _]; try exact Hwf.
    apply Huniq; assumption.
Qed.

Lemma ai_flags_fold_mod_health d cs g :
  wf_board g -> ai_flags_reflect_board g ->
  ai_flags_reflect_board (fold_left (fun g a => Game.mod_health g a d) cs g).
Proof.
  revert g. induction cs as [|a cs IH]; intros g Hwf Hc; simpl; [exact Hc|].
  apply IH; [apply wf_board_mod_health, Hwf|apply ai_flags_mod_health; assumption].
Qed.

Lemma ai_flags_relocation g src dst u :
  wf_board g ->
  Game.is_valid_coord g src = true -> Game.is_valid_coord g dst = true ->
  src <> dst ->
  Game.get g src = Some u -> Game.get g dst = None ->
  ai_flags_reflect_board g ->
  ai_flags_reflect_board (Game.set (Game.set g dst (Some u)) src None).
Proof.
  intros Hwf V1 V2 Hne Hs Hd Hc.
  set (g' := Game.set (Game.set g dst (Some u)) src None).
  assert (Hget : forall c, Game.get g' c
                 = if decide (c = src) then None
                   else if decide (c = dst) then Some u else Game.get g c).
  { intros c. unfold g'. destruct (decide (c = src)) as [->|H1].
    - apply get_set_eq; [apply wf_board_set, Hwf|].
      rewrite is_valid_coord_set. exact V1.
    - rewrite get_set_ne by congruence.
      destruct (decide (c = dst)) as [->|H2].
      + apply get_set_eq; assumption.
      + apply get_set_ne. congruence. }
  assert (Hat : forall p c, ai_at g' p c
                <-> (c = dst /\ ai_at g p src)
                    \/ (c <> src /\ c <> dst /\ ai_at g p c)).
  { intros p c. unfold ai_at. rewrite Hget.
    destruct (decide (c = src)) as [->|H1].
    - split.
      + intros (u' & E & _). discriminate.
      + intros [[E _]|[E _]]; congruence.
    - destruct (decide (c = dst)) as [->|H2].
      + split.
        * intros (u' & E & Ht & Hp). inversion E; subst u'.
          left. split; [reflexivity|]. exists u. auto.
        * intros [[_ (u' & E & Ht & Hp)]|[_ [E _]]]; [|congruence].
          rewrite Hs in E. inversion E; subst u'. exists u. auto.
      + split.
        * intros H. right. auto.
        * intros [[E _]|[_ [_ H]]]; [congruence|exact H]. }
  intros p. destruct (Hc p) as [Hflag Huniq].
  assert (Ef : ai_flag g' p = ai_flag g p).
  { unfold g'.
    destruct (flags_set (Game.set g dst (Some u)) src None) as [Ea Ed].
    destruct (flags_set g dst (Some u)) as [Ea' Ed'].
    destruct p; simpl; congruence. }
  split.
  - rewrite Ef, Hflag. split.
    + intros (c & H). destruct (decide (c = src)) as [->|H1].
      * exists dst. apply Hat. left. auto.
      * exists c. apply Hat. right. split; [exact H1|]. split; [|exact H].
        intros ->. destruct H as (u' & E & _). congruence.
    + intros (c & H). apply Hat in H as [[_ H]|[_ [_ H]]]; eauto.
  - intros c1 c2 H1 H2. apply Hat in H1, H2.
    destruct H1 as [[-> H1]|(N1 & N1' & H1)];
      destruct H2 as [[-> H2]|(N2 & N2' & H2)]; try reflexivity.
    + exfalso. apply N2. apply Huniq; assumption.
    + exfalso. apply N1. apply Huniq; assumption.
    + apply Huniq; assumption.
Qed.

Lemma ai_flags_perform_move g m :
  wf_board g -> ai_flags_reflect_board g ->
  ai_flags_reflect_board (snd (Game.perform_move g m)).
Proof.
  intros Hwf Hc. unfold Game.perform_move.
  destruct (Game.is_valid_move g m) eqn:Hv; [|exact Hc].
  destruct (is_valid_move_own_unit g m Hv) as (V1 & V2 & u & Hs & _).
  destruct (bool_decide (CoordPair.dst m = CoordPair.src m)) eqn:Ed.
  - match goal with
    | |- context [Game.get (fold_left ?f ?l ?g0) ?c] =>
        destruct (Game.get (fold_left f l g0) c)
    end; simpl;
      [apply ai_flags_mod_health;
         [apply wf_board_fold_mod_health, Hwf|]|];
      apply ai_flags_fold_mod_health; assumption.
  - apply bool_decide_eq_false in Ed. rewrite Hs.
    destruct (Game.get g (CoordPair.dst m)) as [uD|] eqn:Hd; simpl.
    + destruct (bool_decide _); simpl.
      * apply ai_flags_mod_health; [apply wf_board_mod_health, Hwf|].
        apply ai_flags_mod_health; assumption.
      * apply ai_flags_mod_health; assumption.
    + apply ai_flags_relocation; try assumption. congruence.
Qed.

(** X18. The AI flags tell the truth about the board, and play keeps it
    so: if each side has at most one AI on the board and its flag is set
    exactly when that AI is there, the same holds after any move and
    after passing the turn. *)
Theorem ai_flags_invariant g m :
  wf_board g -> ai_flags_reflect_board g ->
  ai_flags_reflect_board (snd (Game.perform_move g m))
  /\ ai_flags_reflect_board (Game.next_turn g)
  /\ ai_flags_reflect_board (Game.next_turn (snd (Game.perform_move g m))).
Proof.
  intros Hwf Hc.
  pose proof (ai_flags_perform_move g m Hwf Hc) as H.
  split; [exact H|]. split; [exact Hc|exact H].
Qed.

Lemma ai_flags_invariant_witness :
  ai_flags_reflect_board
    (snd (Game.perform_move duel (CoordPair.mk (Coord.mk 1 0) (Coord.mk 0 0)))).
Proof.
  exact (proj1 (ai_flags_invariant duel
                  (CoordPair.mk (Coord.mk 1 0) (Coord.mk 0 0))
                  ltac:(apply wf_boardb_sound; vm_compute; reflexivity)
                  ltac:(apply ai_flags_reflect_boardb_sound; vm_compute; reflexivity))).
Defined.

(** X19. On a board the flags tell the truth about, and below the turn
    limit, the winner is read off the board: the game is undecided
    exactly while both AIs stand, the Attacker has won exactly when only
    its AI stands, and the Defender has won exactly when the Attacker's
    AI is gone. *)
Theorem has_winner_reflects_board g :
  ai_flags_reflect_board g -> ~ turn_limit_reached g ->
  (Game.has_winner g = None
   <-> (exists c, ai_at g Attacker c) /\ (exists c, ai_at g Defender c))
  /\ (Game.has_winner g = Some Attacker
      <-> (exists c, ai_at g Attacker c) /\ ~ (exists c, ai_at g Defender c))
  /\ (Game.has_winner g = Some Defender
      <-> ~ (exists c, ai_at g Attacker c)).
Proof.
  intros Hc Hl.
  destruct (Hc Attacker) as [Ha _]. destruct (Hc Defender) as [Hd _].
  simpl in Ha, Hd. rewrite <- Ha, <- Hd.
  unfold Game.has_winner. unfold turn_limit_reached in Hl.
  assert (E : match Options.max_turns (Game.options g) with
              | Some max_turns => Game.turns_played g >=? max_turns
              | None => false
              end = false).
  { destruct (Options.max_turns (Game.options g)); [|reflexivity].
    destruct (_ >=? _) eqn:E; [lia|reflexivity]. }
  rewrite E.
  destruct (Game._attacker_has_ai g), (Game._defender_has_ai g);
    repeat split; intros; try discriminate; try reflexivity;
    try tauto; try congruence;
    repeat match goal with H : _ /\ _ |- _ => destruct H end;
    try discriminate; try congruence; try tauto.
Qed.

Lemma has_winner_reflects_board_witness :
  Game.has_winner opening = None
  <-> (exists c, ai_at opening Attacker c) /\ (exists c, ai_at opening Defender c).
Proof.
  destruct (has_winner_reflects_board opening) as [H _].
  - apply ai_flags_reflect_boardb_sound. vm_compute. reflexivity.
  - unfold turn_limit_reached. vm_compute. intros H. apply H. reflexivity.
  - exact H.
Defined.

(** * Candidate moves *)

Lemma elem_of_move_candidates2 g p m :
  m ∈ Game.move_candidates2 g p
  <-> (exists u, Game.get g (CoordPair.src m) = Some u /\ Unit.player u = p)
      /\ (CoordPair.dst m = CoordPair.src m
          \/ (orthogonal_neighbor (CoordPair.src m) (CoordPair.dst m)
              /\ Game.is_valid_move g m = true)).
Proof.
  unfold Game.move_candidates2. rewrite flat_map_bind, list_elem_of_bind.
  split.
  - intros ([src u] & Hm & Hu). apply elem_of_player_units in Hu as [Hg Hp].
    apply elem_of_app in Hm as [Hm|Hm].
    + apply list_elem_of_filter in Hm as [Hv Hm].
      apply list_elem_of_fmap in Hm as (dst & -> & Hd). simpl.
      split; [eauto|]. right. split; [|exact Hv].
      apply elem_of_iter_adjacent, Hd.
    + apply list_elem_of_singleton in Hm. subst m. simpl.
      split; [eauto|]. left. reflexivity.
  - intros [(u & Hg & Hp) H]. exists (CoordPair.src m, u). split.
    + apply elem_of_app. destruct m as [src dst].
      cbn [CoordPair.src CoordPair.dst] in *.
      destruct H as [->|[Hn Hv]].
      * right. apply list_elem_of_singleton. reflexivity.
      * left. apply list_elem_of_filter. split; [exact Hv|].
        apply list_elem_of_fmap. exists dst. split; [reflexivity|].
        apply elem_of_iter_adjacent, Hn.
    + apply elem_of_player_units. auto.
Qed.

Lemma elem_of_move_candidates g m :
  m ∈ Game.move_candidates g
  <-> Game.is_valid_move g m = true
      /\ (CoordPair.dst m = CoordPair.src m
          \/ orthogonal_neighbor (CoordPair.src m) (CoordPair.dst m)).
Proof.
  unfold Game.move_candidates. rewrite elem_of_move_candidates2. split.
  - intros [(u & Hg & Hp) [E|[Hn Hv]]].
    + split; [|left; exact E]. destruct m as [src dst].
      cbn [CoordPair.src CoordPair.dst] in *. subst dst.
      eapply is_valid_move_self_destruct; eassumption.
    + split; [exact Hv|right; exact Hn].
  - intros [Hv Hd].
    destruct (is_valid_move_own_unit g m Hv) as (_ & _ & u & Hg & Hp).
    split; [eauto|]. destruct Hd as [E|Hn]; [left; exact E|right; auto].
Qed.

(** X20. The candidate moves of the side to move are exactly its
    accepted moves to an orthogonal neighbour and the self-destruct
    moves of its units; every candidate is accepted by the validator. *)
Theorem move_candidates_exact g m :
  (m ∈ Game.move_candidates g
   <-> Game.is_valid_move g m = true
       /\ (CoordPair.dst m = CoordPair.src m
           \/ orthogonal_neighbor (CoordPair.src m) (CoordPair.dst m)))
  /\ (m ∈ Game.move_candidates g -> Game.is_valid_move g m = true).
Proof.
  split; [apply elem_of_move_candidates|].
  intros Hm. apply elem_of_move_candidates in Hm as [Hv _]. exact Hv.
Qed.

(** * The turn limit *)

Lemma play_turns g moves :
  Game.turns_played (play g moves)
  = Game.turns_played g + Z.of_nat (length moves)
  /\ Game.options (play g moves) = Game.options g.
Proof.
  unfold play. revert g.
  induction moves as [|m moves IH]; intros g; simpl fold_left.
  - simpl. split; [lia|reflexivity].
  - destruct (IH (Game.next_turn (snd (Game.perform_move g m)))) as [-> ->].
    simpl Game.turns_played. simpl Game.options.
    rewrite turns_played_perform_move, options_perform_move.
    rewrite length_cons. split; [lia|reflexivity].
Qed.

(** X21. No game outlasts the turn limit: whatever moves are played,
    accepted or not, once the turns played reach the configured limit
    the Defender has won. *)
Theorem turn_limit_ends_the_game g moves max_turns :
  Options.max_turns (Game.options g) = Some max_turns ->
  max_turns <= Game.turns_played g + Z.of_nat (length moves) ->
  Game.has_winner (play g moves) = Some Defender
  /\ Game.is_finished (play g moves) = true.
Proof.
  intros Hm Hle. destruct (play_turns g moves) as [Ht Ho].
  unfold Game.is_finished, Game.has_winner. rewrite Ho, Hm, Ht.
  destruct (_ >=? _) eqn:E; [split; reflexivity|lia].
Qed.

Lemma turn_limit_ends_the_game_witness :
  Game.has_winner
    (play (Game.mk (Game.board opening) Attacker 98 Options.default true true)
          [CoordPair.mk (Coord.mk 2 4) (Coord.mk 1 4);
           CoordPair.mk (Coord.mk 1 1) (Coord.mk 1 2)])
  = Some Defender.
Proof.
  exact (proj1 (turn_limit_ends_the_game
                  (Game.mk (Game.board opening) Attacker 98 Options.default
                           true true)
                  [CoordPair.mk (Coord.mk 2 4) (Coord.mk 1 4);
                   CoordPair.mk (Coord.mk 1 1) (Coord.mk 1 2)]
                  100 eq_refl ltac:(simpl; lia))).
Defined.

(** * Statistics *)

Lemma total_evals_insert_fresh (m : gmap nat Z) k n :
  m !! k = None ->
  map_fold (fun _ n acc => n + acc) 0 (<[k := n]> m)
  = n + map_fold (fun _ n acc => n + acc) 0 m.
Proof.
  intros H. apply (map_fold_insert_L (fun _ n acc => n + acc)); [|exact H].
  intros. lia.
Qed.

Lemma total_evals_lookup (m : gmap nat Z) k n :
  m !! k = Some n ->
  map_fold (fun _ n acc => n + acc) 0 m
  = n + map_fold (fun _ n acc => n + acc) 0 (delete k m).
Proof.
  intros H. apply (map_fold_delete_L (fun _ n acc => n + acc)); [|exact H].
  intros. lia.
Qed.

Lemma total_evals_increment stats depth :
  Search.total_evals (Stats.increment_evaluations stats depth)
  = Search.total_evals stats + 1.
Proof.
  unfold Search.total_evals, Stats.increment_evaluations.
  destruct (Stats.evaluations_per_depth stats !! depth) as [n|] eqn:E; simpl.
  - rewrite <- insert_delete_eq.
    rewrite total_evals_insert_fresh by apply lookup_delete_eq.
    rewrite (total_evals_lookup _ depth n E). lia.
  - rewrite total_evals_insert_fresh by exact E. lia.
Qed.

Lemma lookup_increment stats depth k :
  Stats.evaluations_per_depth (Stats.increment_evaluations stats depth) !! k
  = if decide (k = depth)
    then Some (default 0 (Stats.evaluations_per_depth stats !! depth) + 1)
    else Stats.evaluations_per_depth stats !! k.
Proof.
  unfold Stats.increment_evaluations.
  destruct (Stats.evaluations_per_depth stats !! depth) as [n|] eqn:E; simpl;
    destruct (decide (k = depth)) as [->|Hne];
    rewrite ?lookup_insert_eq, ?lookup_insert_ne by congruence; reflexivity.
Qed.

(** X22. [increment_evaluations] counts one node: the bucket of the
    depth goes up by one, starting at 1 when the depth is new, the other
    buckets are untouched, and the total over all buckets goes up by
    one. *)
Theorem increment_evaluations_counts_one stats depth :
  let stats' := Stats.increment_evaluations stats depth in
  Stats.evaluations_per_depth stats' !! depth
  = Some (default 0 (Stats.evaluations_per_depth stats !! depth) + 1)
  /\ (forall k, k <> depth ->
        Stats.evaluations_per_depth stats' !! k
        = Stats.evaluations_per_depth stats !! k)
  /\ Search.total_evals stats' = Search.total_evals stats + 1
  /\ Stats.minimax_entry stats' = Stats.minimax_entry stats.
Proof.
  simpl. split; [|split; [|split]].
  - rewrite lookup_increment. destruct (decide _); [reflexivity|congruence].
  - intros k Hk. rewrite lookup_increment.
    destruct (decide _); [contradiction|reflexivity].
  - apply total_evals_increment.
  - unfold Stats.increment_evaluations.
    destruct (_ !! _); reflexivity.
Qed.

(** * What the search leaves in the statistics *)

Section Buckets.

Variable clock : nat -> bool.

Lemma max_loop_same_from child g d :
  (forall a b g' st v mv st',
     child a b g' st = Returned (v, mv, st') -> same_from d st st') ->
  forall moves alpha beta score best st v mv st',
    Search.max_loop clock child g moves alpha beta score best st
    = Returned (v, mv, st') ->
    same_from d st st'.
Proof.
  intros Hchild.
  induction moves as [|m rest IH]; intros alpha beta score best st v mv st' H;
    simpl in H.
  - inversion H; subst. intros k _. reflexivity.
  - destruct (child alpha beta _ st) as [[[cs cm] [stats n]]|] eqn:Ec;
      [|discriminate].
    pose proof (Hchild _ _ _ _ _ _ _ Ec) as H1.
    assert (H2 : same_from d st (stats, S n)) by exact H1.
    destruct (cs >? score);
      destruct (clock n);
      try (inversion H; subst; exact H2);
      destruct (Options.alpha_beta (Game.options g));
      try (destruct (beta <=? _));
      try (inversion H; subst; exact H2);
      (intros k Hk; rewrite (IH _ _ _ _ _ _ _ _ H k Hk); apply H2, Hk).
Qed.

Lemma min_loop_same_from child g d :
  (forall a b g' st v mv st',
     child a b g' st = Returned (v, mv, st') -> same_from d st st') ->
  forall moves alpha beta score best st v mv st',
    Search.min_loop clock child g moves alpha beta score best st
    = Returned (v, mv, st') ->
    same_from d st st'.
Proof.
  intros Hchild.
  induction moves as [|m rest IH]; intros alpha beta score best st v mv st' H;
    simpl in H.
  - inversion H; subst. intros k _. reflexivity.
  - destruct (child alpha beta _ st) as [[[cs cm] [stats n]]|] eqn:Ec;
      [|discriminate].
    pose proof (Hchild _ _ _ _ _ _ _ Ec) as H1.
    assert (H2 : same_from d st (stats, S n)) by exact H1.
    destruct (cs <? score);
      destruct (clock n);
      try (inversion H; subst; exact H2);
      destruct (Options.alpha_beta (Game.options g));
      try (destruct (_ <=? alpha));
      try (inversion H; subst; exact H2);
      (intros k Hk; rewrite (IH _ _ _ _ _ _ _ _ H k Hk); apply H2, Hk).
Qed.

Lemma leaf_state self game st v mv st' :
  Search.leaf self game st = Returned (v, mv, st') -> st' = st /\ mv = None.
Proof.
  unfold Search.leaf. destruct (Search.heuristic_e2 self game); [|discriminate].
  intros H. inversion H. auto.
Qed.

Lemma minimax_same_above depth :
  forall alpha beta max_player g game st v mv st',
    Search.minimax clock depth alpha beta max_player g game st
    = Returned (v, mv, st') ->
    same_from (S depth) st st'.
Proof.
  induction depth as [|d IH]; intros alpha beta mp g game st v mv st' H.
  - simpl in H. apply leaf_state in H as [-> _]. intros k Hk. simpl.
    rewrite lookup_increment. destruct (decide _); [lia|reflexivity].
  - cbn [Search.minimax] in H.
    destruct (Game.is_finished g).
    + apply leaf_state in H as [-> _]. intros k Hk. simpl.
      rewrite lookup_increment. destruct (decide _); [lia|reflexivity].
    + assert (Hc : forall mp' a b g' st0 v0 mv0 st0',
                Search.minimax clock d a b mp' g' game st0
                = Returned (v0, mv0, st0') -> same_from (S (S d)) st0 st0').
      { intros mp' a b g' st0 v0 mv0 st0' H0 k Hk.
        apply (IH _ _ _ _ _ _ _ _ _ H0). lia. }
      destruct mp.
      * apply max_loop_same_from with (d := S (S d)) in H;
          [|intros; eapply Hc; eassumption].
        intros k Hk. rewrite (H k Hk). simpl.
        rewrite lookup_increment. destruct (decide _); [lia|reflexivity].
      * apply min_loop_same_from with (d := S (S d)) in H;
          [|intros; eapply Hc; eassumption].
        intros k Hk. rewrite (H k Hk). simpl.
        rewrite lookup_increment. destruct (decide _); [lia|reflexivity].
Qed.

(** X23. A search that returns has counted its root exactly once: the
    bucket of its depth is one above what it was, and the buckets of
    greater depths are untouched, whatever the clock and the pruning
    option. *)
Theorem minimax_counts_its_root depth alpha beta max_player g game st v mv st' :
  Search.minimax clock depth alpha beta max_player g game st
  = Returned (v, mv, st') ->
  Stats.evaluations_per_depth (fst st') !! depth
  = Some (default 0 (Stats.evaluations_per_depth (fst st) !! depth) + 1)
  /\ (forall k, (depth < k)%nat ->
        Stats.evaluations_per_depth (fst st') !! k
        = Stats.evaluations_per_depth (fst st) !! k).
Proof.
  intros H. split.
  - destruct depth as [|d].
    + simpl in H. apply leaf_state in H as [-> _]. simpl.
      rewrite lookup_increment. destruct (decide _); [reflexivity|congruence].
    + cbn [Search.minimax] in H.
      destruct (Game.is_finished g).
      * apply leaf_state in H as [-> _]. simpl.
        rewrite lookup_increment. destruct (decide _); [reflexivity|congruence].
      * assert (Hc : forall mp' a b g' st0 v0 mv0 st0',
                  Search.minimax clock d a b mp' g' game st0
                  = Returned (v0, mv0, st0') -> same_from (S d) st0 st0')
          by (intros; eapply minimax_same_above; eassumption).
        destruct max_player.
        -- apply max_loop_same_from with (d := S d) in H;
             [|intros; eapply Hc; eassumption].
           rewrite (H (S d)) by lia. simpl.
           rewrite lookup_increment.
           destruct (decide _); [reflexivity|congruence].
        -- apply min_loop_same_from with (d := S d) in H;
             [|intros; eapply Hc; eassumption].
           rewrite (H (S d)) by lia. simpl.
           rewrite lookup_increment.
           destruct (decide _); [reflexivity|congruence].
  - intros k Hk. apply (minimax_same_above _ _ _ _ _ _ _ _ _ _ H). lia.
Qed.

End Buckets.

Lemma minimax_counts_its_root_witness :
  Stats.evaluations_per_depth
    (Stats.increment_evaluations Stats.empty 0) !! 0%nat
  = Some (default 0 (Stats.evaluations_per_depth Stats.empty !! 0%nat) + 1).
Proof.
  exact (proj1 (minimax_counts_its_root (fun _ => false) 0
                  MIN_HEURISTIC_SCORE MAX_HEURISTIC_SCORE true
                  opening_depth_0 opening_depth_0 (Stats.empty, 0%nat)
                  62 None (Stats.increment_evaluations Stats.empty 0, 0%nat)
                  ltac:(vm_compute; reflexivity))).
Defined.

(** * The move the search returns *)

Section ReturnedMove.

Variable clock : nat -> bool.

Lemma max_loop_move child g :
  forall moves alpha beta score best st v mv st',
    Search.max_loop clock child g moves alpha beta score best st
    = Returned (v, mv, st') ->
    mv = best \/ exists m, mv = Some m /\ m ∈ moves.
Proof.
  induction moves as [|m rest IH]; intros alpha beta score best st v mv st' H;
    simpl in H.
  - inversion H. left. reflexivity.
  - destruct (child alpha beta _ st) as [[[cs cm] [stats n]]|]; [|discriminate].
    assert (Hhere : forall b : option CoordPair.t,
              b = best \/ b = Some m ->
              b = best \/ exists m0, b = Some m0 /\ m0 ∈ m :: rest).
    { intros b [->| ->]; [left; reflexivity|].
      right. exists m. split; [reflexivity|left]. }
    assert (Hrest : forall b : option CoordPair.t,
              b = best \/ b = Some m ->
              forall a' sc,
                Search.max_loop clock child g rest a' beta sc b (stats, S n)
                = Returned (v, mv, st') ->
                mv = best \/ exists m0, mv = Some m0 /\ m0 ∈ m :: rest).
    { intros b Hb a' sc H0. apply IH in H0 as [->|(m0 & -> & Hin)].
      - apply Hhere, Hb.
      - right. exists m0. split; [reflexivity|right; exact Hin]. }
    destruct (cs >? score);
      destruct (clock n);
      try (inversion H; subst; apply Hhere; auto; fail);
      destruct (Options.alpha_beta (Game.options g));
      try (destruct (beta <=? _));
      try (inversion H; subst; apply Hhere; auto; fail);
      (eapply Hrest; [|exact H]; auto).
Qed.

Lemma min_loop_move child g :
  forall moves alpha beta score best st v mv st',
    Search.min_loop clock child g moves alpha beta score best st
    = Returned (v, mv, st') ->
    mv = best \/ exists m, mv = Some m /\ m ∈ moves.
Proof.
  induction moves as [|m rest IH]; intros alpha beta score best st v mv st' H;
    simpl in H.
  - inversion H. left. reflexivity.
  - destruct (child alpha beta _ st) as [[[cs cm] [stats n]]|]; [|discriminate].
    assert (Hhere : forall b : option CoordPair.t,
              b = best \/ b = Some m ->
              b = best \/ exists m0, b = Some m0 /\ m0 ∈ m :: rest).
    { intros b [->| ->]; [left; reflexivity|].
      right. exists m. split; [reflexivity|left]. }
    assert (Hrest : forall b : option CoordPair.t,
              b = best \/ b = Some m ->
              forall b' sc,
                Search.min_loop clock child g rest alpha b' sc b (stats, S n)
                = Returned (v, mv, st') ->
                mv = best \/ exists m0, mv = Some m0 /\ m0 ∈ m :: rest).
    { intros b Hb b' sc H0. apply IH in H0 as [->|(m0 & -> & Hin)].
      - apply Hhere, Hb.
      - right. exists m0. split; [reflexivity|right; exact Hin]. }
    destruct (cs <? score);
      destruct (clock n);
      try (inversion H; subst; apply Hhere; auto; fail);
      destruct (Options.alpha_beta (Game.options g));
      try (destruct (_ <=? alpha));
      try (inversion H; subst; apply Hhere; auto; fail);
      (eapply Hrest; [|exact H]; auto).
Qed.

Lemma minimax_move depth alpha beta max_player g game st v m st' :
  Search.minimax clock depth alpha beta max_player g game st
  = Returned (v, Some m, st') ->
  m ∈ Game.move_candidates
        (if bool_decide (Stats.minimax_entry (fst st) <> 0)
         then Game.next_turn g else g).
Proof.
  intros H. destruct depth as [|d].
  - simpl in H. apply leaf_state in H as [_ H]. discriminate.
  - cbn [Search.minimax] in H. destruct (Game.is_finished g).
    + apply leaf_state in H as [_ H]. discriminate.
    + cbn [fst snd] in H. rewrite entry_increment in H.
      destruct max_player.
      * apply max_loop_move in H as [H|(m0 & E & Hin)]; [discriminate|].
        inversion E; subst. exact Hin.
      * apply min_loop_move in H as [H|(m0 & E & Hin)]; [discriminate|].
        inversion E; subst. exact Hin.
Qed.

Lemma suggest_move_candidate g st m st' :
  Stats.minimax_entry (fst st) = 0 ->
  Search.suggest_move clock g st = Returned (Some m, st') ->
  m ∈ Game.move_candidates g
  /\ Game.is_valid_move g m = true
  /\ Stats.minimax_entry (fst st') = 0.
Proof.
  intros He H. unfold Search.suggest_move in H.
  destruct (Search.minimax _ _ _ _ _ _ _ _) as [[[v mv] [stats n]]|] eqn:Em;
    [|discriminate].
  destruct (Search.percentages _ _); [|discriminate].
  destruct (Search.branching_factor _); [|discriminate].
  inversion H; subst.
  apply minimax_move in Em.
  rewrite bool_decide_eq_false_2 in Em by (intros Hn; apply Hn, He).
  split; [exact Em|]. split; [|reflexivity].
  apply elem_of_move_candidates in Em as [Hv _]. exact Hv.
Qed.

(** X24. [suggest_move] only ever suggests a legal move: when it is
    called with [minimax_entry] at 0, as it leaves it, a move it
    returns is one of the candidate moves of the position, accepted by
    the validator, whatever the depth, the clock and the pruning
    option. *)
Theorem suggest_move_is_legal g st m st' :
  Stats.minimax_entry (fst st) = 0 ->
  Search.suggest_move clock g st = Returned (Some m, st') ->
  m ∈ Game.move_candidates g
  /\ Game.is_valid_move g m = true
  /\ Stats.minimax_entry (fst st') = 0.
Proof. apply suggest_move_candidate. Qed.

(** X25. A computer turn plays what the search suggests: when
    [computer_turn] reports a move, that move was legal, it has been
    performed and the turn has passed, one turn later with the other
    side to move; when it reports no move the game is as it was. *)
Theorem computer_turn_plays_the_suggestion g st :
  Stats.minimax_entry (fst st) = 0 ->
  (forall m g' st',
     Search.computer_turn clock g st = Returned (Some m, g', st') ->
     Game.is_valid_move g m = true
     /\ g' = Game.next_turn (snd (Game.perform_move g m))
     /\ Game.turns_played g' = Game.turns_played g + 1
     /\ Game.next_player g' = Player_next (Game.next_player g))
  /\ (forall g' st',
        Search.computer_turn clock g st = Returned (None, g', st') -> g' = g).
Proof.
  intros He. unfold Search.computer_turn. split.
  - intros m g' st' H.
    destruct (Search.suggest_move clock g st) as [[[m0|] st0]|] eqn:Es;
      try discriminate.
    destruct (suggest_move_candidate g st m0 st0 He Es) as (_ & Hv & _).
    pose proof (perform_move_success g m0) as Hs.
    destruct (Game.perform_move g m0) as [success g1] eqn:Ep. simpl in Hs.
    rewrite Hs, Hv in H. inversion H; subst.
    pose proof (turns_played_perform_move g m) as Ht.
    pose proof (next_player_perform_move g m) as Hn.
    rewrite Ep in *. cbn [snd] in *.
    split; [exact Hv|]. split; [reflexivity|].
    simpl. rewrite Ht, Hn. split; reflexivity.
  - intros g' st' H.
    destruct (Search.suggest_move clock g st) as [[[m0|] st0]|] eqn:Es;
      try discriminate.
    + destruct (Game.perform_move g m0) as [success g1].
      destruct success; discriminate.
    + inversion H. reflexivity.
Qed.

End ReturnedMove.

Lemma suggest_move_is_legal_witness :
  Game.is_valid_move opening_depth_2
    (CoordPair.mk (Coord.mk 2 4) (Coord.mk 2 3)) = true.
Proof.
  assert (E : exists st',
             Search.suggest_move (fun _ => false) opening_depth_2
               (Stats.empty, 0%nat)
             = Returned (Some (CoordPair.mk (Coord.mk 2 4) (Coord.mk 2 3)), st')).
  { eexists. vm_compute. reflexivity. }
  destruct E as [st' E].
  exact (proj1 (proj2 (suggest_move_is_legal (fun _ => false) opening_depth_2
                         (Stats.empty, 0%nat) _ st' eq_refl E))).
Defined.

Lemma computer_turn_plays_the_suggestion_witness :
  exists g' st',
    Search.computer_turn (fun _ => false) opening_depth_2 (Stats.empty, 0%nat)
    = Returned (Some (CoordPair.mk (Coord.mk 2 4) (Coord.mk 2 3)), g', st')
    /\ Game.turns_played g' = Game.turns_played opening_depth_2 + 1.
Proof.
  assert (E : exists g' st',
             Search.computer_turn (fun _ => false) opening_depth_2
               (Stats.empty, 0%nat)
             = Returned (Some (CoordPair.mk (Coord.mk 2 4) (Coord.mk 2 3)),
                         g', st')).
  { eexists _, _. vm_compute. reflexivity. }
  destruct E as (g' & st' & E). exists g', st'. split; [exact E|].
  exact (proj1 (proj2 (proj2
           (proj1 (computer_turn_plays_the_suggestion (fun _ => false)
                     opening_depth_2 (Stats.empty, 0%nat) eq_refl)
                  _ g' st' E)))).
Defined.

(** * A human turn *)

Lemma is_valid_move_coords g mv :
  Game.is_valid_coord g (CoordPair.src mv)
  && Game.is_valid_coord g (CoordPair.dst mv) = false ->
  Game.is_valid_move g mv = false.
Proof.
  intros H. destruct (Game.is_valid_move g mv) eqn:E; [|reflexivity].
  destruct (is_valid_move_own_unit g mv E) as (V1 & V2 & _).
  rewrite V1, V2 in H. discriminate.
Qed.

Lemma perform_move_accepted g m :
  Game.is_valid_move g m = true ->
  Game.perform_move g m = (true, snd (Game.perform_move g m)).
Proof.
  intros H. pose proof (perform_move_success g m) as Hs. rewrite H in Hs.
  destruct (Game.perform_move g m). simpl in *. congruence.
Qed.

Lemma perform_move_rejected g m :
  Game.is_valid_move g m = false -> Game.perform_move g m = (false, g).
Proof. intros H. unfold Game.perform_move. rewrite H. reflexivity. Qed.

Lemma human_turn_loop_spec g inputs :
  forall fuel, (length inputs < fuel)%nat ->
    Search.human_turn_loop fuel g inputs
    = match first_accepted g inputs with
      | Some (mv, rest) =>
          Some (Game.next_turn (snd (Game.perform_move g mv)), rest)
      | None => None
      end.
Proof.
  induction inputs as [|s rest IH]; intros fuel Hf.
  - destruct fuel; reflexivity.
  - destruct fuel as [|f]; [simpl in Hf; lia|].
    simpl in Hf. cbn [Search.human_turn_loop Search.read_move first_accepted].
    destruct (CoordPair.from_string s) as [mv|].
    + destruct (Game.is_valid_coord g (CoordPair.src mv)
                && Game.is_valid_coord g (CoordPair.dst mv)) eqn:Ec.
      * destruct (Game.is_valid_move g mv) eqn:Ev.
        -- rewrite (perform_move_accepted g mv Ev). reflexivity.
        -- rewrite (perform_move_rejected g mv Ev). apply IH. lia.
      * rewrite (is_valid_move_coords g mv Ec).
        specialize (IH (S f) ltac:(lia)).
        cbn [Search.human_turn_loop] in IH. exact IH.
    + specialize (IH (S f) ltac:(lia)).
      cbn [Search.human_turn_loop] in IH. exact IH.
Qed.

Lemma first_accepted_suffix g inputs mv rest :
  first_accepted g inputs = Some (mv, rest) ->
  Game.is_valid_move g mv = true
  /\ exists skipped s,
       inputs = skipped ++ s :: rest
       /\ CoordPair.from_string s = Some mv
       /\ Forall (fun l => forall mv', CoordPair.from_string l = Some mv' ->
                                      Game.is_valid_move g mv' = false)
                 skipped.
Proof.
  revert mv rest. induction inputs as [|s tl IH]; intros mv rest H;
    simpl in H; [discriminate|].
  destruct (CoordPair.from_string s) as [mv0|] eqn:Ef.
  - destruct (Game.is_valid_move g mv0) eqn:Ev.
    + inversion H; subst. split; [exact Ev|].
      exists [], s. split; [reflexivity|]. split; [exact Ef|constructor].
    + destruct (IH _ _ H) as (Hv & sk & s' & -> & Hf & Hall).
      split; [exact Hv|]. exists (s :: sk), s'.
      split; [reflexivity|]. split; [exact Hf|].
      constructor; [|exact Hall]. intros mv' E. congruence.
  - destruct (IH _ _ H) as (Hv & sk & s' & -> & Hf & Hall).
    split; [exact Hv|]. exists (s :: sk), s'.
    split; [reflexivity|]. split; [exact Hf|].
    constructor; [|exact Hall]. intros mv' E. congruence.
Qed.

Lemma first_accepted_none g inputs :
  first_accepted g inputs = None
  <-> Forall (fun l => forall mv', CoordPair.from_string l = Some mv' ->
                                   Game.is_valid_move g mv' = false) inputs.
Proof.
  induction inputs as [|s tl IH]; simpl.
  - split; [constructor|reflexivity].
  - destruct (CoordPair.from_string s) as [mv0|] eqn:Ef.
    + destruct (Game.is_valid_move g mv0) eqn:Ev.
      * split; [discriminate|]. intros H. inversion H as [|? ? H1 _]; subst.
        specialize (H1 mv0 Ef). congruence.
      * rewrite IH. split.
        -- intros H. constructor; [|exact H]. intros mv' E. congruence.
        -- intros H. inversion H. assumption.
    + rewrite IH. split.
      * intros H. constructor; [|exact H]. intros mv' E. congruence.
      * intros H. inversion H. assumption.
Qed.

(** X26. A human turn plays the first line that is read as an accepted
    move: the lines before it, malformed or rejected, are skipped
    without changing the game; that move is performed and the turn
    passes, one turn later with the other side to move; the lines after
    it are left.  The turn fails, on the end of the input, exactly when
    no line is an accepted move. *)
Theorem human_turn_plays_first_accepted g inputs :
  (forall g' rest,
     Search.human_turn g inputs = Some (g', rest) ->
     exists skipped s mv,
       inputs = skipped ++ s :: rest
       /\ CoordPair.from_string s = Some mv
       /\ Game.is_valid_move g mv = true
       /\ Forall (fun l => forall mv', CoordPair.from_string l = Some mv' ->
                                      Game.is_valid_move g mv' = false)
                 skipped
       /\ g' = Game.next_turn (snd (Game.perform_move g mv))
       /\ Game.turns_played g' = Game.turns_played g + 1
       /\ Game.next_player g' = Player_next (Game.next_player g))
  /\ (Search.human_turn g inputs = None
      <-> Forall (fun l => forall mv', CoordPair.from_string l = Some mv' ->
                                       Game.is_valid_move g mv' = false)
                 inputs).
Proof.
  unfold Search.human_turn.
  rewrite (human_turn_loop_spec g inputs (S (length inputs))) by lia.
  split.
  - intros g' rest H.
    destruct (first_accepted g inputs) as [[mv r]|] eqn:E; [|discriminate].
    inversion H; subst.
    destruct (first_accepted_suffix _ _ _ _ E) as (Hv & sk & s & -> & Hf & Hall).
    exists sk, s, mv. repeat (split; [assumption || reflexivity|]).
    simpl. rewrite turns_played_perform_move, next_player_perform_move.
    split; reflexivity.
  - rewrite <- first_accepted_none.
    destruct (first_accepted g inputs) as [[mv r]|]; split; intros H;
      try discriminate; reflexivity.
Qed.

Lemma human_turn_plays_first_accepted_witness :
  exists g',
    Search.human_turn opening ["hello"; "A0 A1"; "c4-b4"; "D4 D4"]%string
    = Some (g', ["D4 D4"%string])
    /\ Game.turns_played g' = Game.turns_played opening + 1
    /\ Game.next_player g' = Player_next (Game.next_player opening).
Proof.
  assert (E : exists g',
             Search.human_turn opening
               ["hello"; "A0 A1"; "c4-b4"; "D4 D4"]%string
             = Some (g', ["D4 D4"%string])).
  { eexists. vm_compute. reflexivity. }
  destruct E as [g' E]. exists g'. split; [exact E|].
  destruct (proj1 (human_turn_plays_first_accepted opening
                     ["hello"; "A0 A1"; "c4-b4"; "D4 D4"]%string)
              g' ["D4 D4"%string] E)
    as (sk & s & mv & _ & _ & _ & _ & _ & Ht & Hn).
  split; [exact Ht|exact Hn].
Defined.

(** * The material heuristics *)

(** X27. The two material heuristics are zero-sum between the two
    computer players: in a game of computer against computer, the score
    of a position for the call of the Defender is the opposite of its
    score for the call of the Attacker. *)
Theorem material_heuristics_zero_sum self game1 game2 :
  Options.game_type (Game.options self) = CompVsComp ->
  Game.next_player game1 = Attacker ->
  Game.next_player game2 = Defender ->
  (exists z, Search.heuristic_e0 self game1 = Returned z
             /\ Search.heuristic_e0 self game2 = Returned (- z))
  /\ (exists z, Search.heuristic_e1 self game1 = Returned z
                /\ Search.heuristic_e1 self game2 = Returned (- z)).
Proof.
  intros Hgt H1 H2.
  assert (S1 : Search.sides self game1 = Some (Attacker, Defender))
    by (unfold Search.sides; rewrite Hgt, H1; reflexivity).
  assert (S2 : Search.sides self game2 = Some (Defender, Attacker))
    by (unfold Search.sides; rewrite Hgt, H2; reflexivity).
  unfold Search.heuristic_e0, Search.heuristic_e1. rewrite S1, S2. split.
  - destruct (Search.count_units (Game.player_units self Attacker)) as [o a].
    destruct (Search.count_units (Game.player_units self Defender)) as [no na].
    eexists. split; [reflexivity|]. f_equal. lia.
  - destruct (Search.sum_health (Game.player_units self Attacker)) as [o a].
    destruct (Search.sum_health (Game.player_units self Defender)) as [no na].
    eexists. split; [reflexivity|]. f_equal. lia.
Qed.

Lemma material_heuristics_zero_sum_witness :
  exists z, Search.heuristic_e1 (Game.set opening_depth_2 (Coord.mk 0 0) None)
              opening_depth_2 = Returned z
            /\ Search.heuristic_e1
                 (Game.set opening_depth_2 (Coord.mk 0 0) None)
                 (Game.next_turn opening_depth_2) = Returned (- z).
Proof.
  exact (proj2 (material_heuristics_zero_sum
                  (Game.set opening_depth_2 (Coord.mk 0 0) None)
                  opening_depth_2 (Game.next_turn opening_depth_2)
                  eq_refl eq_refl eq_refl)).
Defined.

(** * A live position always gets a move *)

Lemma heuristic_e2_inside g game z :
  wf_units g -> Options.dim (Game.options g) <= 4000 ->
  Search.heuristic_e2 g game = Returned z ->
  MIN_HEURISTIC_SCORE < z < MAX_HEURISTIC_SCORE.
Proof.
  intros Hu Hdim. unfold Search.heuristic_e2.
  destruct (Search.sides g game) as [[p np]|]; [|discriminate].
  intros E. inversion E as [Ez]. clear E Ez.
  pose proof (fold_own_step_bound g _ (player_units_health g p Hu) 0 0
                Search.acc0) as H1.
  specialize (H1 ltac:(unfold acc_bound; simpl; lia)).
  pose proof (fold_opp_step_bound g _ (player_units_health g np Hu) _ _ _ H1)
    as H2.
  pose proof (length_player_units g p) as L1.
  pose proof (length_player_units g np) as L2.
  pose proof (length_move_candidates2 g p) as M1.
  pose proof (length_move_candidates2 g np) as M2.
  set (D := Z.to_nat (Options.dim (Game.options g))) in *.
  assert (HD : Z.of_nat D * Z.of_nat D <= 16000000) by (subst D; nia).
  unfold acc_bound in H2. unfold MIN_HEURISTIC_SCORE, MAX_HEURISTIC_SCORE.
  lia.
Qed.

Lemma in_play_perform_move g m :
  in_play g -> in_play (snd (Game.perform_move g m)).
Proof.
  intros (Hb & Hu & Hd & Ha & Hg). unfold in_play.
  rewrite options_perform_move.
  split; [apply wf_board_perform_move, Hb|].
  split; [apply wf_units_perform_move; assumption|].
  split; [exact Hd|].
  split; [apply ai_flags_perform_move; assumption|exact Hg].
Qed.

Lemma in_play_next_turn g : in_play g -> in_play (Game.next_turn g).
Proof. intros H. exact H. Qed.

Lemma live_flags g p : Game.is_finished g = false -> ai_flag g p = true.
Proof.
  unfold Game.is_finished, Game.has_winner. intros Hf.
  destruct (match Options.max_turns (Game.options g) with
            | Some _ => _ | None => _ end); [discriminate|].
  destruct (Game._attacker_has_ai g) eqn:EA; [|discriminate].
  destruct (Game._defender_has_ai g) eqn:ED; [|discriminate].
  destruct p; assumption.
Qed.

Lemma flagged_has_candidates g :
  ai_flags_reflect_board g -> ai_flag g (Game.next_player g) = true ->
  Game.move_candidates g <> [].
Proof.
  intros Ha Hflag.
  apply (proj1 (Ha (Game.next_player g))) in Hflag as (c & u & Hg & _ & Hp).
  intros E.
  assert (Hin : CoordPair.mk c c ∈ Game.move_candidates g).
  { apply elem_of_move_candidates. split; [|left; reflexivity].
    eapply is_valid_move_self_destruct; eassumption. }
  rewrite E in Hin. inversion Hin.
Qed.

Section Live.

Variable clock : nat -> bool.

Lemma max_loop_live child g :
  (forall a b m st, returns_inside (child a b (snd (Game.perform_move g m)) st)) ->
  forall moves alpha beta score best st,
    MIN_HEURISTIC_SCORE <= score < MAX_HEURISTIC_SCORE ->
    exists v mv st',
      Search.max_loop clock child g moves alpha beta score best st
      = Returned (v, mv, st')
      /\ score <= v < MAX_HEURISTIC_SCORE
      /\ (moves <> [] -> MIN_HEURISTIC_SCORE < v)
      /\ (best <> None \/ (moves <> [] /\ score = MIN_HEURISTIC_SCORE) ->
          mv <> None).
Proof.
  intros Hchild.
  induction moves as [|m rest IH]; intros alpha beta score best st Hs; simpl.
  - exists score, best, st. split; [reflexivity|]. split; [lia|].
    split; [congruence|]. intros [H|[H _]]; congruence.
  - destruct (Hchild alpha beta m st) as (cs & cm & [stats n] & -> & Hc).
    assert (Hret : forall (b : option CoordPair.t) sc,
              score <= sc < MAX_HEURISTIC_SCORE ->
              MIN_HEURISTIC_SCORE < sc ->
              (best <> None \/ score = MIN_HEURISTIC_SCORE -> b <> None) ->
              exists v mv st',
                @Returned (Z * option CoordPair.t * Search.St)
                          (sc, b, (stats, S n)) = Returned (v, mv, st')
                /\ score <= v < MAX_HEURISTIC_SCORE
                /\ (m :: rest <> [] -> MIN_HEURISTIC_SCORE < v)
                /\ (best <> None
                    \/ (m :: rest <> [] /\ score = MIN_HEURISTIC_SCORE) ->
                    mv <> None)).
    { intros b sc H1 H2 H3. exists sc, b, (stats, S n).
      split; [reflexivity|]. split; [exact H1|]. split; [intros _; exact H2|].
      intros [H|[_ H]]; apply H3; auto. }
    assert (Hgo : forall (b : option CoordPair.t) sc a',
              score <= sc < MAX_HEURISTIC_SCORE ->
              MIN_HEURISTIC_SCORE < sc ->
              (best <> None \/ score = MIN_HEURISTIC_SCORE -> b <> None) ->
              exists v mv st',
                Search.max_loop clock child g rest a' beta sc b (stats, S n)
                = Returned (v, mv, st')
                /\ score <= v < MAX_HEURISTIC_SCORE
                /\ (m :: rest <> [] -> MIN_HEURISTIC_SCORE < v)
                /\ (best <> None
                    \/ (m :: rest <> [] /\ score = MIN_HEURISTIC_SCORE) ->
                    mv <> None)).
    { intros b sc a' H1 H2 H3.
      destruct (IH a' beta sc b (stats, S n) ltac:(lia))
        as (v & mv & st' & E & Hv & _ & Hm).
      exists v, mv, st'. split; [exact E|]. split; [lia|].
      split; [intros _; lia|].
      intros H. apply Hm. left. apply H3. destruct H as [H|[_ H]]; auto. }
    destruct (cs >? score) eqn:Ecmp.
    + assert (H3 : best <> None \/ score = MIN_HEURISTIC_SCORE ->
                   Some m <> @None CoordPair.t) by (intros _; discriminate).
      destruct (clock n); [apply Hret; try lia; exact H3|].
      destruct (Options.alpha_beta (Game.options g));
        [destruct (beta <=? _)|];
        first [apply Hret; try lia; exact H3 | apply Hgo; try lia; exact H3].
    + assert (H3 : best <> None \/ score = MIN_HEURISTIC_SCORE ->
                   best <> None) by (intros [H|H]; [exact H|lia]).
      destruct (clock n); [apply Hret; try lia; exact H3|].
      destruct (Options.alpha_beta (Game.options g));
        [destruct (beta <=? _)|];
        first [apply Hret; try lia; exact H3 | apply Hgo; try lia; exact H3].
Qed.

Lemma min_loop_live child g :
  (forall a b m st, returns_inside (child a b (snd (Game.perform_move g m)) st)) ->
  forall moves alpha beta score best st,
    MIN_HEURISTIC_SCORE < score <= MAX_HEURISTIC_SCORE ->
    exists v mv st',
      Search.min_loop clock child g moves alpha beta score best st
      = Returned (v, mv, st')
      /\ MIN_HEURISTIC_SCORE < v <= score
      /\ (moves <> [] -> v < MAX_HEURISTIC_SCORE)
      /\ (best <> None \/ (moves <> [] /\ score = MAX_HEURISTIC_SCORE) ->
          mv <> None).
Proof.
  intros Hchild.
  induction moves as [|m rest IH]; intros alpha beta score best st Hs; simpl.
  - exists score, best, st. split; [reflexivity|]. split; [lia|].
    split; [congruence|]. intros [H|[H _]]; congruence.
  - destruct (Hchild alpha beta m st) as (cs & cm & [stats n] & -> & Hc).
    assert (Hret : forall (b : option CoordPair.t) sc,
              MIN_HEURISTIC_SCORE < sc <= score ->
              sc < MAX_HEURISTIC_SCORE ->
              (best <> None \/ score = MAX_HEURISTIC_SCORE -> b <> None) ->
              exists v mv st',
                @Returned (Z * option CoordPair.t * Search.St)
                          (sc, b, (stats, S n)) = Returned (v, mv, st')
                /\ MIN_HEURISTIC_SCORE < v <= score
                /\ (m :: rest <> [] -> v < MAX_HEURISTIC_SCORE)
                /\ (best <> None
                    \/ (m :: rest <> [] /\ score = MAX_HEURISTIC_SCORE) ->
                    mv <> None)).
    { intros b sc H1 H2 H3. exists sc, b, (stats, S n).
      split; [reflexivity|]. split; [exact H1|]. split; [intros _; exact H2|].
      intros [H|[_ H]]; apply H3; auto. }
    assert (Hgo : forall (b : option CoordPair.t) sc b',
              MIN_HEURISTIC_SCORE < sc <= score ->
              sc < MAX_HEURISTIC_SCORE ->
              (best <> None \/ score = MAX_HEURISTIC_SCORE -> b <> None) ->
              exists v mv st',
                Search.min_loop clock child g rest alpha b' sc b (stats, S n)
                = Returned (v, mv, st')
                /\ MIN_HEURISTIC_SCORE < v <= score
                /\ (m :: rest <> [] -> v < MAX_HEURISTIC_SCORE)
                /\ (best <> None
                    \/ (m :: rest <> [] /\ score = MAX_HEURISTIC_SCORE) ->
                    mv <> None)).
    { intros b sc b' H1 H2 H3.
      destruct (IH alpha b' sc b (stats, S n) ltac:(lia))
        as (v & mv & st' & E & Hv & _ & Hm).
      exists v, mv, st'. split; [exact E|]. split; [lia|].
      split; [intros _; lia|].
      intros H. apply Hm. left. apply H3. destruct H as [H|[_ H]]; auto. }
    destruct (cs <? score) eqn:Ecmp.
    + assert (H3 : best <> None \/ score = MAX_HEURISTIC_SCORE ->
                   Some m <> @None CoordPair.t) by (intros _; discriminate).
      destruct (clock n); [apply Hret; try lia; exact H3|].
      destruct (Options.alpha_beta (Game.options g));
        [destruct (_ <=? alpha)|];
        first [apply Hret; try lia; exact H3 | apply Hgo; try lia; exact H3].
    + assert (H3 : best <> None \/ score = MAX_HEURISTIC_SCORE ->
                   best <> None) by (intros [H|H]; [exact H|lia]).
      destruct (clock n); [apply Hret; try lia; exact H3|].
      destruct (Options.alpha_beta (Game.options g));
        [destruct (_ <=? alpha)|];
        first [apply Hret; try lia; exact H3 | apply Hgo; try lia; exact H3].
Qed.

Lemma leaf_inside g game st :
  in_play g -> returns_inside (Search.leaf g game st).
Proof.
  intros (_ & Hu & Hd & _ & Hg). unfold Search.leaf.
  rewrite heuristic_e2_defined by exact Hg.
  eexists _, _, _. split; [reflexivity|].
  eapply heuristic_e2_inside; [exact Hu|exact Hd|].
  apply heuristic_e2_defined, Hg.
Qed.

Lemma minimax_inside depth :
  forall alpha beta max_player g game st,
    in_play g ->
    returns_inside
      (Search.minimax clock depth alpha beta max_player g game st).
Proof.
  induction depth as [|d IH]; intros alpha beta mp g game st Hp.
  - simpl. apply leaf_inside, Hp.
  - cbn [Search.minimax]. destruct (Game.is_finished g) eqn:Ef.
    + apply leaf_inside, Hp.
    + cbn [fst snd].
      set (g' := if bool_decide _ then Game.next_turn g else g).
      assert (Hp' : in_play g') by (subst g'; destruct (bool_decide _); exact Hp).
      assert (Hne : Game.move_candidates g' <> []).
      { apply flagged_has_candidates; [apply Hp'|].
        transitivity (ai_flag g (Game.next_player g'));
          [subst g'; destruct (bool_decide _), (Game.next_player _);
           reflexivity|].
        apply live_flags, Ef. }
      destruct mp.
      * assert (Hchild : forall a b m0 st0, returns_inside
                  ((fun a b g0 => Search.minimax clock d a b false g0 game)
                     a b (snd (Game.perform_move g' m0)) st0))
          by (intros; apply IH, in_play_perform_move, Hp').
        match goal with
        | |- context [Search.max_loop _ _ _ _ _ _ _ _ ?s] =>
            destruct (max_loop_live _ g' Hchild (Game.move_candidates g')
                        alpha beta MIN_HEURISTIC_SCORE None s) as
              (v & mv & st' & E & Hv & Hlow & Hmv);
              [unfold MIN_HEURISTIC_SCORE, MAX_HEURISTIC_SCORE; lia|]
        end.
        exists v, mv, st'. split; [exact E|].
        split; [apply Hlow, Hne|lia].
      * assert (Hchild : forall a b m0 st0, returns_inside
                  ((fun a b g0 => Search.minimax clock d a b true g0 game)
                     a b (snd (Game.perform_move g' m0)) st0))
          by (intros; apply IH, in_play_perform_move, Hp').
        match goal with
        | |- context [Search.min_loop _ _ _ _ _ _ _ _ ?s] =>
            destruct (min_loop_live _ g' Hchild (Game.move_candidates g')
                        alpha beta MAX_HEURISTIC_SCORE None s) as
              (v & mv & st' & E & Hv & Hhigh & Hmv);
              [unfold MIN_HEURISTIC_SCORE, MAX_HEURISTIC_SCORE; lia|]
        end.
        exists v, mv, st'. split; [exact E|].
        split; [lia|apply Hhigh, Hne].
Qed.

Lemma minimax_live d alpha beta max_player g game st :
  in_play g -> Game.is_finished g = false ->
  exists v m st',
    Search.minimax clock (S d) alpha beta max_player g game st
    = Returned (v, Some m, st')
    /\ MIN_HEURISTIC_SCORE < v < MAX_HEURISTIC_SCORE.
Proof.
  intros Hp Ef. cbn [Search.minimax]. rewrite Ef. cbn [fst snd].
  set (g' := if bool_decide _ then Game.next_turn g else g).
  assert (Hp' : in_play g') by (subst g'; destruct (bool_decide _); exact Hp).
  assert (Hne : Game.move_candidates g' <> []).
  { apply flagged_has_candidates; [apply Hp'|].
    transitivity (ai_flag g (Game.next_player g'));
      [subst g'; destruct (bool_decide _), (Game.next_player _);
       reflexivity|].
    apply live_flags, Ef. }
  destruct max_player.
  - assert (Hchild : forall a b m0 st0, returns_inside
              ((fun a b g0 => Search.minimax clock d a b false g0 game)
                 a b (snd (Game.perform_move g' m0)) st0))
      by (intros; apply minimax_inside, in_play_perform_move, Hp').
    match goal with
    | |- context [Search.max_loop _ _ _ _ _ _ _ _ ?s] =>
        destruct (max_loop_live _ g' Hchild (Game.move_candidates g')
                    alpha beta MIN_HEURISTIC_SCORE None s) as
          (v & mv & st' & E & Hv & Hlow & Hmv);
          [unfold MIN_HEURISTIC_SCORE, MAX_HEURISTIC_SCORE; lia|]
    end.
    destruct mv as [m|]; [|exfalso; apply Hmv; auto].
    exists v, m, st'. split; [exact E|].
    split; [apply Hlow, Hne|lia].
  - assert (Hchild : forall a b m0 st0, returns_inside
              ((fun a b g0 => Search.minimax clock d a b true g0 game)
                 a b (snd (Game.perform_move g' m0)) st0))
      by (intros; apply minimax_inside, in_play_perform_move, Hp').
    match goal with
    | |- context [Search.min_loop _ _ _ _ _ _ _ _ ?s] =>
        destruct (min_loop_live _ g' Hchild (Game.move_candidates g')
                    alpha beta MAX_HEURISTIC_SCORE None s) as
          (v & mv & st' & E & Hv & Hhigh & Hmv);
          [unfold MIN_HEURISTIC_SCORE, MAX_HEURISTIC_SCORE; lia|]
    end.
    destruct mv as [m|]; [|exfalso; apply Hmv; auto].
    exists v, m, st'. split; [exact E|].
    split; [lia|apply Hhigh, Hne].
Qed.

(** X28. A position in play that is not finished always gets a move: at
    any depth of at least 1, whatever the window, the clock and the
    pruning option, the search returns without raising, with a candidate
    move of the side to move and a score strictly between the two score
    constants. *)
Theorem search_finds_a_move depth alpha beta max_player g game st :
  in_play g -> Game.is_finished g = false -> (0 < depth)%nat ->
  exists v m st',
    Search.minimax clock depth alpha beta max_player g game st
    = Returned (v, Some m, st')
    /\ MIN_HEURISTIC_SCORE < v < MAX_HEURISTIC_SCORE
    /\ m ∈ Game.move_candidates
             (if bool_decide (Stats.minimax_entry (fst st) <> 0)
              then Game.next_turn g else g).
Proof.
  intros Hp Ef Hd. destruct depth as [|d]; [lia|].
  destruct (minimax_live d alpha beta max_player g game st Hp Ef)
    as (v & m & st' & E & Hv).
  exists v, m, st'. split; [exact E|]. split; [exact Hv|].
  eapply minimax_move, E.
Qed.

End Live.

Lemma search_finds_a_move_witness :
  exists v m st',
    Search.minimax (fun _ => true) 1 MIN_HEURISTIC_SCORE MAX_HEURISTIC_SCORE
      true opening_depth_2 opening_depth_2 (Stats.empty, 0%nat)
    = Returned (v, Some m, st')
    /\ MIN_HEURISTIC_SCORE < v < MAX_HEURISTIC_SCORE.
Proof.
  destruct (search_finds_a_move (fun _ => true) 1 MIN_HEURISTIC_SCORE
              MAX_HEURISTIC_SCORE true opening_depth_2 opening_depth_2
              (Stats.empty, 0%nat)) as (v & m & st' & E & Hv & _).
  - split; [apply wf_boardb_sound; vm_compute; reflexivity|].
    split; [apply wf_unitsb_sound; vm_compute; reflexivity|].
    split; [vm_compute; discriminate|].
    split; [apply ai_flags_reflect_boardb_sound; vm_compute; reflexivity|].
    vm_compute. discriminate.
  - vm_compute. reflexivity.
  - lia.
  - exists v, m, st'. split; [exact E|exact Hv].
Defined.

Lemma counted_refl s : counted s s.
Proof.
  intros k. destruct (_ !! k) as [n|] eqn:E; [|intros; discriminate].
  exists n. split; [reflexivity|lia].
Qed.

Lemma counted_trans s1 s2 s3 : counted s1 s2 -> counted s2 s3 -> counted s1 s3.
Proof.
  intros H12 H23 k. specialize (H12 k). specialize (H23 k).
  destruct (Stats.evaluations_per_depth s1 !! k) as [n1|].
  - destruct H12 as (n2 & E2 & L2). rewrite E2 in H23.
    destruct H23 as (n3 & E3 & L3). exists n3. split; [exact E3|lia].
  - intros n3 E3.
    destruct (Stats.evaluations_per_depth s2 !! k) as [n2|].
    + destruct H23 as (n3' & E3' & L3). specialize (H12 n2 eq_refl).
      rewrite E3 in E3'. inversion E3'. lia.
    + apply H23, E3.
Qed.

Lemma counted_increment s d : counted s (Stats.increment_evaluations s d).
Proof.
  intros k. rewrite lookup_increment. destruct (decide (k = d)) as [->|Hne].
  - destruct (_ !! d) as [n|]; simpl.
    + exists (n + 1). split; [reflexivity|lia].
    + intros n' E. inversion E. lia.
  - destruct (_ !! k) as [n|]; [|intros; discriminate].
    exists n. split; [reflexivity|lia].
Qed.

Lemma counted_positive s s' :
  counts_positive s -> counted s s' -> counts_positive s'.
Proof.
  intros Hp Hc k n' E. specialize (Hc k).
  destruct (Stats.evaluations_per_depth s !! k) as [n|] eqn:Ek.
  - destruct Hc as (n'' & E' & L). rewrite E in E'. inversion E'; subst.
    specialize (Hp k n Ek). lia.
  - apply Hc, E.
Qed.

Lemma counted_is_Some s s' k :
  counted s s' -> is_Some (Stats.evaluations_per_depth s !! k) ->
  is_Some (Stats.evaluations_per_depth s' !! k).
Proof.
  intros Hc [n E]. specialize (Hc k). rewrite E in Hc.
  destruct Hc as (n' & E' & _). exists n'. exact E'.
Qed.

Lemma counted_weak s s' : counted s s' -> forall k,
  is_Some (Stats.evaluations_per_depth s !! k) ->
  is_Some (Stats.evaluations_per_depth s' !! k).
Proof. intros H k. apply counted_is_Some, H. Qed.

Lemma total_evals_nonneg (m : gmap nat Z) :
  (forall k n, m !! k = Some n -> 0 < n) ->
  0 <= map_fold (fun _ n acc => n + acc) 0 m.
Proof.
  induction m as [|k n m Hk IH] using map_ind; intros Hp.
  - rewrite map_fold_empty. lia.
  - rewrite total_evals_insert_fresh by exact Hk.
    assert (0 < n) by (apply (Hp k); apply lookup_insert_eq).
    assert (0 <= map_fold (fun _ n acc => n + acc) 0 m).
    { apply IH. intros k' n' E. apply (Hp k').
      rewrite lookup_insert_ne; [exact E|]. intros ->. congruence. }
    lia.
Qed.

Lemma total_evals_positive stats k :
  counts_positive stats ->
  is_Some (Stats.evaluations_per_depth stats !! k) ->
  0 < Search.total_evals stats.
Proof.
  intros Hp [n E]. unfold Search.total_evals.
  rewrite (total_evals_lookup _ k n E).
  assert (0 < n) by (eapply Hp, E).
  assert (0 <= map_fold (fun _ n acc => n + acc) 0
                (delete k (Stats.evaluations_per_depth stats))).
  { apply total_evals_nonneg. intros k' n' E'.
    apply lookup_delete_Some in E' as [_ E']. eapply Hp, E'. }
  lia.
Qed.

Section Counting.

Variable clock : nat -> bool.

Lemma max_loop_counted child g :
  (forall a b g' st v mv st',
     child a b g' st = Returned (v, mv, st') -> counted (fst st) (fst st')) ->
  forall moves alpha beta score best st v mv st',
    Search.max_loop clock child g moves alpha beta score best st
    = Returned (v, mv, st') ->
    counted (fst st) (fst st').
Proof.
  intros Hchild.
  induction moves as [|m rest IH];
    intros alpha beta score best st v mv st' H; simpl in H.
  - inversion H; subst. apply counted_refl.
  - destruct (child alpha beta _ st) as [[[cs cm] [stats n]]|] eqn:Ec;
      [|discriminate].
    pose proof (Hchild _ _ _ _ _ _ _ Ec) as H1. simpl in H1.
    destruct (cs >? score);
      destruct (clock n);
      try (inversion H; subst; exact H1);
      destruct (Options.alpha_beta (Game.options g));
      try (destruct (beta <=? _));
      try (inversion H; subst; exact H1);
      (eapply counted_trans; [exact H1|];
       apply (IH _ _ _ _ (stats, S n) _ _ _ H)).
Qed.

Lemma min_loop_counted child g :
  (forall a b g' st v mv st',
     child a b g' st = Returned (v, mv, st') -> counted (fst st) (fst st')) ->
  forall moves alpha beta score best st v mv st',
    Search.min_loop clock child g moves alpha beta score best st
    = Returned (v, mv, st') ->
    counted (fst st) (fst st').
Proof.
  intros Hchild.
  induction moves as [|m rest IH];
    intros alpha beta score best st v mv st' H; simpl in H.
  - inversion H; subst. apply counted_refl.
  - destruct (child alpha beta _ st) as [[[cs cm] [stats n]]|] eqn:Ec;
      [|discriminate].
    pose proof (Hchild _ _ _ _ _ _ _ Ec) as H1. simpl in H1.
    destruct (cs <? score);
      destruct (clock n);
      try (inversion H; subst; exact H1);
      destruct (Options.alpha_beta (Game.options g));
      try (destruct (_ <=? alpha));
      try (inversion H; subst; exact H1);
      (eapply counted_trans; [exact H1|];
       apply (IH _ _ _ _ (stats, S n) _ _ _ H)).
Qed.

Lemma minimax_counted depth :
  forall alpha beta max_player g game st v mv st',
    Search.minimax clock depth alpha beta max_player g game st
    = Returned (v, mv, st') ->
    counted (Stats.increment_evaluations (fst st) depth) (fst st').
Proof.
  induction depth as [|d IH]; intros alpha beta mp g game st v mv st' H.
  - simpl in H. apply leaf_state in H as [-> _]. apply counted_refl.
  - cbn [Search.minimax] in H. destruct (Game.is_finished g).
    + apply leaf_state in H as [-> _]. apply counted_refl.
    + assert (Hc : forall mp' a b g' st0 v0 mv0 st0',
                Search.minimax clock d a b mp' g' game st0
                = Returned (v0, mv0, st0') -> counted (fst st0) (fst st0')).
      { intros mp' a b g' st0 v0 mv0 st0' H0.
        eapply counted_trans; [apply (counted_increment _ d)|].
        eapply IH; eassumption. }
      destruct mp.
      * apply max_loop_counted in H; [exact H|].
        intros; eapply Hc; eassumption.
      * apply min_loop_counted in H; [exact H|].
        intros; eapply Hc; eassumption.
Qed.

(** After a loop over at least one move, the bucket of the children's
    depth is there. *)
Lemma max_loop_visits d g game :
  forall moves alpha beta score best st v mv st',
    moves <> [] ->
    Search.max_loop clock
      (fun a b g0 => Search.minimax clock d a b false g0 game)
      g moves alpha beta score best st
    = Returned (v, mv, st') ->
    is_Some (Stats.evaluations_per_depth (fst st') !! d).
Proof.
  intros [|m rest] alpha beta score best st v mv st' Hne H; [congruence|].
  simpl in H.
  destruct (Search.minimax clock d alpha beta false _ game st)
    as [[[cs cm] [stats n]]|] eqn:Ec; [|discriminate].
  pose proof (minimax_counted _ _ _ _ _ _ _ _ _ _ Ec) as H1. simpl in H1.
  assert (H2 : is_Some (Stats.evaluations_per_depth stats !! d)).
  { eapply counted_is_Some; [exact H1|].
    rewrite lookup_increment. destruct (decide _); [eauto|congruence]. }
  assert (Hloop : forall a b sc bm,
            Search.max_loop clock
              (fun a b g0 => Search.minimax clock d a b false g0 game)
              g rest a b sc bm (stats, S n) = Returned (v, mv, st') ->
            is_Some (Stats.evaluations_per_depth (fst st') !! d)).
  { intros a b sc bm Hl. apply max_loop_counted in Hl.
    - eapply counted_is_Some; [exact Hl|exact H2].
    - intros a0 b0 g' st0 v0 mv0 st0' H0.
      eapply counted_trans; [apply (counted_increment _ d)|].
      eapply minimax_counted, H0. }
  destruct (cs >? score);
    destruct (clock n);
    try (inversion H; subst; exact H2);
    destruct (Options.alpha_beta (Game.options g));
    try (destruct (beta <=? _));
    try (inversion H; subst; exact H2);
    eapply Hloop, H.
Qed.

Lemma minimax_visits d alpha beta g game st v mv st' :
  in_play g -> Game.is_finished g = false ->
  Search.minimax clock (S d) alpha beta true g game st
  = Returned (v, mv, st') ->
  is_Some (Stats.evaluations_per_depth (fst st') !! d).
Proof.
  intros Hplay Ef Em.
  cbn [Search.minimax] in Em. rewrite Ef in Em. cbn [fst snd] in Em.
  apply max_loop_visits in Em; [exact Em|].
  apply flagged_has_candidates.
  - destruct (bool_decide _); apply Hplay.
  - transitivity (ai_flag g (Game.next_player
       (if bool_decide (Stats.minimax_entry
                          (Stats.increment_evaluations (fst st) (S d)) <> 0)
        then Game.next_turn g else g)));
      [destruct (bool_decide _), (Game.next_player _); reflexivity|].
    apply live_flags, Ef.
Qed.

Lemma branching_factor_defined stats :
  counts_positive stats -> report_buckets stats ->
  exists q, Search.branching_factor stats = Returned q.
Proof.
  intros Hp [[e0 E0] [e1 E1]]. unfold Search.branching_factor.
  rewrite E0, E1. pose proof (Hp _ _ E1).
  destruct (e1 =? 0) eqn:E; [lia|eauto].
Qed.

Lemma percentages_defined stats d :
  counts_positive stats -> report_buckets stats ->
  Search.percentages stats d = Returned tt.
Proof.
  intros Hp [H0 _]. unfold Search.percentages.
  destruct (Search.keys_before _ _); [reflexivity|].
  pose proof (total_evals_positive stats 0%nat Hp H0).
  destruct (Search.total_evals stats =? 0) eqn:E; [lia|reflexivity].
Qed.

Lemma suggest_move_live g st :
  in_play g -> Game.is_finished g = false ->
  Stats.minimax_entry (fst st) = 0 ->
  counts_positive (fst st) ->
  Options.max_depth (Game.options g) = 1%nat
  \/ ((0 < Options.max_depth (Game.options g))%nat
      /\ report_buckets (fst st)) ->
  exists m st',
    Search.suggest_move clock g st = Returned (Some m, st')
    /\ Game.is_valid_move g m = true
    /\ Stats.minimax_entry (fst st') = 0
    /\ counts_positive (fst st')
    /\ report_buckets (fst st').
Proof.
  intros Hplay Ef He Hpos Hd.
  assert (Hd1 : (0 < Options.max_depth (Game.options g))%nat)
    by (destruct Hd as [->|[H _]]; lia).
  destruct (Options.max_depth (Game.options g)) as [|d] eqn:Ed; [lia|].
  destruct (minimax_live clock d MIN_HEURISTIC_SCORE MAX_HEURISTIC_SCORE true
              g g st Hplay Ef) as (v & m & [stats n] & Em & _).
  pose proof (minimax_counted _ _ _ _ _ _ _ _ _ _ Em) as Hc. simpl in Hc.
  assert (Hc' : counted (fst st) stats)
    by (eapply counted_trans; [apply counted_increment|exact Hc]).
  assert (Hpos' : counts_positive stats)
    by (eapply counted_positive; eassumption).
  assert (Hb : report_buckets stats).
  { destruct Hd as [Hd|[_ [B0 B1]]].
    - inversion Hd; subst d. split.
      + exact (minimax_visits _ _ _ _ _ _ _ _ _ Hplay Ef Em).
      + eapply counted_is_Some; [exact Hc|].
        rewrite lookup_increment. destruct (decide _); [eauto|congruence].
    - split; eapply counted_is_Some; eassumption. }
  exists m, (Stats.set_minimax_entry stats 0, n).
  unfold Search.suggest_move. rewrite Ed, Em.
  rewrite (percentages_defined (Stats.set_minimax_entry stats 0))
    by assumption.
  destruct (branching_factor_defined (Stats.set_minimax_entry stats 0))
    as [q ->]; [assumption..|].
  split; [reflexivity|].
  split; [|split; [reflexivity|split; assumption]].
  apply minimax_move in Em.
  rewrite bool_decide_eq_false_2 in Em by (intros Hn; apply Hn, He).
  apply elem_of_move_candidates in Em. apply Em.
Qed.

(** X29. The computer always plays in a live position: for a game in
    play that is not finished, searched to depth 1 (or deeper once the
    two buckets the report reads are there), [computer_turn] raises
    nothing; it performs a legal move and passes the turn, and leaves
    the statistics ready for the next call. *)
Theorem computer_turn_always_plays g st :
  in_play g -> Game.is_finished g = false ->
  Stats.minimax_entry (fst st) = 0 ->
  counts_positive (fst st) ->
  Options.max_depth (Game.options g) = 1%nat
  \/ ((0 < Options.max_depth (Game.options g))%nat
      /\ report_buckets (fst st)) ->
  exists m st',
    Search.computer_turn clock g st
    = Returned (Some m, Game.next_turn (snd (Game.perform_move g m)), st')
    /\ Game.is_valid_move g m = true
    /\ Stats.minimax_entry (fst st') = 0
    /\ counts_positive (fst st')
    /\ report_buckets (fst st').
Proof.
  intros Hplay Ef He Hpos Hd.
  destruct (suggest_move_live g st Hplay Ef He Hpos Hd)
    as (m & st' & Es & Hv & Hrest).
  exists m, st'. split; [|split; [exact Hv|exact Hrest]].
  unfold Search.computer_turn. rewrite Es.
  rewrite (perform_move_accepted g m Hv). reflexivity.
Qed.

End Counting.

Lemma computer_turn_always_plays_witness :
  exists m st',
    Search.computer_turn (fun _ => false)
      (Game.post_init (Options.mk 5 1 CompVsComp true (Some 100)))
      (Stats.empty, 0%nat)
    = Returned (Some m,
                Game.next_turn
                  (snd (Game.perform_move
                          (Game.post_init
                             (Options.mk 5 1 CompVsComp true (Some 100))) m)),
                st')
    /\ Game.is_valid_move
         (Game.post_init (Options.mk 5 1 CompVsComp true (Some 100))) m = true
    /\ Stats.minimax_entry (fst st') = 0
    /\ counts_positive (fst st')
    /\ report_buckets (fst st').
Proof.
  apply (computer_turn_always_plays (fun _ => false)
           (Game.post_init (Options.mk 5 1 CompVsComp true (Some 100)))
           (Stats.empty, 0%nat)).
  - split; [apply wf_boardb_sound; vm_compute; reflexivity|].
    split; [apply wf_unitsb_sound; vm_compute; reflexivity|].
    split; [vm_compute; discriminate|].
    split; [apply ai_flags_reflect_boardb_sound; vm_compute; reflexivity|].
    vm_compute. discriminate.
  - vm_compute. reflexivity.
  - reflexivity.
  - intros k n H. simpl in H. rewrite lookup_empty in H. discriminate.
  - left. reflexivity.
Defined.
